(** * anonymize-slide: a shallow embedding of the TIFF/NDPI directory
    surgeon, the MRXS index editor and the SVS/NDPI handlers of
    [anonymize_slide.py], with the properties of its specification. *)

From Stdlib Require Import String Ascii.
From Stdlib Require Import ZArith List Lia Bool.
Import ListNotations.
Open Scope list_scope.
Open Scope Z_scope.

(** ** Python exceptions and results *)

(** The exceptions the modelled code can raise.  [Fuel] stands for a loop
    that has not terminated within the fuel given to the model (the Python
    loop over a cyclic IFD chain never terminates). *)
Inductive exn :=
| UnrecognizedFile
| IOError (msg : string)
| ValueError (msg : string)
| KeyError
| IndexError
| TypeError
| AttributeError
| StructError
| UnicodeDecodeError
| NoSectionError
| Fuel.

Inductive res (A : Type) :=
| Ok (a : A)
| Err (e : exn).
Arguments Ok {A} a.
Arguments Err {A} e.

Definition bind {A B} (m : res A) (k : A -> res B) : res B :=
  match m with Ok a => k a | Err e => Err e end.

Notation "x <- m ;; k" := (bind m (fun x => k))
  (at level 61, m at next level, right associativity).

(** ** Files: byte contents, [read], [write], [truncate] *)

(** A file's contents; every element is a byte in [0, 256). *)
Definition bytes := list Z.

Definition is_bytes (f : bytes) : Prop := Forall (fun b => 0 <= b < 256) f.

(** [f.seek(pos); f.read(n)]: a short read at the end of the file, nothing
    past it, and [read(-1)] reads to the end. *)
Definition read_at (f : bytes) (pos n : Z) : bytes :=
  let len := Z.of_nat (length f) in
  if len <=? pos then []
  else
    let rest := skipn (Z.to_nat pos) f in
    if n <? 0 then rest else firstn (Z.to_nat (Z.min n (len - pos))) rest.

(** [f.seek(pos); f.write(bs)]: writing past the end first fills the gap
    with zero bytes; writing nothing leaves the file as it is. *)
Definition write_at (f : bytes) (pos : Z) (bs : bytes) : bytes :=
  match bs with
  | [] => f
  | _ =>
      let f' := f ++ repeat 0 (Z.to_nat pos - length f) in
      firstn (Z.to_nat pos) f' ++ bs ++ skipn (Z.to_nat pos + length bs) f'
  end.

(** The byte at position [i] (0 past the end). *)
Definition byte_at (f : bytes) (i : Z) : Z := nth (Z.to_nat i) f 0.

(** [f.truncate(n)] for [n] not beyond the end of the file. *)
Definition truncate_at (f : bytes) (n : Z) : bytes := firstn (Z.to_nat n) f.

(** ** [struct] integers *)

Fixpoint le_value (bs : bytes) : Z :=
  match bs with
  | [] => 0
  | b :: r => b + 256 * le_value r
  end.

Fixpoint le_bytes (n : nat) (v : Z) : bytes :=
  match n with
  | O => []
  | S m => v mod 256 :: le_bytes m (v / 256)
  end.

(** [struct.unpack] of an unsigned integer in the given byte order. *)
Definition unpack_uint (le : bool) (bs : bytes) : Z :=
  if le then le_value bs else le_value (rev bs).

(** [struct.pack] of an unsigned [n]-byte integer: out of range is
    [struct.error]. *)
Definition pack_uint (le : bool) (n : Z) (v : Z) : res bytes :=
  if (0 <=? v) && (v <? 2 ^ (8 * n)) then
    Ok (if le then le_bytes (Z.to_nat n) v else rev (le_bytes (Z.to_nat n) v))
  else Err StructError.

(** Two's complement reading of an [n]-byte unsigned value. *)
Definition to_signed (n : Z) (v : Z) : Z :=
  if v >=? 2 ^ (8 * n - 1) then v - 2 ^ (8 * n) else v.

(** ** The TIFF dialect (TiffFile._fmt_prefix, _bigtiff, _ndpi) *)

Record dialect := {
  dl_le : bool;     (* '<' when the file starts with II *)
  dl_big : bool;    (* version 43 *)
  dl_ndpi : bool    (* tag 65420 in the first directory *)
}.

Definition set_ndpi (dl : dialect) : dialect :=
  {| dl_le := dl_le dl; dl_big := dl_big dl; dl_ndpi := true |}.

(** Sizes of the codes of [TiffFile._convert_format]. *)
Definition y_size (dl : dialect) : Z := if dl_big dl then 8 else 2.
Definition z_size (dl : dialect) : Z := if dl_big dl then 8 else 4.
Definition d_size (dl : dialect) : Z :=
  if dl_big dl || dl_ndpi dl then 8 else 4.

(** [fh.seek(pos); fh.read_fmt(code)] for one unsigned integer code of
    [n] bytes; a short read makes [struct.unpack] fail. *)
Definition read_uint (f : bytes) (dl : dialect) (pos n : Z) : res Z :=
  let bs := read_at f pos n in
  if Z.of_nat (length bs) =? n then Ok (unpack_uint (dl_le dl) bs)
  else Err StructError.

(** [fh.seek(pos); fh.write_fmt(code, v)]. *)
Definition write_uint (f : bytes) (dl : dialect) (pos n v : Z) : res bytes :=
  bs <- pack_uint (dl_le dl) n v ;; Ok (write_at f pos bs).

(** TiffFile.near_pointer *)
Definition near_pointer (dl : dialect) (base offset : Z) : Z :=
  if dl_ndpi dl && (offset <? base) then
    let seg_size := Z.shiftl 1 32 in
    offset + ((base - offset) / seg_size) * seg_size
  else offset.

Fixpoint bytes_eqb (a b : bytes) : bool :=
  match a, b with
  | [], [] => true
  | x :: a', y :: b' => (x =? y) && bytes_eqb a' b'
  | _, _ => false
  end.

(** ** Python dicts keyed by integers (insertion order kept, a repeated key
    replaces the value in place) *)

Fixpoint dict_set {A} (k : Z) (v : A) (d : list (Z * A)) : list (Z * A) :=
  match d with
  | [] => [(k, v)]
  | (k', v') :: r => if k' =? k then (k, v) :: r else (k', v') :: dict_set k v r
  end.

Fixpoint dict_get {A} (k : Z) (d : list (Z * A)) : option A :=
  match d with
  | [] => None
  | (k', v) :: r => if k' =? k then Some v else dict_get k r
  end.

(** [d[k]]: a missing key raises KeyError. *)
Definition dict_index {A} (d : list (Z * A)) (k : Z) : res A :=
  match dict_get k d with Some v => Ok v | None => Err KeyError end.

(** ** TIFF constants *)

Definition BYTE := 1.
Definition ASCII := 2.
Definition SHORT := 3.
Definition LONG := 4.
Definition FLOAT := 11.
Definition DOUBLE := 12.
Definition LONG8 := 16.

Definition IMAGE_DESCRIPTION := 270.
Definition STRIP_OFFSETS := 273.
Definition STRIP_BYTE_COUNTS := 279.
Definition NDPI_MAGIC := 65420.
Definition NDPI_SOURCELENS := 65421.
Definition XMLPACKET := 700.

Definition JPEG_SOI : bytes := [255; 216].

(** ** TiffEntry and TiffDirectory as read by [TiffFile.__init__] *)

Record TiffEntry := {
  start : Z;          (* fh.tell() before the entry *)
  tag : Z;
  type : Z;
  count : Z;
  value_offset : Z
}.

(** Size of one entry, [fmt_size('HHZZ')]. *)
Definition entry_size (dl : dialect) : Z := 4 + 2 * z_size dl.

(** TiffEntry.__init__: [read_fmt('HHZZ')] at [pos]. *)
Definition read_entry (f : bytes) (dl : dialect) (pos : Z) : res TiffEntry :=
  tg <- read_uint f dl pos 2 ;;
  ty <- read_uint f dl (pos + 2) 2 ;;
  cnt <- read_uint f dl (pos + 4) (z_size dl) ;;
  vo <- read_uint f dl (pos + 4 + z_size dl) (z_size dl) ;;
  Ok {| start := pos; tag := tg; type := ty; count := cnt; value_offset := vo |}.

(** The loop [for _ in range(count): entry = TiffEntry(fh);
    self.entries[entry.tag] = entry]. *)
Fixpoint read_entries (f : bytes) (dl : dialect) (n : nat) (pos : Z)
    (acc : list (Z * TiffEntry)) : res (list (Z * TiffEntry)) :=
  match n with
  | O => Ok acc
  | S m =>
      e <- read_entry f dl pos ;;
      read_entries f dl m (pos + entry_size dl) (dict_set (tag e) e acc)
  end.

(** A TiffDirectory; [directory_offset] is the local of
    [TiffFile.__init__] it was read from. *)
Record TiffDirectory := {
  entries : list (Z * TiffEntry);
  in_pointer_offset : Z;
  out_pointer_offset : Z;
  number : nat;
  directory_offset : Z
}.

(** TiffDirectory.__init__ with the file positioned at [doff]. *)
Definition read_directory (f : bytes) (dl : dialect) (doff : Z) (num : nat)
    (in_ptr : Z) : res TiffDirectory :=
  cnt <- read_uint f dl doff (y_size dl) ;;
  ents <- read_entries f dl (Z.to_nat cnt) (doff + y_size dl) [] ;;
  Ok {| entries := ents;
        in_pointer_offset := in_ptr;
        out_pointer_offset := doff + y_size dl + cnt * entry_size dl;
        number := num;
        directory_offset := doff |}.

Definition has_tag (t : Z) (d : TiffDirectory) : bool :=
  match dict_get t (entries d) with Some _ => true | None => false end.

(** The [while True] loop of [TiffFile.__init__]: read the pointer at
    [in_ptr], stop on 0, otherwise read the directory there; NDPI mode is
    switched on after the first directory of a classic file that has tag
    65420.  [ndirs] is [len(self.directories)]. *)
Fixpoint read_chain (fuel : nat) (f : bytes) (dl : dialect) (ndirs : nat)
    (in_ptr : Z) : res (dialect * list TiffDirectory) :=
  doff <- read_uint f dl in_ptr (d_size dl) ;;
  if doff =? 0 then Ok (dl, []) else
  match fuel with
  | O => Err Fuel
  | S fuel' =>
      d <- read_directory f dl doff ndirs in_ptr ;;
      let dl' := if Nat.eqb ndirs 0 && negb (dl_big dl) && has_tag NDPI_MAGIC d
                 then set_ndpi dl else dl in
      r <- read_chain fuel' f dl' (S ndirs) (out_pointer_offset d) ;;
      Ok (fst r, d :: snd r)
  end.

Record TiffFile := {
  tf_dialect : dialect;
  directories : list TiffDirectory
}.

(** The header check of [TiffFile.__init__]: the dialect and the offset of
    the first directory pointer. *)
Definition read_header (f : bytes) : res (dialect * Z) :=
  let endian := read_at f 0 2 in
  le <- (if bytes_eqb endian [73; 73] then Ok true
         else if bytes_eqb endian [77; 77] then Ok false
         else Err UnrecognizedFile) ;;
  let dl0 := {| dl_le := le; dl_big := false; dl_ndpi := false |} in
  version <- read_uint f dl0 2 2 ;;
  if version =? 42 then Ok (dl0, 4)
  else if version =? 43 then
    magic2 <- read_uint f dl0 4 2 ;;
    reserved <- read_uint f dl0 6 2 ;;
    if (magic2 =? 8) && (reserved =? 0)
    then Ok ({| dl_le := le; dl_big := true; dl_ndpi := false |}, 8)
    else Err UnrecognizedFile
  else Err UnrecognizedFile.

(** TiffFile.__init__ *)
Definition open_tiff (fuel : nat) (f : bytes) : res TiffFile :=
  h <- read_header f ;;
  r <- read_chain fuel f (fst h) 0 (snd h) ;;
  match snd r with
  | [] => Err (IOError "No directories")
  | _ => Ok {| tf_dialect := fst r; directories := snd r |}
  end.

(** ** TiffEntry.value *)

(** The [struct] item codes of [TiffEntry.format_type]. *)
Inductive item_fmt := Fb | Fc | FH | FI | FQ | Ff | Fd.

(** TiffEntry.format_type *)
Definition format_type (ty : Z) : res item_fmt :=
  if ty =? BYTE then Ok Fb
  else if ty =? ASCII then Ok Fc
  else if ty =? SHORT then Ok FH
  else if ty =? LONG then Ok FI
  else if ty =? LONG8 then Ok FQ
  else if ty =? FLOAT then Ok Ff
  else if ty =? DOUBLE then Ok Fd
  else Err (ValueError "Unsupported type").

Definition item_size (it : item_fmt) : Z :=
  match it with
  | Fb | Fc => 1
  | FH => 2
  | FI | Ff => 4
  | FQ | Fd => 8
  end.

(** One unpacked [struct] item: an int, a float given by its bits, or a
    one-byte bytes object ('c'). *)
Inductive item :=
| IInt (z : Z)
| IFloat32 (bits : Z)
| IFloat64 (bits : Z)
| IChar (b : Z).

Definition unpack_item (le : bool) (it : item_fmt) (bs : bytes) : item :=
  match it with
  | Fb => IInt (to_signed 1 (unpack_uint le bs))
  | Fc => IChar (unpack_uint le bs)
  | FH | FI | FQ => IInt (unpack_uint le bs)
  | Ff => IFloat32 (unpack_uint le bs)
  | Fd => IFloat64 (unpack_uint le bs)
  end.

Fixpoint unpack_items (le : bool) (it : item_fmt) (n : nat) (bs : bytes)
    : list item :=
  match n with
  | O => []
  | S m =>
      let sz := Z.to_nat (item_size it) in
      unpack_item le it (firstn sz bs) :: unpack_items le it m (skipn sz bs)
  end.

(** What [value()] returns: bytes for ASCII, a tuple otherwise. *)
Inductive pyvalue :=
| VBytes (b : bytes)
| VTuple (t : list item).

Definition char_of (i : item) : Z :=
  match i with IChar b => b | _ => 0 end.

(** Where [value()] reads the payload of an entry of [len] bytes. *)
Definition payload_pos (dl : dialect) (e : TiffEntry) (len : Z) : Z :=
  if len <=? z_size dl then start e + 4 + z_size dl
  else near_pointer dl (start e) (value_offset e).

(** TiffEntry.value *)
Definition value (f : bytes) (dl : dialect) (e : TiffEntry) : res pyvalue :=
  it <- format_type (type e) ;;
  let len := count e * item_size it in
  let raw := read_at f (payload_pos dl e len) len in
  if negb (Z.of_nat (length raw) =? len) then Err StructError else
  let items := unpack_items (dl_le dl) it (Z.to_nat (count e)) raw in
  if type e =? ASCII then
    match rev items with
    | [] => Err IndexError
    | last :: _ =>
        if char_of last =? 0
        then Ok (VBytes (map char_of (removelast items)))
        else Err (ValueError "String not null-terminated")
    end
  else Ok (VTuple items).

(** Iterating a value: bytes iterate as ints. *)
Definition iter_value (v : pyvalue) : list item :=
  match v with
  | VBytes b => map IInt b
  | VTuple t => t
  end.

(** ** TiffDirectory.delete *)

(** A file operation: its result and the file contents afterwards (an
    exception keeps the writes done before it). *)
Definition io (A : Type) := (res A * bytes)%type.

(** The "Wipe strips" loop; [prefix = []] is [expected_prefix=None]. *)
Fixpoint wipe_strips (f : bytes) (dl : dialect) (base : Z) (prefix : bytes)
    (pairs : list (item * item)) : io unit :=
  match pairs with
  | [] => (Ok tt, f)
  | (o, l) :: rest =>
      match o with
      | IInt o0 =>
          let offset := near_pointer dl base o0 in
          if offset <? 0 then (Err (ValueError "negative seek position"), f)
          else if match prefix with
                  | [] => false
                  | _ => negb (bytes_eqb
                                 (read_at f offset (Z.of_nat (length prefix)))
                                 prefix)
                  end
          then (Err (IOError "Unexpected data in image strip"), f)
          else match l with
               | IInt length =>
                   wipe_strips (write_at f offset (repeat 0 (Z.to_nat length)))
                     dl base prefix rest
               | _ => (Err TypeError, f)
               end
      | _ => (Err TypeError, f)
      end
  end.

(** The strip offsets and lengths, read in the [try] block of [delete]. *)
Definition strip_values (f : bytes) (dl : dialect) (d : TiffDirectory)
    : res (pyvalue * pyvalue) :=
  e1 <- dict_index (entries d) STRIP_OFFSETS ;;
  offsets <- value f dl e1 ;;
  e2 <- dict_index (entries d) STRIP_BYTE_COUNTS ;;
  lengths <- value f dl e2 ;;
  Ok (offsets, lengths).

(** TiffDirectory.delete *)
Definition delete (f : bytes) (dl : dialect) (d : TiffDirectory)
    (expected_prefix : bytes) : io unit :=
  match strip_values f dl d with
  | Err KeyError => (Err (IOError "Directory is not stripped"), f)
  | Err e => (Err e, f)
  | Ok (offsets, lengths) =>
      match wipe_strips f dl (out_pointer_offset d) expected_prefix
              (combine (iter_value offsets) (iter_value lengths)) with
      | (Err e, f1) => (Err e, f1)
      | (Ok _, f1) =>
          match read_uint f1 dl (out_pointer_offset d) (d_size dl) with
          | Err e => (Err e, f1)
          | Ok out_pointer =>
              match write_uint f1 dl (in_pointer_offset d) (d_size dl)
                      out_pointer with
              | Err e => (Err e, f1)
              | Ok f2 => (Ok tt, f2)
              end
          end
      end
  end.

(** ** TiffEntry.overwrite_entry *)

(** [len("".join([chr(x) for x in entry_ordinals]))]. *)
Definition old_value_length (v : pyvalue) : res Z :=
  let chr_ok (i : item) : res unit :=
    match i with
    | IInt x => if (0 <=? x) && (x <=? 1114111) then Ok tt
                else Err (ValueError "chr() arg not in range(0x110000)")
    | _ => Err TypeError
    end in
  let items := iter_value v in
  _ <- fold_right (fun i acc => _ <- chr_ok i ;; acc) (Ok tt) items ;;
  Ok (Z.of_nat (length items)).

(** TiffEntry.overwrite_entry *)
Definition overwrite_entry (f : bytes) (dl : dialect) (e : TiffEntry)
    (byte_string : bytes) : io unit :=
  match (_ <- format_type (type e) ;;
         entry_ordinals <- value f dl e ;;
         old_value_length entry_ordinals) with
  | Err x => (Err x, f)
  | Ok old_len =>
      let null_pad := old_len - Z.of_nat (length byte_string) in
      if type e =? ASCII then
        let new_value := byte_string ++ repeat 32 (Z.to_nat null_pad) in
        (* struct.pack('%ds' % count, new_value) *)
        let packed := firstn (Z.to_nat (count e))
                        (new_value ++ repeat 0 (Z.to_nat (count e))) in
        (Ok tt, write_at f (value_offset e) packed)
      else if type e =? BYTE then
        let new_value := byte_string ++ repeat 0 (Z.to_nat null_pad) in
        (* struct.pack('%db' % count, *new_value) *)
        if negb (Z.of_nat (length new_value) =? count e) then (Err StructError, f)
        else if forallb (fun b => b <=? 127) new_value
        then (Ok tt, write_at f (value_offset e) new_value)
        else (Err StructError, f)
      else (Err (ValueError "Unsupported type"), f)
  end.

(** ** MRXS: the nonhier index walk, [_zero_record], [_delete_index_record] *)

Definition MRXS_NONHIER_ROOT_OFFSET := 41.

(** [fh.seek(pos)]: a negative position raises ValueError. *)
Definition py_seek (pos : Z) : res Z :=
  if pos <? 0 then Err (ValueError "negative seek position") else Ok pos.

(** MrxsFile._read_int32 at [pos]. *)
Definition read_int32 (f : bytes) (pos : Z) : res Z :=
  let buf := read_at f pos 4 in
  if Z.of_nat (length buf) =? 4 then Ok (to_signed 4 (le_value buf))
  else Err (IOError "Short read").

(** MrxsFile._assert_int32 at [pos]. *)
Definition assert_int32 (f : bytes) (pos value : Z) : res unit :=
  v <- read_int32 f pos ;;
  if v =? value then Ok tt else Err (ValueError "%d != %d").

(** [lst[i]] on a list of length [n]: negative indices count from the
    end. *)
Definition py_list_index (n i : Z) : res Z :=
  if (0 <=? i) && (i <? n) then Ok i
  else if (- n <=? i) && (i <? 0) then Ok (n + i)
  else Err IndexError.

(** MrxsFile._get_data_location: the index of the data file, the position
    and the size of the record. *)
Definition get_data_location (index : bytes) (ndatafiles record : Z)
    : res (Z * Z * Z) :=
  table_base <- read_int32 index MRXS_NONHIER_ROOT_OFFSET ;;
  p <- py_seek (table_base + record * 4) ;;
  list_head <- read_int32 index p ;;
  h <- py_seek list_head ;;
  _ <- assert_int32 index h 0 ;;
  page <- read_int32 index (h + 4) ;;
  q <- py_seek page ;;
  _ <- assert_int32 index q 1 ;;
  _ <- read_int32 index (q + 4) ;;
  _ <- assert_int32 index (q + 8) 0 ;;
  _ <- assert_int32 index (q + 12) 0 ;;
  position <- read_int32 index (q + 16) ;;
  size <- read_int32 index (q + 20) ;;
  fileno <- read_int32 index (q + 24) ;;
  i <- py_list_index ndatafiles fileno ;;
  Ok (i, position, size).

(** The body of [_zero_record] on the opened data file.  The zeroing branch
    writes the str ['\0' * length] to a file opened in binary mode, which
    raises TypeError. *)
Definition zero_record_data (data : bytes) (offset length : Z) : io unit :=
  let do_truncate := Z.of_nat (List.length data) =? offset + length in
  if offset <? 0 then (Err (ValueError "negative seek position"), data) else
  let buf := read_at data offset (Z.of_nat (List.length JPEG_SOI)) in
  if negb (bytes_eqb buf JPEG_SOI)
  then (Err (IOError "Unexpected data in nonhier image"), data)
  else if do_truncate then (Ok tt, truncate_at data offset)
  else (Err TypeError, data).

(** The files of an MRXS slide the editor touches. *)
Record MrxsFiles := {
  index_file : bytes;
  datafiles : list bytes
}.

Fixpoint list_set {A} (l : list A) (n : nat) (v : A) : list A :=
  match l, n with
  | [], _ => []
  | _ :: r, O => v :: r
  | x :: r, S m => x :: list_set r m v
  end.

(** MrxsFile._zero_record *)
Definition zero_record (m : MrxsFiles) (record : Z) : res unit * MrxsFiles :=
  match get_data_location (index_file m) (Z.of_nat (length (datafiles m)))
          record with
  | Err e => (Err e, m)
  | Ok (i, offset, length) =>
      let (r, data') :=
        zero_record_data (nth (Z.to_nat i) (datafiles m) []) offset length in
      (r, {| index_file := index_file m;
             datafiles := list_set (datafiles m) (Z.to_nat i) data' |})
  end.

(** MrxsFile._delete_index_record, with [nlevels = len(self._level_list)]. *)
Definition delete_index_record (index : bytes) (nlevels record : Z) : io unit :=
  let entries_to_move := nlevels - record - 1 in
  if entries_to_move =? 0 then (Ok tt, index) else
  match read_int32 index MRXS_NONHIER_ROOT_OFFSET with
  | Err e => (Err e, index)
  | Ok table_base =>
      match py_seek (table_base + (record + 1) * 4) with
      | Err e => (Err e, index)
      | Ok p =>
          let buf := read_at index p (entries_to_move * 4) in
          if negb (Z.of_nat (length buf) =? entries_to_move * 4)
          then (Err (IOError "Short read"), index)
          else match py_seek (table_base + record * 4) with
               | Err e => (Err e, index)
               | Ok q => (Ok tt, write_at index q buf)
               end
      end
  end.

(** ** MRXS: [Slidedat.ini] text, byte-order mark and [_write] *)

(** The bytes of an ASCII string literal. *)
Definition bstr (s : string) : bytes :=
  map (fun c => Z.of_nat (nat_of_ascii c)) (list_ascii_of_string s).

Definition UTF8_BOM : bytes := [239; 187; 191].

Definition utf8_cont (b : Z) : bool := (128 <=? b) && (b <? 192).

(** Python's UTF-8 decoder accepts exactly the well-formed UTF-8 sequences
    (no overlong forms, no surrogates, nothing above U+10FFFF). *)
Fixpoint utf8_valid (bs : bytes) : bool :=
  match bs with
  | [] => true
  | b0 :: r0 =>
      if b0 <? 128 then utf8_valid r0 else
      match r0 with
      | [] => false
      | b1 :: r1 =>
          if (194 <=? b0) && (b0 <=? 223) then utf8_cont b1 && utf8_valid r1 else
          match r1 with
          | [] => false
          | b2 :: r2 =>
              if (224 <=? b0) && (b0 <=? 239) then
                (if b0 =? 224 then (160 <=? b1) && (b1 <? 192)
                 else if b0 =? 237 then (128 <=? b1) && (b1 <? 160)
                 else utf8_cont b1) && utf8_cont b2 && utf8_valid r2
              else
                match r2 with
                | [] => false
                | b3 :: r3 =>
                    if (240 <=? b0) && (b0 <=? 244) then
                      (if b0 =? 240 then (144 <=? b1) && (b1 <? 192)
                       else if b0 =? 244 then (128 <=? b1) && (b1 <? 144)
                       else utf8_cont b1) && utf8_cont b2 && utf8_cont b3
                      && utf8_valid r3
                    else false
                end
          end
      end
  end.

(** Reading a file opened with [encoding="utf-8-sig"]: the codec drops one
    leading BOM; text is kept as its UTF-8 bytes. *)
Definition utf8_sig_decode (raw : bytes) : res bytes :=
  if utf8_valid raw then
    Ok (if bytes_eqb (firstn 3 raw) UTF8_BOM then skipn 3 raw else raw)
  else Err UnicodeDecodeError.

(** The BOM test of [MrxsFile.__init__]:
    [self._have_bom = (fh.read(len(UTF8_BOM)) == UTF8_BOM)], one character
    read from the decoded text. *)
Definition slidedat_have_bom (raw : bytes) : res bool :=
  text <- utf8_sig_decode raw ;;
  Ok (bytes_eqb (firstn 3 text) UTF8_BOM).

(** A RawConfigParser's content: the DEFAULT items and the sections, in
    order, with their items (text as UTF-8 bytes). *)
Record Ini := {
  ini_defaults : list (bytes * bytes);
  ini_sections : list (bytes * list (bytes * bytes))
}.

(** [str(value).replace('\n', '\n\t')] *)
Definition continue_lines (v : bytes) : bytes :=
  flat_map (fun b => if b =? 10 then [10; 9] else [b]) v.

(** RawConfigParser._write_section with the delimiter [' = ']. *)
Definition write_section (name : bytes) (items : list (bytes * bytes)) : bytes :=
  bstr "[" ++ name ++ bstr "]" ++ [10]
  ++ flat_map (fun kv => fst kv ++ bstr " = " ++ continue_lines (snd kv) ++ [10])
       items
  ++ [10].

(** RawConfigParser.write *)
Definition ini_write (d : Ini) : bytes :=
  (match ini_defaults d with
   | [] => []
   | ds => write_section (bstr "DEFAULT") ds
   end)
  ++ flat_map (fun s => write_section (fst s) (snd s)) (ini_sections d).

(** [s.replace('\n', '\r\n')] *)
Definition lf_to_crlf (bs : bytes) : bytes :=
  flat_map (fun b => if b =? 10 then [13; 10] else [b]) bs.

(** MrxsFile._write: the new contents of [Slidedat.ini]. *)
Definition slidedat_write (have_bom : bool) (d : Ini) : bytes :=
  (if have_bom then UTF8_BOM else []) ++ lf_to_crlf (ini_write d).

(** ** Byte-string helpers of the handlers *)

(** [s.startswith(p)] *)
Definition startswith (s p : bytes) : bool := bytes_eqb (firstn (length p) s) p.

(** [p in s] for a non-empty [p]. *)
Fixpoint contains (s p : bytes) : bool :=
  startswith s p || match s with [] => false | _ :: r => contains r p end.

(** [bytes.splitlines()]: lines end at LF, CR or CR LF. *)
Fixpoint splitlines_aux (bs cur : bytes) : list bytes :=
  match bs with
  | [] => match cur with [] => [] | _ => [rev cur] end
  | b :: r =>
      if b =? 10 then rev cur :: splitlines_aux r []
      else if b =? 13 then
        match r with
        | b' :: r' =>
            if b' =? 10 then rev cur :: splitlines_aux r' []
            else rev cur :: splitlines_aux r []
        | [] => [rev cur]
        end
      else splitlines_aux r (b :: cur)
  end.

Definition splitlines (bs : bytes) : list bytes := splitlines_aux bs [].

Fixpoint split_aux (fuel : nat) (sep s cur : bytes) : list bytes :=
  match fuel with
  | O => [rev cur ++ s]
  | S n =>
      match s with
      | [] => [rev cur]
      | b :: r =>
          if startswith s sep
          then rev cur :: split_aux n sep (skipn (length sep) s) []
          else split_aux n sep r (b :: cur)
      end
  end.

(** [s.split(sep)] for a non-empty [sep]. *)
Definition py_split (sep s : bytes) : list bytes := split_aux (S (length s)) sep s [].

(** [sep.join(parts)] *)
Fixpoint py_join (sep : bytes) (parts : list bytes) : bytes :=
  match parts with
  | [] => []
  | [p] => p
  | p :: r => p ++ sep ++ py_join sep r
  end.

Fixpoint map_res {A B} (g : A -> res B) (l : list A) : res (list B) :=
  match l with
  | [] => Ok []
  | x :: r => y <- g x ;; ys <- map_res g r ;; Ok (y :: ys)
  end.

(** ** The handlers' directory walks *)

(** [for directory in fh.directories: if probe(directory): ... break]:
    the first directory the probe accepts; an exception of the probe ends
    the walk. *)
Fixpoint find_dir (probe : TiffDirectory -> res bool) (ds : list TiffDirectory)
    : res (option TiffDirectory) :=
  match ds with
  | [] => Ok None
  | d :: r => b <- probe d ;; if b then Ok (Some d) else find_dir probe r
  end.

(** [directory.entries[IMAGE_DESCRIPTION].value()] *)
Definition image_description (f : bytes) (dl : dialect) (d : TiffDirectory)
    : res pyvalue :=
  e <- dict_index (entries d) IMAGE_DESCRIPTION ;; value f dl e.

(** [lines = ...value().splitlines(); len(lines) >= 2 and
    lines[1].startswith(marker)]; a tuple has no [splitlines]. *)
Definition second_line_is (marker : bytes) (f : bytes) (dl : dialect)
    (d : TiffDirectory) : res bool :=
  v <- image_description f dl d ;;
  match v with
  | VBytes s =>
      match splitlines s with
      | _ :: l1 :: _ => Ok (startswith l1 marker)
      | _ => Ok false
      end
  | VTuple _ => Err AttributeError
  end.

(** ** do_aperio_svs *)

(** The "Check file" block. *)
Definition svs_check (fuel : nat) (f : bytes) : res unit :=
  tf <- open_tiff fuel f ;;
  match directories tf with
  | [] => Err IndexError
  | d0 :: _ =>
      match image_description f (tf_dialect tf) d0 with
      | Err KeyError => Err UnrecognizedFile
      | Err e => Err e
      | Ok (VBytes desc0) =>
          if startswith desc0 (bstr "Aperio") then Ok tt else Err UnrecognizedFile
      | Ok (VTuple _) => Err AttributeError
      end
  end.

(** The "Strip label" and "Strip macro" blocks: reopen the file, delete the
    first directory whose description's second line starts with [marker],
    otherwise raise [IOError(msg)]. *)
Definition svs_strip (fuel : nat) (f : bytes) (marker : bytes) (msg : string)
    : io unit :=
  match open_tiff fuel f with
  | Err e => (Err e, f)
  | Ok tf =>
      match find_dir (second_line_is marker f (tf_dialect tf)) (directories tf) with
      | Err e => (Err e, f)
      | Ok None => (Err (IOError msg), f)
      | Ok (Some d) => delete f (tf_dialect tf) d []
      end
  end.

Definition LABEL_MSG : string := "No label detected in SVS file".
Definition MACRO_MSG : string := "No macro detected in SVS file".

(** cleanse_filename: [key, val = block.split(" = ")] must give two
    parts. *)
Definition cleanse_filename (filename_block : bytes) : res bytes :=
  match py_split (bstr " = ") filename_block with
  | [key; _] => Ok (py_join (bstr " = ") [key; bstr "X"])
  | _ => Err (ValueError "wrong number of values to unpack")
  end.

(** [.decode()]: a tuple has no [decode]; bytes must be UTF-8. *)
Definition py_decode (v : pyvalue) : res bytes :=
  match v with
  | VBytes b => if utf8_valid b then Ok b else Err UnicodeDecodeError
  | VTuple _ => Err AttributeError
  end.

(** One iteration of the "Remove filename" loop. *)
Definition scrub_filename (f : bytes) (dl : dialect) (d : TiffDirectory)
    : io unit :=
  match (e <- dict_index (entries d) IMAGE_DESCRIPTION ;;
         v <- value f dl e ;;
         img_desc <- py_decode v ;;
         Ok (e, img_desc)) with
  | Err x => (Err x, f)
  | Ok (e, img_desc) =>
      if contains img_desc (bstr "Filename") then
        match map_res (fun bit => if contains bit (bstr "Filename")
                                  then cleanse_filename bit else Ok bit)
                (py_split (bstr "|") img_desc) with
        | Err x => (Err x, f)
        | Ok purified_bits => overwrite_entry f dl e (py_join (bstr "|") purified_bits)
        end
      else (Ok tt, f)
  end.

Fixpoint scrub_filenames (f : bytes) (dl : dialect) (ds : list TiffDirectory)
    : io unit :=
  match ds with
  | [] => (Ok tt, f)
  | d :: r =>
      match scrub_filename f dl d with
      | (Ok _, f') => scrub_filenames f' dl r
      | (Err e, f') => (Err e, f')
      end
  end.

(** The "Strip macro" and "Remove filename" blocks of do_aperio_svs. *)
Definition svs_after_label (fuel : nat) (f1 : bytes) : io unit :=
  match svs_strip fuel f1 (bstr "macro ") MACRO_MSG with
  | (Err e, f2) => (Err e, f2)
  | (Ok _, f2) =>
      match open_tiff fuel f2 with
      | Err e => (Err e, f2)
      | Ok tf => scrub_filenames f2 (tf_dialect tf) (directories tf)
      end
  end.

(** do_aperio_svs (the four [with TiffFile(filename)] blocks in turn). *)
Definition do_aperio_svs (fuel : nat) (f : bytes) : io unit :=
  match svs_check fuel f with
  | Err e => (Err e, f)
  | Ok _ =>
      match svs_strip fuel f (bstr "label ") LABEL_MSG with
      | (Err e, f1) => (Err e, f1)
      | (Ok _, f1) => svs_after_label fuel f1
      end
  end.

(** ** do_hamamatsu_ndpi *)

(** [value()[0] == -1]; a float equals -1 only when it is -1.0. *)
Definition is_minus_one (i : item) : bool :=
  match i with
  | IInt x => x =? -1
  | IFloat32 bits => bits =? 3212836864          (* 0xBF800000 *)
  | IFloat64 bits => bits =? 13830554455654793216 (* 0xBFF0000000000000 *)
  | IChar _ => false
  end.

(** [directory.entries[NDPI_SOURCELENS].value()[0] == -1] *)
Definition sourcelens_is_minus_one (f : bytes) (dl : dialect) (d : TiffDirectory)
    : res bool :=
  e <- dict_index (entries d) NDPI_SOURCELENS ;;
  v <- value f dl e ;;
  match iter_value v with
  | [] => Err IndexError
  | x :: _ => Ok (is_minus_one x)
  end.

(** do_hamamatsu_ndpi *)
Definition do_hamamatsu_ndpi (fuel : nat) (f : bytes) : io unit :=
  match open_tiff fuel f with
  | Err e => (Err e, f)
  | Ok tf =>
      match directories tf with
      | [] => (Err IndexError, f)
      | d0 :: _ =>
          if negb (has_tag NDPI_MAGIC d0) then (Err UnrecognizedFile, f) else
          match find_dir (sourcelens_is_minus_one f (tf_dialect tf))
                  (directories tf) with
          | Err e => (Err e, f)
          | Ok None => (Err (IOError "No label in NDPI file"), f)
          | Ok (Some d) => delete f (tf_dialect tf) d JPEG_SOI
          end
      end
  end.

(** ** The bytes [TiffFile.__init__] reads *)

(** The dialect after the [ndirs]-th directory [d] (the NDPI check of the
    directory loop). *)
Definition next_dialect (dl : dialect) (ndirs : nat) (d : TiffDirectory) : dialect :=
  if Nat.eqb ndirs 0 && negb (dl_big dl) && has_tag NDPI_MAGIC d then set_ndpi dl
  else dl.

(** The byte ranges (start, length) that the directory loop reads when it
    returns the directories [ds]: each next-directory pointer and each
    directory's count and entries. *)
Fixpoint chain_ranges (dl : dialect) (ndirs : nat) (in_ptr : Z)
    (ds : list TiffDirectory) : list (Z * Z) :=
  match ds with
  | [] => [(in_ptr, d_size dl)]
  | d :: r =>
      (in_ptr, d_size dl)
      :: (directory_offset d, out_pointer_offset d - directory_offset d)
      :: chain_ranges (next_dialect dl ndirs d) (S ndirs) (out_pointer_offset d) r
  end.

(** All the ranges read when opening a file whose header gave [h]. *)
Definition tiff_ranges (h : dialect * Z) (ds : list TiffDirectory) : list (Z * Z) :=
  (0, snd h) :: chain_ranges (fst h) 0 (snd h) ds.

Definition in_range (r : Z * Z) (i : Z) : Prop := fst r <= i < fst r + snd r.

Definition ranges_disjoint (r s : Z * Z) : Prop :=
  fst r + snd r <= fst s \/ fst s + snd s <= fst r.

(** The (offset, length) ranges zeroed by the "Wipe strips" loop of
    [delete], offsets resolved with [near_pointer]. *)
Fixpoint strip_spans (dl : dialect) (base : Z) (pairs : list (item * item))
    : list (Z * Z) :=
  match pairs with
  | [] => []
  | (IInt o, IInt l) :: rest => (near_pointer dl base o, l) :: strip_spans dl base rest
  | _ :: rest => strip_spans dl base rest
  end.

(** What identifies a directory independently of its position in the
    chain: where it is, where its next pointer is, and its entries. *)
Definition dir_shape (d : TiffDirectory) : Z * Z * list (Z * TiffEntry) :=
  (directory_offset d, out_pointer_offset d, entries d).

(** ** The older variant, [anonymize-slide.py] *)

Definition LZW_CLEARCODE : bytes := [128].

(** TiffEntry.value of the older variant: its type table has no BYTE. *)
Definition format_type_old (ty : Z) : res item_fmt :=
  if ty =? ASCII then Ok Fc
  else if ty =? SHORT then Ok FH
  else if ty =? LONG then Ok FI
  else if ty =? LONG8 then Ok FQ
  else if ty =? FLOAT then Ok Ff
  else if ty =? DOUBLE then Ok Fd
  else Err (ValueError "Unsupported type").

Definition value_old (f : bytes) (dl : dialect) (e : TiffEntry) : res pyvalue :=
  it <- format_type_old (type e) ;;
  let len := count e * item_size it in
  let raw := read_at f (payload_pos dl e len) len in
  if negb (Z.of_nat (length raw) =? len) then Err StructError else
  let items := unpack_items (dl_le dl) it (Z.to_nat (count e)) raw in
  if type e =? ASCII then
    match rev items with
    | [] => Err IndexError
    | last :: _ =>
        if char_of last =? 0
        then Ok (VBytes (map char_of (removelast items)))
        else Err (ValueError "String not null-terminated")
    end
  else Ok (VTuple items).

Definition image_description_old (f : bytes) (dl : dialect) (d : TiffDirectory)
    : res pyvalue :=
  e <- dict_index (entries d) IMAGE_DESCRIPTION ;; value_old f dl e.

(** The "Check for SVS file" block of the older do_aperio_svs. *)
Definition svs_check_old (fuel : nat) (f : bytes) : res TiffFile :=
  tf <- open_tiff fuel f ;;
  match directories tf with
  | [] => Err IndexError
  | d0 :: _ =>
      match image_description_old f (tf_dialect tf) d0 with
      | Err KeyError => Err UnrecognizedFile
      | Err e => Err e
      | Ok (VBytes desc0) =>
          if startswith desc0 (bstr "Aperio") then Ok tf else Err UnrecognizedFile
      | Ok (VTuple _) => Err AttributeError
      end
  end.

(** [bytes(x, 'utf-8')]: Python 3 accepts an encoding only together with a
    str; for a bytes object [x] it raises TypeError ("encoding without a
    string argument"). *)
Definition bytes_with_encoding (x : bytes) : res bytes := Err TypeError.

(** The "Find and delete label" loop of the older do_aperio_svs; the
    [break] follows every directory with two or more description lines. *)
Fixpoint svs_label_walk_old (f : bytes) (dl : dialect) (ds : list TiffDirectory)
    : io unit :=
  match ds with
  | [] => (Err (IOError "No label in SVS file"), f)
  | d :: r =>
      match image_description_old f dl d with
      | Err e => (Err e, f)
      | Ok (VTuple _) => (Err AttributeError, f)
      | Ok (VBytes s) =>
          match splitlines s with
          | _ :: l1 :: _ =>
              match bytes_with_encoding l1 with
              | Err e => (Err e, f)
              | Ok line1_bytes =>
                  if startswith line1_bytes (bstr "label ")
                  then delete f dl d LZW_CLEARCODE
                  else (Ok tt, f)
              end
          | _ => svs_label_walk_old f dl r
          end
      end
  end.

(** do_aperio_svs of the older variant (one [with TiffFile(filename)]). *)
Definition do_aperio_svs_old (fuel : nat) (f : bytes) : io unit :=
  match svs_check_old fuel f with
  | Err e => (Err e, f)
  | Ok tf => svs_label_walk_old f (tf_dialect tf) (directories tf)
  end.

(** ** MRXS: the keys of a nonhier level in [Slidedat.ini] *)

(** ['%d' % n] for a non-negative [n]: its decimal digits, most significant
    first; [fuel] bounds the number of digits. *)
Fixpoint format_d_aux (fuel : nat) (n : nat) (acc : bytes) : bytes :=
  match fuel with
  | O => acc
  | S k =>
      let acc' := (48 + Z.of_nat (n mod 10)) :: acc in
      if (n <? 10)%nat then acc' else format_d_aux k (n / 10) acc'
  end.

Definition format_d (n : nat) : bytes := format_d_aux (S n) n [].

Definition MRXS_HIERARCHICAL : bytes := bstr "HIERARCHICAL".

(** MrxsNonHierLevel.key_prefix *)
Definition level_key_prefix (layer_id level_id : nat) : bytes :=
  bstr "NONHIER_" ++ format_d layer_id ++ bstr "_VAL_" ++ format_d level_id.

Fixpoint assoc_get {A} (k : bytes) (l : list (bytes * A)) : option A :=
  match l with
  | [] => None
  | (k', v) :: r => if bytes_eqb k' k then Some v else assoc_get k r
  end.

(** [d[k] = v] on a dict keyed by strings: in place when present,
    appended otherwise. *)
Fixpoint assoc_set {A} (k : bytes) (v : A) (l : list (bytes * A)) : list (bytes * A) :=
  match l with
  | [] => [(k, v)]
  | (k', v') :: r => if bytes_eqb k' k then (k, v) :: r else (k', v') :: assoc_set k v r
  end.

(** RawConfigParser.items(section): the DEFAULT items updated with the
    section's own, in dict order; a missing section raises
    NoSectionError. *)
Definition ini_items (d : Ini) (section : bytes) : res (list (bytes * bytes)) :=
  if bytes_eqb section (bstr "DEFAULT") then Ok (ini_defaults d) else
  match assoc_get section (ini_sections d) with
  | None => Err NoSectionError
  | Some opts =>
      Ok (fold_left (fun acc kv => assoc_set (fst kv) (snd kv) acc) opts (ini_defaults d))
  end.

(** MrxsFile._hier_keys_for_level, for the level with [key_prefix]. *)
Definition hier_keys_for_level (dat : Ini) (key_prefix : bytes) : res (list bytes) :=
  items <- ini_items dat MRXS_HIERARCHICAL ;;
  Ok (map fst (filter (fun kv => bytes_eqb (fst kv) key_prefix
                                 || startswith (fst kv) (key_prefix ++ bstr "_"))
                      items)).

(** [s.replace(old, new, 1)] *)
Fixpoint py_replace1 (s old new : bytes) : bytes :=
  if startswith s old then new ++ skipn (length old) s
  else match s with
       | [] => []
       | b :: r => b :: py_replace1 r old new
       end.

(** The digits of a decimal numeral. *)
Definition all_digits (bs : bytes) : Prop := Forall (fun b => 48 <= b <= 57) bs.

(** An item that is a non-negative integer. *)
Definition nonneg_int (x : item) : Prop := exists z, x = IInt z /\ 0 <= z.

(** ** Sample files *)

Definition le16 (v : Z) : bytes := le_bytes 2 v.
Definition le32 (v : Z) : bytes := le_bytes 4 v.

(** A 12-byte classic TIFF entry: tag, type, count, value-or-offset. *)
Definition ent (tg ty cnt vo : Z) : bytes := le16 tg ++ le16 ty ++ le32 cnt ++ le32 vo.

(** Little-endian classic TIFF, one IFD at 8 whose IMAGE_DESCRIPTION is the
    inline ASCII value "a\0". *)
Definition tiff_inline_ascii : bytes :=
  [73; 73] ++ le16 42 ++ le32 8
  ++ le16 1 ++ ent 270 2 2 97 ++ le32 0.

(** An SVS file: IFD 0 at 8 described "Aperio", IFD 1 at 26 described
    "x\nlabel y" with one strip of 4 bytes at 85; no macro. *)
Definition svs_label_only : bytes :=
  [73; 73] ++ le16 42 ++ le32 8
  ++ le16 1 ++ ent 270 2 7 68 ++ le32 26
  ++ le16 3 ++ ent 270 2 10 75 ++ ent 273 4 1 85 ++ ent 279 4 1 4 ++ le32 0
  ++ bstr "Aperio" ++ [0]
  ++ bstr "x" ++ [10] ++ bstr "label y" ++ [0]
  ++ [1; 2; 3; 4].

(** An SVS file whose IFD 1 (at 26) has no IMAGE_DESCRIPTION. *)
Definition svs_undescribed_ifd : bytes :=
  [73; 73] ++ le16 42 ++ le32 8
  ++ le16 1 ++ ent 270 2 7 44 ++ le32 26
  ++ le16 1 ++ ent 256 3 1 1 ++ le32 0
  ++ bstr "Aperio" ++ [0].

(** An SVS file: IFD 0 at 8 described "Aperio", IFD 1 at 26 described
    "x\nlabel y" with one strip of 4 bytes at 103, and IFD 2 at 68 without
    IMAGE_DESCRIPTION. *)
Definition svs_label_then_undescribed : bytes :=
  [73; 73] ++ le16 42 ++ le32 8
  ++ le16 1 ++ ent 270 2 7 86 ++ le32 26
  ++ le16 3 ++ ent 270 2 10 93 ++ ent 273 4 1 103 ++ ent 279 4 1 4 ++ le32 68
  ++ le16 1 ++ ent 256 3 1 1 ++ le32 0
  ++ bstr "Aperio" ++ [0]
  ++ bstr "x" ++ [10] ++ bstr "label y" ++ [0]
  ++ [1; 2; 3; 4].

(** An NDPI file: one IFD with tag 65420 and no tag 65421; its next-IFD
    pointer is read with 8 bytes. *)
Definition ndpi_no_sourcelens : bytes :=
  [73; 73] ++ le16 42 ++ le32 8
  ++ le16 1 ++ ent 65420 4 1 1 ++ le_bytes 8 0.

(** A classic (non-NDPI) TIFF with three IFDs at 8, 38 and 56: IFD 0 has
    one strip of 2 bytes at 74, IFD 1 carries tag 65420. *)
Definition tiff_magic_in_ifd1 : bytes :=
  [73; 73] ++ le16 42 ++ le32 8
  ++ le16 2 ++ ent 273 4 1 74 ++ ent 279 4 1 2 ++ le32 38
  ++ le16 1 ++ ent 65420 4 1 1 ++ le32 56
  ++ le16 1 ++ ent 256 3 1 5 ++ le32 0
  ++ [9; 9].

(** A classic TIFF with three IFDs at 8, 26 and 56; IFD 1 has one strip
    of 2 bytes at 74. *)
Definition tiff_strip_in_ifd1 : bytes :=
  [73; 73] ++ le16 42 ++ le32 8
  ++ le16 1 ++ ent 256 3 1 5 ++ le32 26
  ++ le16 2 ++ ent 273 4 1 74 ++ ent 279 4 1 2 ++ le32 56
  ++ le16 1 ++ ent 257 3 1 5 ++ le32 0
  ++ [9; 9].

(** An MRXS index file: table_base 45 at offset 41, record 0's list head at
    49 points to the page at 57 with position 0, size 4 and file 0. *)
Definition mrxs_index_one : bytes :=
  repeat 0 41 ++ le32 45
  ++ le32 49
  ++ le32 0 ++ le32 57
  ++ le32 1 ++ le32 0 ++ le32 0 ++ le32 0 ++ le32 0 ++ le32 4 ++ le32 0.

(** A Slidedat.ini that starts with the UTF-8 BOM. *)
Definition slidedat_with_bom : bytes :=
  UTF8_BOM ++ bstr "[HIERARCHICAL]" ++ [13; 10]
  ++ bstr "INDEXFILE = Index.dat" ++ [13; 10].

(** A classic TIFF whose first IFD pointer is 0. *)
Definition tiff_no_ifd : bytes := [73; 73] ++ le16 42 ++ le32 0.

(** A classic TIFF whose IFD 0 (at 8) holds an IMAGE_DESCRIPTION of six
    bytes stored out of line at 26: "hello\0". *)
Definition tiff_far_ascii : bytes :=
  [73; 73] ++ le16 42 ++ le32 8
  ++ le16 1 ++ ent 270 2 6 26 ++ le32 0
  ++ bstr "hello" ++ [0].

(** A classic TIFF whose IFD 0 (at 8) has two strips of 2 bytes at 54 and
    56, their offsets stored at 38 and their lengths at 46; the first
    strip starts with the JPEG SOI FF D8, the second does not. *)
Definition tiff_two_strips : bytes :=
  [73; 73] ++ le16 42 ++ le32 8
  ++ le16 2 ++ ent 273 4 2 38 ++ ent 279 4 2 46 ++ le32 0
  ++ le32 54 ++ le32 56 ++ le32 2 ++ le32 2
  ++ [255; 216; 18; 52].

(** An NDPI directory whose SourceLens is the FLOAT -1.0 (stored inline at 18). *)
Definition ndpi_float_sourcelens : bytes :=
  [73; 73] ++ le16 42 ++ le32 8
  ++ le16 1 ++ ent 65421 11 1 3212836864 ++ le32 0.

(** A classic TIFF whose IFD 0 (at 8) has two IMAGE_DESCRIPTION entries,
    "a" then "b", both inline. *)
Definition tiff_duplicate_tag : bytes :=
  [73; 73] ++ le16 42 ++ le32 8
  ++ le16 2 ++ ent 270 2 2 97 ++ ent 270 2 2 98 ++ le32 0.

(** A Slidedat.ini whose HIERARCHICAL section describes nonhier levels
    1 and 10 of layer 0. *)
Definition slidedat_levels : Ini :=
  {| ini_defaults := [];
     ini_sections :=
       [(MRXS_HIERARCHICAL,
         [(bstr "NONHIER_COUNT", bstr "1");
          (bstr "NONHIER_0_COUNT", bstr "11");
          (bstr "NONHIER_0_VAL_1", bstr "ScanDataLayer_SlideBarcode");
          (bstr "NONHIER_0_VAL_1_SECTION", bstr "NONHIER_0_VAL_1");
          (bstr "NONHIER_0_VAL_10", bstr "ScanDataLayer_SlidePreview");
          (bstr "NONHIER_0_VAL_10_SECTION", bstr "NONHIER_0_VAL_10")])] |}.

(** * Properties *)

(** ** near_pointer *)

(** C7: in NDPI mode, for a 32-bit [offset] below [base],
    [near_pointer base offset] is congruent to [offset] modulo 2^32 and lies
    in [base - 2^32, base]. *)
Theorem near_pointer_within_segment (dl : dialect) (base offset : Z)
    (Hndpi : dl_ndpi dl = true) (Hoff : 0 <= offset < 2 ^ 32)
    (Hlt : offset < base) :
  near_pointer dl base offset mod 2 ^ 32 = offset mod 2 ^ 32 /\
  base - 2 ^ 32 <= near_pointer dl base offset <= base.
Proof.
  unfold near_pointer. rewrite Hndpi.
  replace (offset <? base) with true by (symmetry; apply Z.ltb_lt; exact Hlt).
  simpl. change (Z.shiftl 1 32) with (2 ^ 32).
  pose proof (Z.div_mod (base - offset) (2 ^ 32) ltac:(lia)) as Hdm.
  pose proof (Z.mod_pos_bound (base - offset) (2 ^ 32) ltac:(lia)) as Hb.
  split.
  - rewrite Z.add_mod by lia. rewrite Z.mod_mul by lia.
    rewrite Z.add_0_r, Z.mod_mod by lia. reflexivity.
  - change (2 ^ 32) with 4294967296 in *. lia.
Qed.

Lemma near_pointer_within_segment_witness :
  dl_ndpi {| dl_le := true; dl_big := false; dl_ndpi := true |} = true /\
  0 <= 5 < 2 ^ 32 /\ 5 < 8589934599 /\
  (near_pointer {| dl_le := true; dl_big := false; dl_ndpi := true |}
     8589934599 5 mod 2 ^ 32 = 5 mod 2 ^ 32 /\
   8589934599 - 2 ^ 32
     <= near_pointer {| dl_le := true; dl_big := false; dl_ndpi := true |}
          8589934599 5 <= 8589934599).
Proof.
  refine (conj eq_refl (conj (conj _ _) (conj _ _)));
    [vm_compute; discriminate | vm_compute; reflexivity
    | vm_compute; reflexivity |].
  apply near_pointer_within_segment;
    [reflexivity | split; vm_compute; [discriminate | reflexivity]
    | vm_compute; reflexivity].
Defined.

(** C9: outside NDPI mode, or when [offset >= base], [near_pointer] returns
    [offset] unchanged. *)
Theorem near_pointer_verbatim (dl : dialect) (base offset : Z)
    (H : dl_ndpi dl = false \/ base <= offset) :
  near_pointer dl base offset = offset.
Proof.
  unfold near_pointer.
  destruct H as [H | H].
  - rewrite H. reflexivity.
  - replace (offset <? base) with false by (symmetry; apply Z.ltb_ge; lia).
    rewrite andb_false_r. reflexivity.
Qed.

Lemma near_pointer_verbatim_witness :
  (dl_ndpi {| dl_le := true; dl_big := true; dl_ndpi := false |} = false
   \/ 100 <= 7) /\
  near_pointer {| dl_le := true; dl_big := true; dl_ndpi := false |} 100 7 = 7.
Proof.
  split; [left; reflexivity |].
  apply near_pointer_verbatim. left. reflexivity.
Defined.

(** ** Reading and writing file contents *)

Lemma read_at_eq (f : bytes) (pos n : Z) :
  0 <= pos -> 0 <= n ->
  read_at f pos n = firstn (Z.to_nat n) (skipn (Z.to_nat pos) f).
Proof.
  intros Hp Hn. unfold read_at.
  destruct (Z.of_nat (length f) <=? pos) eqn:E.
  - apply Z.leb_le in E. rewrite skipn_all2 by lia. rewrite firstn_nil. reflexivity.
  - apply Z.leb_gt in E.
    replace (n <? 0) with false by (symmetry; apply Z.ltb_ge; lia).
    destruct (Z.le_ge_cases n (Z.of_nat (length f) - pos)).
    + rewrite Z.min_l by lia. reflexivity.
    + rewrite Z.min_r by lia.
      rewrite !firstn_all2; [reflexivity | |]; rewrite length_skipn; lia.
Qed.

Lemma read_at_length (f : bytes) (pos n : Z) :
  0 <= pos -> 0 <= n -> pos + n <= Z.of_nat (length f) ->
  length (read_at f pos n) = Z.to_nat n.
Proof.
  intros Hp Hn Hle. rewrite read_at_eq by lia.
  rewrite length_firstn, length_skipn. lia.
Qed.

Lemma read_at_nth (f : bytes) (pos n : Z) (j : nat) :
  0 <= pos -> 0 <= n -> (j < Z.to_nat n)%nat ->
  nth j (read_at f pos n) 0 = nth (Z.to_nat pos + j) f 0.
Proof.
  intros Hp Hn Hj. rewrite read_at_eq by lia.
  rewrite nth_firstn. replace (j <? Z.to_nat n)%nat with true
    by (symmetry; apply Nat.ltb_lt; exact Hj).
  apply nth_skipn.
Qed.

Lemma write_at_eq (f : bytes) (pos : Z) (bs : bytes) :
  0 <= pos -> pos + Z.of_nat (length bs) <= Z.of_nat (length f) ->
  write_at f pos bs
  = firstn (Z.to_nat pos) f ++ bs ++ skipn (Z.to_nat pos + length bs) f.
Proof.
  intros Hp Hle. unfold write_at. destruct bs as [| b bs'].
  - simpl. rewrite Nat.add_0_r. symmetry. apply firstn_skipn.
  - replace (Z.to_nat pos - length f)%nat with 0%nat by lia.
    simpl repeat. rewrite app_nil_r. reflexivity.
Qed.

Lemma write_at_length (f : bytes) (pos : Z) (bs : bytes) :
  0 <= pos -> pos + Z.of_nat (length bs) <= Z.of_nat (length f) ->
  length (write_at f pos bs) = length f.
Proof.
  intros Hp Hle. rewrite write_at_eq by lia.
  rewrite !length_app, length_firstn, length_skipn. lia.
Qed.

Lemma write_at_nth (f : bytes) (pos : Z) (bs : bytes) (i : nat) :
  0 <= pos -> pos + Z.of_nat (length bs) <= Z.of_nat (length f) ->
  nth i (write_at f pos bs) 0 =
  if (Z.to_nat pos <=? i)%nat && (i <? Z.to_nat pos + length bs)%nat
  then nth (i - Z.to_nat pos) bs 0 else nth i f 0.
Proof.
  intros Hp Hle. rewrite write_at_eq by lia.
  assert (Hfl : length (firstn (Z.to_nat pos) f) = Z.to_nat pos)
    by (rewrite length_firstn; lia).
  destruct (Nat.lt_ge_cases i (Z.to_nat pos)) as [Hi | Hi].
  - rewrite app_nth1 by lia. rewrite nth_firstn.
    replace (i <? Z.to_nat pos)%nat with true by (symmetry; apply Nat.ltb_lt; lia).
    replace (Z.to_nat pos <=? i)%nat with false by (symmetry; apply Nat.leb_gt; lia).
    reflexivity.
  - rewrite app_nth2 by lia. rewrite Hfl.
    replace (Z.to_nat pos <=? i)%nat with true by (symmetry; apply Nat.leb_le; lia).
    destruct (Nat.lt_ge_cases i (Z.to_nat pos + length bs)) as [Hj | Hj].
    + rewrite app_nth1 by lia.
      replace (i <? Z.to_nat pos + length bs)%nat with true
        by (symmetry; apply Nat.ltb_lt; lia).
      reflexivity.
    + rewrite app_nth2 by lia. rewrite nth_skipn.
      replace (i <? Z.to_nat pos + length bs)%nat with false
        by (symmetry; apply Nat.ltb_ge; lia).
      simpl. f_equal. lia.
Qed.

(** ** MrxsFile._delete_index_record *)

(** C3: removing record [r] of [n] levels copies the [(n - r - 1) * 4]
    bytes at [table_base + (r+1)*4] to [table_base + r*4]; with [r = n - 1]
    nothing is touched; the index file keeps its length, so the last slot
    (now stale) and every byte outside the moved region are unchanged. *)
Theorem delete_index_record_shifts_tail (index : bytes) (nlevels record table_base : Z)
    (Hr : 0 <= record < nlevels)
    (Htb : read_int32 index MRXS_NONHIER_ROOT_OFFSET = Ok table_base) :
  (record = nlevels - 1 -> delete_index_record index nlevels record = (Ok tt, index)) /\
  (record < nlevels - 1 -> 0 <= table_base + record * 4 ->
   table_base + nlevels * 4 <= Z.of_nat (length index) ->
   exists g, delete_index_record index nlevels record = (Ok tt, g) /\
     length g = length index /\
     forall i, 0 <= i ->
       byte_at g i =
       if (table_base + record * 4 <=? i) && (i <? table_base + (nlevels - 1) * 4)
       then byte_at index (i + 4) else byte_at index i).
Proof.
  split.
  - intros ->. unfold delete_index_record.
    replace (nlevels - (nlevels - 1) - 1 =? 0) with true
      by (symmetry; apply Z.eqb_eq; lia).
    reflexivity.
  - intros Hlt Hq Hend. unfold delete_index_record.
    replace (nlevels - record - 1 =? 0) with false
      by (symmetry; apply Z.eqb_neq; lia).
    rewrite Htb. unfold py_seek.
    replace (table_base + (record + 1) * 4 <? 0) with false
      by (symmetry; apply Z.ltb_ge; lia).
    set (buf := read_at index (table_base + (record + 1) * 4)
                  ((nlevels - record - 1) * 4)).
    assert (Hbl : length buf = Z.to_nat ((nlevels - record - 1) * 4))
      by (apply read_at_length; lia).
    replace (Z.of_nat (length buf) =? (nlevels - record - 1) * 4) with true
      by (symmetry; apply Z.eqb_eq; lia).
    replace (table_base + record * 4 <? 0) with false
      by (symmetry; apply Z.ltb_ge; lia).
    simpl. eexists. split; [reflexivity |].
    split; [apply write_at_length; lia |].
    intros i Hi. unfold byte_at.
    rewrite write_at_nth by lia. rewrite Hbl.
    destruct (Z.to_nat (table_base + record * 4) <=? Z.to_nat i)%nat eqn:E1;
    destruct (Z.to_nat i <? Z.to_nat (table_base + record * 4)
                + Z.to_nat ((nlevels - record - 1) * 4))%nat eqn:E2;
    destruct (table_base + record * 4 <=? i) eqn:E3;
    destruct (i <? table_base + (nlevels - 1) * 4) eqn:E4;
    rewrite ?Nat.leb_le, ?Nat.leb_gt, ?Nat.ltb_lt, ?Nat.ltb_ge,
      ?Z.leb_le, ?Z.leb_gt, ?Z.ltb_lt, ?Z.ltb_ge in *; simpl;
    try lia.
    unfold buf. rewrite read_at_nth by lia. f_equal. lia.
Qed.

Lemma delete_index_record_shifts_tail_witness :
  0 <= 0 < 2 /\ read_int32 mrxs_index_one MRXS_NONHIER_ROOT_OFFSET = Ok 45 /\
  ((0 = 2 - 1 -> delete_index_record mrxs_index_one 2 0 = (Ok tt, mrxs_index_one)) /\
   (0 < 2 - 1 -> 0 <= 45 + 0 * 4 ->
    45 + 2 * 4 <= Z.of_nat (length mrxs_index_one) ->
    exists g, delete_index_record mrxs_index_one 2 0 = (Ok tt, g) /\
      length g = length mrxs_index_one /\
      forall i, 0 <= i ->
        byte_at g i =
        if (45 + 0 * 4 <=? i) && (i <? 45 + (2 - 1) * 4)
        then byte_at mrxs_index_one (i + 4) else byte_at mrxs_index_one i)).
Proof.
  split; [lia |]. split; [vm_compute; reflexivity |].
  apply delete_index_record_shifts_tail; [lia | vm_compute; reflexivity].
Defined.

(** ** MrxsFile._zero_record *)

Lemma bytes_eqb_eq (a b : bytes) : bytes_eqb a b = true <-> a = b.
Proof.
  revert b. induction a as [| x a IH]; intros [| y b]; simpl;
    split; intro H; try discriminate; try reflexivity.
  - apply andb_prop in H as [H1 H2]. apply Z.eqb_eq in H1.
    apply IH in H2. subst. reflexivity.
  - injection H as -> ->. rewrite Z.eqb_refl. simpl. apply IH. reflexivity.
Qed.

Lemma list_set_nth_same {A} (l : list A) (n : nat) (d : A) :
  list_set l n (nth n l d) = l.
Proof.
  revert n. induction l as [| x r IH]; intros [| n]; simpl; try reflexivity.
  rewrite IH. reflexivity.
Qed.

(** C2 (as the code does it): [_zero_record] first checks that the two
    bytes at [position] are the JPEG SOI and otherwise fails with
    "Unexpected data in nonhier image" leaving every file as it was; when
    they are, and the data file ends at [position + size], the data file is
    truncated to [position]. *)
Theorem zero_record_checks_soi_then_truncates (m : MrxsFiles)
    (record i position size : Z)
    (Hloc : get_data_location (index_file m) (Z.of_nat (length (datafiles m)))
              record = Ok (i, position, size))
    (Hpos : 0 <= position) :
  let data := nth (Z.to_nat i) (datafiles m) [] in
  (read_at data position 2 <> JPEG_SOI ->
   zero_record m record = (Err (IOError "Unexpected data in nonhier image"), m)) /\
  (read_at data position 2 = JPEG_SOI ->
   Z.of_nat (length data) = position + size ->
   zero_record m record =
     (Ok tt, {| index_file := index_file m;
                datafiles := list_set (datafiles m) (Z.to_nat i)
                               (firstn (Z.to_nat position) data) |}) /\
   length (firstn (Z.to_nat position) data) = Z.to_nat position).
Proof.
  intros data. unfold zero_record. rewrite Hloc.
  unfold zero_record_data. fold data.
  replace (position <? 0) with false by (symmetry; apply Z.ltb_ge; lia).
  simpl (Z.of_nat (List.length JPEG_SOI)).
  split.
  - intros Hne.
    destruct (bytes_eqb (read_at data position 2) JPEG_SOI) eqn:E.
    + exfalso. apply Hne. apply bytes_eqb_eq. exact E.
    + simpl. unfold data. rewrite list_set_nth_same. destruct m; reflexivity.
  - intros Heq Hlen. rewrite Heq. simpl.
    replace (Z.of_nat (length data) =? position + size) with true
      by (symmetry; apply Z.eqb_eq; exact Hlen).
    split; [reflexivity |].
    assert (Hsoi : length (read_at data position 2) = 2%nat) by (rewrite Heq; reflexivity).
    rewrite length_firstn.
    unfold read_at in Hsoi.
    destruct (Z.of_nat (length data) <=? position) eqn:E; [discriminate |].
    apply Z.leb_gt in E. lia.
Qed.

Lemma zero_record_checks_soi_then_truncates_witness :
  get_data_location mrxs_index_one 1 0 = Ok (0, 0, 4) /\ 0 <= 0 /\
  (let data := nth (Z.to_nat 0) [JPEG_SOI ++ [7; 7]] [] in
   (read_at data 0 2 <> JPEG_SOI ->
    zero_record {| index_file := mrxs_index_one; datafiles := [JPEG_SOI ++ [7; 7]] |} 0
    = (Err (IOError "Unexpected data in nonhier image"),
       {| index_file := mrxs_index_one; datafiles := [JPEG_SOI ++ [7; 7]] |})) /\
   (read_at data 0 2 = JPEG_SOI ->
    Z.of_nat (length data) = 0 + 4 ->
    zero_record {| index_file := mrxs_index_one; datafiles := [JPEG_SOI ++ [7; 7]] |} 0
    = (Ok tt, {| index_file := mrxs_index_one;
                 datafiles := list_set [JPEG_SOI ++ [7; 7]] (Z.to_nat 0)
                                (firstn (Z.to_nat 0) data) |}) /\
    length (firstn (Z.to_nat 0) data) = Z.to_nat 0)).
Proof.
  split; [vm_compute; reflexivity |]. split; [lia |].
  apply (zero_record_checks_soi_then_truncates
           {| index_file := mrxs_index_one; datafiles := [JPEG_SOI ++ [7; 7]] |}
           0 0 0 4); [vm_compute; reflexivity | lia].
Defined.

(** C2 fails as stated: a record that ends its data file but does not start
    with FF D8 is not truncated; [_zero_record] raises and leaves the file
    as it was. *)
Lemma zero_record_tail_without_soi_not_truncated :
  get_data_location mrxs_index_one 1 0 = Ok (0, 0, 4) /\
  Z.of_nat (length [0; 0; 0; 0]) = 0 + 4 /\
  zero_record {| index_file := mrxs_index_one; datafiles := [[0; 0; 0; 0]] |} 0
  = (Err (IOError "Unexpected data in nonhier image"),
     {| index_file := mrxs_index_one; datafiles := [[0; 0; 0; 0]] |}).
Proof. vm_compute. repeat split. Qed.

(** ** Slidedat.ini byte-order mark *)

Lemma ini_write_starts_with_bracket (d : Ini) :
  ini_defaults d <> [] \/ ini_sections d <> [] ->
  exists r, ini_write d = 91 :: r.
Proof.
  intros H. unfold ini_write.
  destruct (ini_defaults d) as [| kv ds] eqn:Ed.
  - destruct H as [H | H]; [congruence |].
    destruct (ini_sections d) as [| s ss]; [congruence |].
    simpl. eexists. reflexivity.
  - simpl. eexists. reflexivity.
Qed.

(** C6 fails: a Slidedat.ini that starts with one UTF-8 BOM is read with
    [_have_bom = False] (the utf-8-sig codec has already removed the BOM
    before [fh.read(1)] looks for it), and the file [_write] produces then
    starts with '[' instead of the BOM. *)
Theorem slidedat_bom_dropped (rest : bytes)
    (Hvalid : utf8_valid (UTF8_BOM ++ rest) = true)
    (Hone : startswith rest UTF8_BOM = false) :
  slidedat_have_bom (UTF8_BOM ++ rest) = Ok false /\
  forall d : Ini, ini_defaults d <> [] \/ ini_sections d <> [] ->
    startswith (slidedat_write false d) UTF8_BOM = false.
Proof.
  split.
  - unfold slidedat_have_bom, utf8_sig_decode. rewrite Hvalid.
    change (bytes_eqb (firstn 3 (UTF8_BOM ++ rest)) UTF8_BOM) with true.
    change (skipn 3 (UTF8_BOM ++ rest)) with rest. simpl.
    unfold startswith in Hone. simpl in Hone |- *. rewrite Hone. reflexivity.
  - intros d Hd. destruct (ini_write_starts_with_bracket d Hd) as [r Hr].
    unfold slidedat_write. rewrite Hr. reflexivity.
Qed.

Lemma slidedat_bom_dropped_witness :
  utf8_valid slidedat_with_bom = true /\
  startswith (skipn 3 slidedat_with_bom) UTF8_BOM = false /\
  (slidedat_have_bom (UTF8_BOM ++ skipn 3 slidedat_with_bom) = Ok false /\
   forall d : Ini, ini_defaults d <> [] \/ ini_sections d <> [] ->
     startswith (slidedat_write false d) UTF8_BOM = false).
Proof.
  split; [vm_compute; reflexivity |]. split; [vm_compute; reflexivity |].
  apply slidedat_bom_dropped; vm_compute; reflexivity.
Defined.

(** ** TiffEntry.overwrite_entry *)

(** C4 fails on an inline value: [overwrite_entry] seeks to
    [value_offset] even when the value is stored inside the entry, so for
    the inline ASCII value "a\0" (whose raw field reads as 97) it writes
    "b\0" at offset 97, past the end of the 26-byte file, which grows to 99
    bytes, and [value()] still returns "a". *)
Theorem overwrite_entry_inline_written_elsewhere :
  let dl := {| dl_le := true; dl_big := false; dl_ndpi := false |} in
  let e := {| start := 10; tag := 270; type := ASCII; count := 2;
              value_offset := 97 |} in
  open_tiff 10 tiff_inline_ascii
  = Ok {| tf_dialect := dl;
          directories := [{| entries := [(270, e)]; in_pointer_offset := 4;
                             out_pointer_offset := 22; number := 0;
                             directory_offset := 8 |}] |} /\
  length tiff_inline_ascii = 26%nat /\
  value tiff_inline_ascii dl e = Ok (VBytes [97]) /\
  fst (overwrite_entry tiff_inline_ascii dl e [98]) = Ok tt /\
  length (snd (overwrite_entry tiff_inline_ascii dl e [98])) = 99%nat /\
  value (snd (overwrite_entry tiff_inline_ascii dl e [98])) dl e = Ok (VBytes [97]).
Proof. vm_compute. repeat split. Qed.

(** ** The handlers' walks *)

Lemma find_dir_app_reject (probe : TiffDirectory -> res bool)
    (pre rest : list TiffDirectory) :
  Forall (fun d => probe d = Ok false) pre ->
  find_dir probe (pre ++ rest) = find_dir probe rest.
Proof.
  induction 1 as [| d pre Hd _ IH]; simpl; [reflexivity |].
  rewrite Hd. simpl. exact IH.
Qed.

Lemma find_dir_none (probe : TiffDirectory -> res bool) (ds : list TiffDirectory) :
  Forall (fun d => probe d = Ok false) ds -> find_dir probe ds = Ok None.
Proof.
  intros H. rewrite <- (app_nil_r ds). rewrite find_dir_app_reject by exact H.
  reflexivity.
Qed.

Lemma image_description_missing (f : bytes) (dl : dialect) (d : TiffDirectory) :
  has_tag IMAGE_DESCRIPTION d = false -> image_description f dl d = Err KeyError.
Proof.
  unfold has_tag, image_description, dict_index.
  destruct (dict_get IMAGE_DESCRIPTION (entries d)); [discriminate | reflexivity].
Qed.

(** The label walk of do_aperio_svs meets a directory without
    IMAGE_DESCRIPTION before any label: KeyError, file unchanged. *)
Lemma svs_label_walk_missing_description (fuel : nat) (f : bytes) (tf : TiffFile)
    (pre post : list TiffDirectory) (d : TiffDirectory) :
  svs_check fuel f = Ok tt ->
  open_tiff fuel f = Ok tf ->
  directories tf = pre ++ d :: post ->
  Forall (fun p => second_line_is (bstr "label ") f (tf_dialect tf) p = Ok false) pre ->
  has_tag IMAGE_DESCRIPTION d = false ->
  do_aperio_svs fuel f = (Err KeyError, f).
Proof.
  intros Hc Ho Hds Hpre Hd. unfold do_aperio_svs. rewrite Hc.
  unfold svs_strip. rewrite Ho, Hds, find_dir_app_reject by exact Hpre.
  simpl. unfold second_line_is at 1.
  rewrite image_description_missing by exact Hd. reflexivity.
Qed.

(** C5 (as the code does it): after detection the label walk deletes the
    first directory whose description's second line starts with "label ";
    when every directory's description is read and none is a label, the
    handler raises IOError "No label detected in SVS file" and leaves the
    file unchanged; a directory without IMAGE_DESCRIPTION reached before
    any label makes it fail with KeyError. *)
Theorem svs_label_walk (fuel : nat) (f : bytes) (tf : TiffFile)
    (Hc : svs_check fuel f = Ok tt)
    (Ho : open_tiff fuel f = Ok tf) :
  (Forall (fun d => second_line_is (bstr "label ") f (tf_dialect tf) d = Ok false)
     (directories tf) ->
   do_aperio_svs fuel f = (Err (IOError LABEL_MSG), f)) /\
  (forall pre d post,
     directories tf = pre ++ d :: post ->
     Forall (fun p => second_line_is (bstr "label ") f (tf_dialect tf) p = Ok false) pre ->
     (second_line_is (bstr "label ") f (tf_dialect tf) d = Ok true ->
      do_aperio_svs fuel f =
        match delete f (tf_dialect tf) d [] with
        | (Err e, f1) => (Err e, f1)
        | (Ok _, f1) => svs_after_label fuel f1
        end) /\
     (has_tag IMAGE_DESCRIPTION d = false ->
      do_aperio_svs fuel f = (Err KeyError, f))).
Proof.
  split.
  - intros Hall. unfold do_aperio_svs. rewrite Hc.
    unfold svs_strip. rewrite Ho, find_dir_none by exact Hall. reflexivity.
  - intros pre d post Hds Hpre. split.
    + intros Hd. unfold do_aperio_svs. rewrite Hc.
      unfold svs_strip. rewrite Ho, Hds, find_dir_app_reject by exact Hpre.
      simpl. rewrite Hd. simpl. reflexivity.
    + apply (svs_label_walk_missing_description fuel f tf pre post d Hc Ho Hds Hpre).
Qed.

Lemma svs_label_walk_witness :
  svs_check 10 svs_label_only = Ok tt /\
  match open_tiff 10 svs_label_only with
  | Err _ => False
  | Ok tf =>
    (Forall (fun d => second_line_is (bstr "label ") svs_label_only (tf_dialect tf) d
                      = Ok false) (directories tf) ->
     do_aperio_svs 10 svs_label_only = (Err (IOError LABEL_MSG), svs_label_only)) /\
    (forall pre d post,
       directories tf = pre ++ d :: post ->
       Forall (fun p => second_line_is (bstr "label ") svs_label_only (tf_dialect tf) p
                        = Ok false) pre ->
       (second_line_is (bstr "label ") svs_label_only (tf_dialect tf) d = Ok true ->
        do_aperio_svs 10 svs_label_only =
          match delete svs_label_only (tf_dialect tf) d [] with
          | (Err e, f1) => (Err e, f1)
          | (Ok _, f1) => svs_after_label 10 f1
          end) /\
       (has_tag IMAGE_DESCRIPTION d = false ->
        do_aperio_svs 10 svs_label_only = (Err KeyError, svs_label_only)))
  end.
Proof.
  assert (Hc : svs_check 10 svs_label_only = Ok tt) by (vm_compute; reflexivity).
  split; [exact Hc |].
  destruct (open_tiff 10 svs_label_only) as [tf |] eqn:Ho.
  - exact (svs_label_walk 10 svs_label_only tf Hc Ho).
  - vm_compute in Ho. discriminate.
Defined.

(** C5 fails as stated: in this SVS file no directory has a description
    whose second line starts with "label " (IFD 1 has none at all), yet the
    handler raises KeyError, not the "no label" IOError. *)
Lemma svs_no_label_but_keyerror :
  svs_check 10 svs_undescribed_ifd = Ok tt /\
  match open_tiff 10 svs_undescribed_ifd with
  | Err _ => False
  | Ok tf =>
      forallb (fun d =>
                 negb (has_tag IMAGE_DESCRIPTION d)
                 || match second_line_is (bstr "label ") svs_undescribed_ifd
                            (tf_dialect tf) d with
                    | Ok false => true
                    | _ => false
                    end) (directories tf) = true
  end /\
  do_aperio_svs 10 svs_undescribed_ifd = (Err KeyError, svs_undescribed_ifd).
Proof. vm_compute. repeat split. Qed.

Lemma sourcelens_missing (f : bytes) (dl : dialect) (d : TiffDirectory) :
  has_tag NDPI_SOURCELENS d = false -> sourcelens_is_minus_one f dl d = Err KeyError.
Proof.
  unfold has_tag, sourcelens_is_minus_one, dict_index.
  destruct (dict_get NDPI_SOURCELENS (entries d)); [discriminate | reflexivity].
Qed.

(** C10: during the walk, reaching a directory that lacks the probed tag
    (IMAGE_DESCRIPTION for the SVS label walk, NDPI_SOURCELENS for the NDPI
    walk) makes the handler fail with KeyError and leave the file as it
    was. *)
Theorem missing_probed_tag_keyerror :
  (forall fuel f tf pre d post,
     svs_check fuel f = Ok tt ->
     open_tiff fuel f = Ok tf ->
     directories tf = pre ++ d :: post ->
     Forall (fun p => second_line_is (bstr "label ") f (tf_dialect tf) p = Ok false) pre ->
     has_tag IMAGE_DESCRIPTION d = false ->
     do_aperio_svs fuel f = (Err KeyError, f)) /\
  (forall fuel f tf pre d post,
     open_tiff fuel f = Ok tf ->
     has_tag NDPI_MAGIC (nth 0 (directories tf) d) = true ->
     directories tf = pre ++ d :: post ->
     Forall (fun p => sourcelens_is_minus_one f (tf_dialect tf) p = Ok false) pre ->
     has_tag NDPI_SOURCELENS d = false ->
     do_hamamatsu_ndpi fuel f = (Err KeyError, f)).
Proof.
  split.
  - intros fuel f tf pre d post Hc Ho Hds Hpre Hd.
    exact (svs_label_walk_missing_description fuel f tf pre post d Hc Ho Hds Hpre Hd).
  - intros fuel f tf pre d post Ho Hm Hds Hpre Hd.
    unfold do_hamamatsu_ndpi. rewrite Ho. rewrite Hds in Hm |- *.
    assert (Hfd : find_dir (sourcelens_is_minus_one f (tf_dialect tf)) (pre ++ d :: post)
                  = Err KeyError)
      by (rewrite find_dir_app_reject by exact Hpre; simpl;
          rewrite sourcelens_missing by exact Hd; reflexivity).
    destruct (pre ++ d :: post) as [| x l] eqn:E; [destruct pre; discriminate |].
    simpl in Hm. rewrite Hm. try rewrite E in Hfd. rewrite Hfd. reflexivity.
Qed.

Lemma missing_probed_tag_keyerror_witness :
  (svs_check 10 svs_undescribed_ifd = Ok tt /\
   do_aperio_svs 10 svs_undescribed_ifd = (Err KeyError, svs_undescribed_ifd)) /\
  (do_hamamatsu_ndpi 10 ndpi_no_sourcelens = (Err KeyError, ndpi_no_sourcelens)).
Proof.
  destruct missing_probed_tag_keyerror as [Hsvs Hndpi].
  split.
  - assert (Hc : svs_check 10 svs_undescribed_ifd = Ok tt) by (vm_compute; reflexivity).
    split; [exact Hc |].
    destruct (open_tiff 10 svs_undescribed_ifd) as [tf |] eqn:Ho;
      [| vm_compute in Ho; discriminate].
    destruct (directories tf) as [| d0 [| d1 rest]] eqn:Hds;
      try (vm_compute in Ho; injection Ho as <-; discriminate Hds).
    apply (Hsvs 10%nat svs_undescribed_ifd tf [d0] d1 rest Hc Ho Hds).
    + vm_compute in Ho. injection Ho as <-. simpl in Hds. injection Hds as <- <- _.
      constructor; [vm_compute; reflexivity | constructor].
    + vm_compute in Ho. injection Ho as <-. simpl in Hds. injection Hds as _ <- _.
      reflexivity.
  - destruct (open_tiff 10 ndpi_no_sourcelens) as [tf |] eqn:Ho;
      [| vm_compute in Ho; discriminate].
    destruct (directories tf) as [| d0 rest] eqn:Hds;
      [vm_compute in Ho; injection Ho as <-; discriminate Hds |].
    apply (Hndpi 10%nat ndpi_no_sourcelens tf [] d0 rest Ho).
    + rewrite Hds. vm_compute in Ho. injection Ho as <-. simpl in Hds.
      injection Hds as <- _. reflexivity.
    + exact Hds.
    + constructor.
    + vm_compute in Ho. injection Ho as <-. simpl in Hds. injection Hds as <- _.
      reflexivity.
Defined.

(** C8 (as the code does it): after the label has been deleted, the
    handler reopens the file and walks its directories for a macro.  When
    every directory's description is read and none has a second line
    starting with 'macro ', it raises IOError('No macro detected in SVS
    file'); when the walk reaches a directory without IMAGE_DESCRIPTION
    before any macro, it fails with KeyError.  Either way the file keeps
    the label deletion. *)
Theorem svs_missing_macro_raises (fuel : nat) (f f1 : bytes) (tf1 : TiffFile) :
  svs_check fuel f = Ok tt ->
  svs_strip fuel f (bstr "label ") LABEL_MSG = (Ok tt, f1) ->
  open_tiff fuel f1 = Ok tf1 ->
  (Forall (fun d => second_line_is (bstr "macro ") f1 (tf_dialect tf1) d = Ok false)
     (directories tf1) ->
   do_aperio_svs fuel f = (Err (IOError MACRO_MSG), f1)) /\
  (forall pre d post,
     directories tf1 = pre ++ d :: post ->
     Forall (fun p => second_line_is (bstr "macro ") f1 (tf_dialect tf1) p = Ok false) pre ->
     has_tag IMAGE_DESCRIPTION d = false ->
     do_aperio_svs fuel f = (Err KeyError, f1)).
Proof.
  intros Hc Hl Ho. split.
  - intros Hm. unfold do_aperio_svs. rewrite Hc, Hl.
    unfold svs_after_label, svs_strip. rewrite Ho.
    rewrite (find_dir_none _ _ Hm). reflexivity.
  - intros pre d post Hds Hpre Hd. unfold do_aperio_svs. rewrite Hc, Hl.
    unfold svs_after_label, svs_strip. rewrite Ho, Hds, find_dir_app_reject by exact Hpre.
    cbn [find_dir]. unfold second_line_is at 1.
    rewrite image_description_missing by exact Hd. reflexivity.
Qed.

Lemma svs_missing_macro_raises_witness :
  (exists f1 tf1,
    svs_check 10 svs_label_only = Ok tt /\
    svs_strip 10 svs_label_only (bstr "label ") LABEL_MSG = (Ok tt, f1) /\
    open_tiff 10 f1 = Ok tf1 /\
    Forall (fun d => second_line_is (bstr "macro ") f1 (tf_dialect tf1) d = Ok false)
      (directories tf1) /\
    do_aperio_svs 10 svs_label_only = (Err (IOError MACRO_MSG), f1)) /\
  (exists f1 tf1 d0 d2,
    svs_check 10 svs_label_then_undescribed = Ok tt /\
    svs_strip 10 svs_label_then_undescribed (bstr "label ") LABEL_MSG = (Ok tt, f1) /\
    open_tiff 10 f1 = Ok tf1 /\
    directories tf1 = [d0] ++ d2 :: [] /\
    second_line_is (bstr "macro ") f1 (tf_dialect tf1) d0 = Ok false /\
    has_tag IMAGE_DESCRIPTION d2 = false /\
    do_aperio_svs 10 svs_label_then_undescribed = (Err KeyError, f1)).
Proof.
  split.
  - destruct (svs_strip 10 svs_label_only (bstr "label ") LABEL_MSG) as [r f1] eqn:Hl.
    destruct (open_tiff 10 f1) as [tf1 |] eqn:Ho;
      [| vm_compute in Hl; injection Hl as _ <-; vm_compute in Ho; discriminate].
    assert (Hc : svs_check 10 svs_label_only = Ok tt) by (vm_compute; reflexivity).
    assert (Hr : r = Ok tt) by (vm_compute in Hl; injection Hl as <- _; reflexivity).
    subst r.
    assert (Hm : Forall (fun d => second_line_is (bstr "macro ") f1 (tf_dialect tf1) d
                                  = Ok false) (directories tf1)).
    { vm_compute in Hl. injection Hl as <-. vm_compute in Ho. injection Ho as <-.
      vm_compute. repeat constructor. }
    exists f1, tf1. split; [exact Hc |]. split; [reflexivity |]. split; [exact Ho |].
    split; [exact Hm |].
    exact (proj1 (svs_missing_macro_raises 10 svs_label_only f1 tf1 Hc Hl Ho) Hm).
  - destruct (svs_strip 10 svs_label_then_undescribed (bstr "label ") LABEL_MSG)
      as [r f1] eqn:Hl.
    destruct (open_tiff 10 f1) as [tf1 |] eqn:Ho;
      [| vm_compute in Hl; injection Hl as _ <-; vm_compute in Ho; discriminate].
    assert (Hc : svs_check 10 svs_label_then_undescribed = Ok tt)
      by (vm_compute; reflexivity).
    assert (Hr : r = Ok tt) by (vm_compute in Hl; injection Hl as <- _; reflexivity).
    subst r.
    destruct (directories tf1) as [| d0 [| d2 [| d3 rest]]] eqn:Hds;
      try (vm_compute in Hl; injection Hl as <-; vm_compute in Ho; injection Ho as <-;
           vm_compute in Hds; discriminate Hds).
    assert (H0 : second_line_is (bstr "macro ") f1 (tf_dialect tf1) d0 = Ok false).
    { vm_compute in Hl. injection Hl as <-. vm_compute in Ho. injection Ho as <-.
      vm_compute in Hds. injection Hds as <- _. vm_compute. reflexivity. }
    assert (H2 : has_tag IMAGE_DESCRIPTION d2 = false).
    { vm_compute in Hl. injection Hl as <-. vm_compute in Ho. injection Ho as <-.
      vm_compute in Hds. injection Hds as _ <-. vm_compute. reflexivity. }
    exists f1, tf1, d0, d2. split; [exact Hc |]. split; [reflexivity |].
    split; [exact Ho |]. split; [exact Hds |]. split; [exact H0 |].
    split; [exact H2 |].
    exact (proj2 (svs_missing_macro_raises 10 svs_label_then_undescribed f1 tf1 Hc Hl Ho)
             [d0] d2 [] Hds (Forall_cons _ H0 (Forall_nil _)) H2).
Defined.

(** C8, counterexample: [svs_label_only] has a label directory and no macro
    directory, yet the handler ends with IOError('No macro detected in SVS
    file') rather than completing. *)
Lemma svs_label_without_macro_fails :
  svs_check 10 svs_label_only = Ok tt /\
  match open_tiff 10 svs_label_only with
  | Err _ => False
  | Ok tf =>
      (exists d, find_dir (second_line_is (bstr "label ") svs_label_only (tf_dialect tf))
                   (directories tf) = Ok (Some d)) /\
      find_dir (second_line_is (bstr "macro ") svs_label_only (tf_dialect tf))
        (directories tf) = Ok None
  end /\
  fst (do_aperio_svs 10 svs_label_only) = Err (IOError MACRO_MSG).
Proof.
  vm_compute. split; [reflexivity |]. split; [| reflexivity].
  split; [eexists; reflexivity | reflexivity].
Qed.

(** ** Deleting a directory *)


Lemma bytes_firstn (n : nat) (l : bytes) : is_bytes l -> is_bytes (firstn n l).
Proof.
  revert l. induction n as [| n IH]; intros [| b l] H; simpl; try constructor.
  - inversion H; assumption.
  - apply IH. inversion H; assumption.
Qed.

Lemma bytes_skipn (n : nat) (l : bytes) : is_bytes l -> is_bytes (skipn n l).
Proof.
  revert l. induction n as [| n IH]; intros [| b l] H; simpl; try assumption.
  apply IH. inversion H; assumption.
Qed.

Lemma bytes_read_at (f : bytes) (pos n : Z) : is_bytes f -> is_bytes (read_at f pos n).
Proof.
  intros H. unfold read_at.
  destruct (_ <=? pos); [constructor |].
  destruct (n <? 0); [apply bytes_skipn, H | apply bytes_firstn, bytes_skipn, H].
Qed.

Lemma le_value_bounds (bs : bytes) :
  is_bytes bs -> 0 <= le_value bs < 2 ^ (8 * Z.of_nat (length bs)).
Proof.
  induction 1 as [| b bs Hb _ IH]; cbn [le_value length].
  - simpl. lia.
  - rewrite Nat2Z.inj_succ, Z.mul_succ_r, Z.pow_add_r by lia.
    change (2 ^ 8) with 256. nia.
Qed.

Lemma le_bytes_le_value (bs : bytes) :
  is_bytes bs -> le_bytes (length bs) (le_value bs) = bs.
Proof.
  induction 1 as [| b bs Hb _ IH]; cbn [le_value length le_bytes]; [reflexivity |].
  rewrite (Z.mul_comm 256).
  rewrite Z.mod_add, Z.div_add by lia.
  rewrite Z.mod_small, Z.div_small by lia. rewrite Z.add_0_l, IH. reflexivity.
Qed.

Lemma pack_unpack (le : bool) (n : Z) (bs : bytes) :
  is_bytes bs -> Z.of_nat (length bs) = n ->
  pack_uint le n (unpack_uint le bs) = Ok bs.
Proof.
  intros Hb Hn. unfold pack_uint, unpack_uint.
  assert (Hr : is_bytes (rev bs)) by (apply Forall_rev; exact Hb).
  destruct le.
  - destruct (le_value_bounds bs Hb) as [H0 H1].
    replace ((0 <=? le_value bs) && (le_value bs <? 2 ^ (8 * n))) with true
      by (symmetry; apply andb_true_intro; split; [apply Z.leb_le | apply Z.ltb_lt];
          subst n; lia).
    replace (Z.to_nat n) with (length bs) by lia.
    rewrite le_bytes_le_value by exact Hb. reflexivity.
  - destruct (le_value_bounds (rev bs) Hr) as [H0 H1]. rewrite length_rev in H1.
    replace ((0 <=? le_value (rev bs)) && (le_value (rev bs) <? 2 ^ (8 * n))) with true
      by (symmetry; apply andb_true_intro; split; [apply Z.leb_le | apply Z.ltb_lt];
          subst n; lia).
    replace (Z.to_nat n) with (length (rev bs)) by (rewrite length_rev; lia).
    rewrite le_bytes_le_value by exact Hr. rewrite rev_involutive. reflexivity.
Qed.

Lemma read_uint_nonneg (f : bytes) (dl : dialect) (pos n v : Z) :
  is_bytes f -> read_uint f dl pos n = Ok v -> 0 <= v.
Proof.
  intros Hf H. unfold read_uint in H.
  destruct (_ =? n); [| discriminate]. injection H as <-.
  pose proof (bytes_read_at f pos n Hf) as Hb.
  unfold unpack_uint. destruct (dl_le dl).
  - apply le_value_bounds, Hb.
  - apply le_value_bounds, Forall_rev, Hb.
Qed.

Lemma read_at_length_le (f : bytes) (pos n : Z) :
  0 <= pos -> 0 < n -> Z.of_nat (length (read_at f pos n)) = n ->
  pos + n <= Z.of_nat (length f).
Proof.
  intros Hp Hn H. rewrite read_at_eq in H by lia.
  rewrite length_firstn, length_skipn in H. lia.
Qed.

Lemma read_uint_bounds (f : bytes) (dl : dialect) (pos n v : Z) :
  0 <= pos -> 0 < n -> read_uint f dl pos n = Ok v ->
  pos + n <= Z.of_nat (length f).
Proof.
  intros Hp Hn H. unfold read_uint in H.
  destruct (_ =? n) eqn:E; [| discriminate].
  apply Z.eqb_eq in E. exact (read_at_length_le f pos n Hp Hn E).
Qed.

Lemma read_at_agree (f g : bytes) (pos n : Z) :
  length f = length g -> 0 <= pos -> 0 <= n ->
  (forall i, pos <= i < pos + n -> byte_at f i = byte_at g i) ->
  read_at f pos n = read_at g pos n.
Proof.
  intros Hl Hp Hn Hag.
  assert (Hlen : length (read_at f pos n) = length (read_at g pos n))
    by (rewrite !read_at_eq by lia; rewrite !length_firstn, !length_skipn, Hl;
        reflexivity).
  apply nth_ext with (d := 0) (d' := 0); [exact Hlen |].
  intros j Hj.
  assert (Hj' : (j < Z.to_nat n)%nat)
    by (rewrite read_at_eq in Hj by lia; rewrite length_firstn in Hj; lia).
  rewrite !read_at_nth by lia.
  specialize (Hag (pos + Z.of_nat j)). unfold byte_at in Hag.
  replace (Z.to_nat (pos + Z.of_nat j)) with (Z.to_nat pos + j)%nat in Hag by lia.
  apply Hag. lia.
Qed.

Lemma read_uint_agree (f g : bytes) (dl : dialect) (pos n : Z) :
  length f = length g -> 0 <= pos -> 0 <= n ->
  (forall i, pos <= i < pos + n -> byte_at f i = byte_at g i) ->
  read_uint f dl pos n = read_uint g dl pos n.
Proof.
  intros Hl Hp Hn Hag. unfold read_uint. rewrite (read_at_agree f g) by assumption.
  reflexivity.
Qed.

Lemma byte_at_write (f : bytes) (pos : Z) (bs : bytes) (i : Z) :
  0 <= pos -> pos + Z.of_nat (length bs) <= Z.of_nat (length f) -> 0 <= i ->
  byte_at (write_at f pos bs) i =
  if (pos <=? i) && (i <? pos + Z.of_nat (length bs))
  then nth (Z.to_nat (i - pos)) bs 0 else byte_at f i.
Proof.
  intros Hp Hle Hi. unfold byte_at. rewrite write_at_nth by assumption.
  destruct (pos <=? i) eqn:E1; destruct (i <? pos + Z.of_nat (length bs)) eqn:E2;
    simpl.
  - apply Z.leb_le in E1. apply Z.ltb_lt in E2.
    replace ((Z.to_nat pos <=? Z.to_nat i)%nat && (Z.to_nat i <? Z.to_nat pos + length bs)%nat)
      with true by (symmetry; apply andb_true_intro; split;
                    [apply Nat.leb_le | apply Nat.ltb_lt]; lia).
    f_equal. lia.
  - apply Z.ltb_ge in E2.
    replace (Z.to_nat i <? Z.to_nat pos + length bs)%nat with false
      by (symmetry; apply Nat.ltb_ge; lia).
    rewrite andb_false_r. reflexivity.
  - apply Z.leb_gt in E1.
    replace (Z.to_nat pos <=? Z.to_nat i)%nat with false
      by (symmetry; apply Nat.leb_gt; lia). reflexivity.
  - apply Z.leb_gt in E1.
    replace (Z.to_nat pos <=? Z.to_nat i)%nat with false
      by (symmetry; apply Nat.leb_gt; lia). reflexivity.
Qed.

Ltac bind_inv H :=
  match type of H with
  | bind ?m _ = _ =>
      let E := fresh "E" in
      destruct m eqn:E; cbn [bind] in H; [| discriminate H]
  end.

Lemma sizes_pos (dl : dialect) :
  0 < y_size dl /\ 0 < z_size dl /\ 0 < d_size dl /\ entry_size dl = 4 + 2 * z_size dl.
Proof.
  unfold entry_size, y_size, z_size, d_size.
  destruct (dl_big dl), (dl_ndpi dl); simpl; lia.
Qed.

Lemma read_entry_agree (f g : bytes) (dl : dialect) (pos : Z) :
  length f = length g -> 0 <= pos ->
  (forall i, pos <= i < pos + entry_size dl -> byte_at f i = byte_at g i) ->
  read_entry f dl pos = read_entry g dl pos.
Proof.
  intros Hl Hp Hag. destruct (sizes_pos dl) as (_ & Hz & _ & He). rewrite He in Hag.
  unfold read_entry.
  rewrite (read_uint_agree f g dl pos 2), (read_uint_agree f g dl (pos + 2) 2),
    (read_uint_agree f g dl (pos + 4) (z_size dl)),
    (read_uint_agree f g dl (pos + 4 + z_size dl) (z_size dl));
    try reflexivity; try assumption; try lia; intros i Hi; apply Hag; lia.
Qed.

Lemma read_entries_agree (f g : bytes) (dl : dialect) (n : nat) :
  forall pos acc,
  length f = length g -> 0 <= pos ->
  (forall i, pos <= i < pos + Z.of_nat n * entry_size dl -> byte_at f i = byte_at g i) ->
  read_entries f dl n pos acc = read_entries g dl n pos acc.
Proof.
  destruct (sizes_pos dl) as (_ & Hz & _ & He).
  induction n as [| n IH]; intros pos acc Hl Hp Hag; cbn [read_entries]; [reflexivity |].
  rewrite (read_entry_agree f g) by (try assumption; intros i Hi; apply Hag; lia).
  destruct (read_entry g dl pos); cbn [bind]; [| reflexivity].
  apply IH; [assumption | lia |]. intros i Hi. apply Hag. lia.
Qed.

Lemma read_directory_fields (f : bytes) (dl : dialect) (doff : Z) (num : nat)
    (ip : Z) (d : TiffDirectory) :
  read_directory f dl doff num ip = Ok d ->
  exists cnt,
    read_uint f dl doff (y_size dl) = Ok cnt /\
    read_entries f dl (Z.to_nat cnt) (doff + y_size dl) [] = Ok (entries d) /\
    in_pointer_offset d = ip /\
    out_pointer_offset d = doff + y_size dl + cnt * entry_size dl /\
    number d = num /\ directory_offset d = doff.
Proof.
  intros H. unfold read_directory in H. bind_inv H. bind_inv H.
  injection H as <-. eexists. repeat split; eassumption || reflexivity.
Qed.

Lemma read_directory_out (f : bytes) (dl : dialect) (doff : Z) (num : nat)
    (ip : Z) (d : TiffDirectory) :
  is_bytes f -> read_directory f dl doff num ip = Ok d ->
  doff + y_size dl <= out_pointer_offset d /\ directory_offset d = doff
  /\ in_pointer_offset d = ip.
Proof.
  intros Hf H. destruct (read_directory_fields f dl doff num ip d H)
    as (cnt & E1 & _ & Hi & Ho & _ & Hd).
  pose proof (read_uint_nonneg f dl doff (y_size dl) cnt Hf E1).
  destruct (sizes_pos dl) as (_ & Hz & _ & He). nia.
Qed.

Lemma read_directory_agree (f g : bytes) (dl : dialect) (doff : Z) (num : nat)
    (ip : Z) (d : TiffDirectory) :
  is_bytes f -> read_directory f dl doff num ip = Ok d ->
  length f = length g -> 0 <= doff ->
  (forall i, doff <= i < out_pointer_offset d -> byte_at f i = byte_at g i) ->
  read_directory g dl doff num ip = Ok d.
Proof.
  intros Hf H Hl Hd Hag.
  destruct (read_directory_fields f dl doff num ip d H)
    as (cnt & E1 & E2 & Hi & Ho & Hn & Hdo).
  pose proof (read_uint_nonneg f dl doff (y_size dl) cnt Hf E1) as Hc.
  destruct (sizes_pos dl) as (Hy & Hz & _ & He).
  rewrite <- H. unfold read_directory.
  rewrite <- (read_uint_agree f g) by (try assumption; try lia; intros i Hi';
                                       apply Hag; nia).
  rewrite E1. cbn [bind].
  rewrite <- (read_entries_agree f g) by (try assumption; try lia; intros i Hi';
                                         apply Hag; rewrite Z2Nat.id in Hi' by lia; nia).
  reflexivity.
Qed.

Lemma read_directory_other (f : bytes) (dl : dialect) (doff : Z) (num num' : nat)
    (ip ip' : Z) (d : TiffDirectory) :
  read_directory f dl doff num ip = Ok d ->
  read_directory f dl doff num' ip' =
  Ok {| entries := entries d; in_pointer_offset := ip';
        out_pointer_offset := out_pointer_offset d; number := num';
        directory_offset := directory_offset d |}.
Proof.
  intros H. unfold read_directory in H |- *. bind_inv H. bind_inv H.
  cbn [bind]. rewrite E0. cbn [bind]. injection H as <-. reflexivity.
Qed.

Lemma read_chain_eq (fuel : nat) (f : bytes) (dl : dialect) (n : nat) (p : Z) :
  read_chain fuel f dl n p =
  (doff <- read_uint f dl p (d_size dl) ;;
   if doff =? 0 then Ok (dl, []) else
   match fuel with
   | O => Err Fuel
   | S fuel' =>
       d <- read_directory f dl doff n p ;;
       r <- read_chain fuel' f (next_dialect dl n d) (S n) (out_pointer_offset d) ;;
       Ok (fst r, d :: snd r)
   end).
Proof. destruct fuel; reflexivity. Qed.

Lemma next_dialect_S (dl : dialect) (n : nat) (d : TiffDirectory) :
  next_dialect dl (S n) d = dl.
Proof. reflexivity. Qed.

Lemma chain_ranges_head (dl : dialect) (n : nat) (p : Z) (ds : list TiffDirectory) :
  In (p, d_size dl) (chain_ranges dl n p ds).
Proof. destruct ds; left; reflexivity. Qed.

Lemma read_chain_dialect_S (fuel : nat) :
  forall f dl n p dl' ds,
  read_chain fuel f dl (S n) p = Ok (dl', ds) -> dl' = dl.
Proof.
  induction fuel as [| fuel IH]; intros f dl n p dl' ds H;
    rewrite read_chain_eq in H; bind_inv H.
  - destruct (a =? 0); [injection H as <- _; reflexivity | discriminate].
  - destruct (a =? 0); [injection H as <- _; reflexivity |].
    bind_inv H. bind_inv H. rewrite next_dialect_S in E1.
    destruct a1 as [dlr dsr]. injection H as <- _. exact (IH _ _ _ _ _ _ E1).
Qed.

Lemma read_chain_first (fuel : nat) (f : bytes) (dl : dialect) (n : nat) (p : Z)
    (dl' : dialect) (d : TiffDirectory) (ds : list TiffDirectory) :
  read_chain fuel f dl n p = Ok (dl', d :: ds) ->
  exists fuel0,
    fuel = S fuel0 /\
    read_uint f dl p (d_size dl) = Ok (directory_offset d) /\
    directory_offset d <> 0 /\
    read_directory f dl (directory_offset d) n p = Ok d /\
    in_pointer_offset d = p /\
    read_chain fuel0 f (next_dialect dl n d) (S n) (out_pointer_offset d) = Ok (dl', ds).
Proof.
  intros H. rewrite read_chain_eq in H. bind_inv H.
  destruct (a =? 0) eqn:Ea; [discriminate |]. apply Z.eqb_neq in Ea.
  destruct fuel as [| fuel0]; [discriminate |].
  bind_inv H. bind_inv H. destruct a1 as [dlr dsr]. injection H as <- <- <-.
  destruct (read_directory_fields f dl a n p a0 E0) as (cnt & _ & _ & Hi & _ & _ & Hd).
  exists fuel0. rewrite Hd. repeat split; assumption.
Qed.

Lemma read_chain_frame (fuel : nat) :
  forall f g dl n p dl' ds,
  is_bytes f -> 0 <= p -> length g = length f ->
  read_chain fuel f dl n p = Ok (dl', ds) ->
  (forall r i, In r (chain_ranges dl n p ds) -> 0 <= i -> in_range r i ->
               byte_at g i = byte_at f i) ->
  read_chain fuel g dl n p = Ok (dl', ds).
Proof.
  induction fuel as [| fuel IH]; intros f g dl n p dl' ds Hf Hp Hl H Hag;
    rewrite read_chain_eq in H |- *;
    pose proof (sizes_pos dl) as (HY & _ & HD & _);
    (rewrite (read_uint_agree g f) by
       first [assumption | lia | intros i Hi; apply (Hag (p, d_size dl));
        [apply chain_ranges_head | lia | unfold in_range; simpl; lia]]);
    bind_inv H; cbn [bind].
  - destruct (a =? 0); [exact H | discriminate].
  - destruct (a =? 0); [exact H |].
    bind_inv H. bind_inv H. destruct a1 as [dlr dsr]. injection H as <- <-.
    pose proof (read_uint_nonneg f dl p (d_size dl) a Hf E) as Ha.
    destruct (read_directory_out f dl a n p a0 Hf E0) as (Ho & Hdo & _).
    rewrite (read_directory_agree f g dl a n p a0 Hf E0) by
      first [assumption | lia | symmetry; assumption | intros i Hi; symmetry;
       apply (Hag (directory_offset a0, out_pointer_offset a0 - directory_offset a0));
       [right; left; reflexivity | lia | unfold in_range; simpl; lia]].
    cbn [bind].
    rewrite (IH f g _ _ _ dlr dsr Hf) by
      first [assumption | lia | intros r i Hr Hi Hri; apply (Hag r i);
       [right; right; exact Hr | exact Hi | exact Hri]].
    reflexivity.
Qed.

Lemma read_chain_shape (fuel : nat) :
  forall f dl n p dl' ds fuel' m q,
  read_chain fuel f dl (S n) p = Ok (dl', ds) -> (fuel <= fuel')%nat ->
  read_uint f dl q (d_size dl) = read_uint f dl p (d_size dl) ->
  (forall d1 ds1, ds = d1 :: ds1 -> next_dialect dl m d1 = dl) ->
  exists ds', read_chain fuel' f dl m q = Ok (dl', ds')
              /\ map dir_shape ds' = map dir_shape ds.
Proof.
  induction fuel as [| fuel IH]; intros f dl n p dl' ds fuel' m q H Hle Hq Hsw;
    rewrite read_chain_eq in H |- *; rewrite Hq; bind_inv H; cbn [bind].
  - destruct (a =? 0); [| discriminate]. injection H as <- <-.
    exists []. split; reflexivity.
  - destruct (a =? 0).
    + injection H as <- <-. exists []. split; reflexivity.
    + bind_inv H. bind_inv H. destruct a1 as [dlr dsr]. injection H as <- <-.
      destruct fuel' as [| fuel']; [lia |].
      rewrite (read_directory_other f dl a (S n) m p q a0 E0). cbn [bind].
      rewrite next_dialect_S in E1.
      destruct (IH f dl (S n) (out_pointer_offset a0) dlr dsr fuel' (S m)
                  (out_pointer_offset a0) E1 ltac:(lia) eq_refl
                  (fun d1 ds1 _ => next_dialect_S dl m d1)) as (ds' & H1 & H2).
      change (next_dialect dl m
                {| entries := entries a0; in_pointer_offset := q;
                   out_pointer_offset := out_pointer_offset a0; number := m;
                   directory_offset := directory_offset a0 |})
        with (next_dialect dl m a0).
      rewrite (Hsw a0 dsr eq_refl). simpl. rewrite H1. cbn [bind].
      eexists. split; [reflexivity |]. simpl. rewrite H2. reflexivity.
Qed.

Lemma chain_ranges_cons_S (dl : dialect) (n : nat) (p : Z) (d : TiffDirectory)
    (ds : list TiffDirectory) :
  chain_ranges dl (S n) p (d :: ds) =
  (p, d_size dl) :: (directory_offset d, out_pointer_offset d - directory_offset d)
  :: chain_ranges dl (S (S n)) (out_pointer_offset d) ds.
Proof. reflexivity. Qed.

Lemma chain_slot_in_ranges (pre : list TiffDirectory) :
  forall fuel f dl n p dl' d post,
  is_bytes f -> 0 <= p ->
  read_chain fuel f dl (S n) p = Ok (dl', pre ++ d :: post) ->
  In (in_pointer_offset d, d_size dl) (chain_ranges dl (S n) p (pre ++ d :: post))
  /\ (exists v, read_uint f dl (in_pointer_offset d) (d_size dl) = Ok v)
  /\ 0 <= in_pointer_offset d /\ 0 <= out_pointer_offset d.
Proof.
  pose proof (fun dl => sizes_pos dl) as Hsz.
  induction pre as [| d0 pre IH]; intros fuel f dl n p dl' d post Hf Hp H; simpl app in *.
  - destruct (read_chain_first _ _ _ _ _ _ _ _ H) as (fuel0 & _ & E & _ & Edir & Hi & _).
    pose proof (read_uint_nonneg _ _ _ _ _ Hf E).
    destruct (read_directory_out _ _ _ _ _ _ Hf Edir) as (Ho & _ & _).
    destruct (Hsz dl) as (HY & _).
    rewrite Hi. split; [apply chain_ranges_head |].
    split; [eexists; exact E | split; lia].
  - destruct (read_chain_first _ _ _ _ _ _ _ _ H) as (fuel0 & _ & E & _ & Edir & _ & Et).
    pose proof (read_uint_nonneg _ _ _ _ _ Hf E).
    destruct (read_directory_out _ _ _ _ _ _ Hf Edir) as (Ho & _ & _).
    destruct (Hsz dl) as (HY & _).
    rewrite next_dialect_S in Et.
    destruct (IH fuel0 f dl (S n) (out_pointer_offset d0) dl' d post Hf ltac:(lia) Et) as [H1 H2]. split; [| exact H2].
    rewrite chain_ranges_cons_S. right. right. exact H1.
Qed.



Lemma disjoint_not_in (r s : Z * Z) (i : Z) :
  ranges_disjoint r s -> in_range r i -> ~ in_range s i.
Proof. unfold ranges_disjoint, in_range. lia. Qed.

Lemma read_chain_splice (pre : list TiffDirectory) :
  forall fuel f g dl n p d post,
  is_bytes f -> 0 <= p -> length g = length f ->
  read_chain fuel f dl (S n) p = Ok (dl, pre ++ d :: post) ->
  ForallOrdPairs ranges_disjoint (chain_ranges dl (S n) p (pre ++ d :: post)) ->
  (forall r i, In r (chain_ranges dl (S n) p (pre ++ d :: post)) -> 0 <= i ->
     in_range r i -> ~ in_range (in_pointer_offset d, d_size dl) i ->
     byte_at g i = byte_at f i) ->
  read_at g (in_pointer_offset d) (d_size dl)
  = read_at f (out_pointer_offset d) (d_size dl) ->
  exists ds', read_chain fuel g dl (S n) p = Ok (dl, ds')
              /\ map dir_shape ds' = map dir_shape (pre ++ post).
Proof.
  induction pre as [| d0 pre IH];
    intros fuel f g dl n p d post Hf Hp Hl H Hdis Hag Hslot; simpl app in *;
    pose proof (sizes_pos dl) as (HY & _ & HD & _);
    destruct (read_chain_first _ _ _ _ _ _ _ _ H)
      as (fuel0 & -> & E & Hnz & Edir & Hin & Etail);
    rewrite next_dialect_S in Etail;
    rewrite chain_ranges_cons_S in Hdis, Hag;
    pose proof (read_uint_nonneg _ _ _ _ _ Hf E) as Hd0;
    destruct (read_directory_out _ _ _ _ _ _ Hf Edir) as (Hout & _ & _);
    inversion Hdis as [| ? ? Hfa Hdis1];
    inversion Hdis1 as [| ? ? Hfb Hdis2].
  - (* the first directory is the one deleted *)
    assert (Hframe : read_chain fuel0 g dl (S (S n)) (out_pointer_offset d)
                     = Ok (dl, post)).
    { apply (read_chain_frame fuel0 f g); try assumption; try lia.
      intros r i Hr Hi Hri. apply (Hag r i); [right; right; exact Hr | exact Hi | exact Hri |].
      rewrite Forall_forall in Hfa. apply (disjoint_not_in r); [| exact Hri].
      pose proof (Hfa r (or_intror Hr)) as Hd. rewrite Hin.
      unfold ranges_disjoint in *; simpl in *. lia. }
    assert (Hq : read_uint g dl (in_pointer_offset d) (d_size dl)
                 = read_uint g dl (out_pointer_offset d) (d_size dl)).
    { transitivity (read_uint f dl (out_pointer_offset d) (d_size dl)).
      - unfold read_uint. rewrite Hslot. reflexivity.
      - apply read_uint_agree; try lia.
        intros i Hi. symmetry.
        apply (Hag (out_pointer_offset d, d_size dl) i);
          [right; right; apply chain_ranges_head | lia | unfold in_range; simpl; lia |].
        rewrite Forall_forall in Hfa.
        pose proof (Hfa _ (or_intror (chain_ranges_head dl (S (S n))
                                        (out_pointer_offset d) post))) as Hd.
        rewrite Hin. unfold ranges_disjoint, in_range in *; simpl in *. lia. }
    rewrite Hin in Hq.
    destruct (read_chain_shape fuel0 g dl (S n) (out_pointer_offset d) dl post
                (S fuel0) (S n) p Hframe ltac:(lia) Hq
                (fun d1 ds1 _ => next_dialect_S dl n d1)) as (ds' & Hr1 & Hr2).
    exists ds'. split; assumption.
  - (* the deleted directory comes later *)
    destruct (chain_slot_in_ranges _ fuel0 f dl (S n) (out_pointer_offset d0) dl d post Hf ltac:(lia) Etail) as [Hsl _].
    rewrite Forall_forall in Hfa, Hfb.
    destruct (IH fuel0 f g dl (S n) (out_pointer_offset d0) d post Hf ltac:(lia) Hl Etail
                Hdis2) as (ds' & Hr1 & Hr2).
    + intros r i Hr Hi Hri Hns. apply (Hag r i); [right; right; exact Hr | assumption ..].
    + exact Hslot.
    + exists (d0 :: ds'). split; [| simpl; rewrite Hr2; reflexivity].
      rewrite read_chain_eq.
      rewrite (read_uint_agree g f) by
        first [assumption | lia | intros i Hi; apply (Hag (p, d_size dl) i);
          [left; reflexivity | lia | unfold in_range; simpl; lia |];
          apply (disjoint_not_in (p, d_size dl)); [| unfold in_range; simpl; lia];
          apply Hfa; right; exact Hsl].
      rewrite E. cbn [bind].
      replace (directory_offset d0 =? 0) with false by (symmetry; apply Z.eqb_neq; exact Hnz).
      rewrite (read_directory_agree f g dl _ _ _ d0 Hf Edir) by
        first [symmetry; assumption | lia | intros i Hi; symmetry;
          apply (Hag (directory_offset d0, out_pointer_offset d0 - directory_offset d0) i);
          [right; left; reflexivity | lia | unfold in_range; simpl; lia |];
          apply (disjoint_not_in (directory_offset d0,
                                  out_pointer_offset d0 - directory_offset d0));
          [apply Hfb; exact Hsl | unfold in_range; simpl; lia]].
      cbn [bind]. rewrite next_dialect_S, Hr1. reflexivity.
Qed.

Lemma zero_fill_effect (f : bytes) (off len : Z) :
  0 <= off -> off + len <= Z.of_nat (length f) ->
  length (write_at f off (repeat 0 (Z.to_nat len))) = length f /\
  forall i, 0 <= i ->
    byte_at (write_at f off (repeat 0 (Z.to_nat len))) i =
    if (off <=? i) && (i <? off + len) then 0 else byte_at f i.
Proof.
  intros Ho Hle.
  destruct (Z.le_gt_cases len 0) as [Hn | Hn].
  - replace (Z.to_nat len) with 0%nat by lia. simpl repeat. unfold write_at.
    split; [reflexivity |]. intros i Hi.
    destruct (off <=? i) eqn:E1; [| reflexivity]. apply Z.leb_le in E1.
    replace (i <? off + len) with false by (symmetry; apply Z.ltb_ge; lia).
    reflexivity.
  - assert (Hl : Z.of_nat (length (repeat 0 (Z.to_nat len))) = len)
      by (rewrite repeat_length; lia).
    split; [apply write_at_length; lia |].
    intros i Hi. rewrite byte_at_write by lia. rewrite Hl.
    destruct (_ && _); [apply nth_repeat | reflexivity].
Qed.

Lemma wipe_strips_effect (pairs : list (item * item)) :
  forall f dl base pfx f1,
  wipe_strips f dl base pfx pairs = (Ok tt, f1) ->
  Forall (fun s => fst s + snd s <= Z.of_nat (length f)) (strip_spans dl base pairs) ->
  length f1 = length f /\
  Forall (fun s => 0 <= fst s) (strip_spans dl base pairs) /\
  (forall s i, In s (strip_spans dl base pairs) -> in_range s i -> byte_at f1 i = 0) /\
  (forall i, 0 <= i -> (forall s, In s (strip_spans dl base pairs) -> ~ in_range s i) ->
     byte_at f1 i = byte_at f i).
Proof.
  induction pairs as [| [o l] rest IH]; intros f dl base pfx f1 H Hb.
  - injection H as <-. split; [reflexivity |]. split; [constructor |].
    split; [intros s i [] | reflexivity].
  - destruct o as [o0 | | |]; [| discriminate H ..].
    cbn [wipe_strips] in H.
    destruct (near_pointer dl base o0 <? 0) eqn:Eneg; [discriminate H |].
    apply Z.ltb_ge in Eneg.
    lazymatch type of H with (if ?c then _ else _) = _ => destruct c end;
      [discriminate H |].
    destruct l as [len | | |]; [| discriminate H ..].
    cbn [strip_spans] in *. inversion Hb as [| ? ? Hb0 Hbr]. simpl in Hb0.
    destruct (zero_fill_effect f (near_pointer dl base o0) len Eneg Hb0) as [Hl2 Hz2].
    rewrite <- Hl2 in Hbr.
    destruct (IH _ _ _ _ _ H Hbr) as (Hl1 & Hp1 & Hz1 & Hk1).
    split; [congruence |]. split; [constructor; assumption |]. split.
    + intros s i [<- | Hs] Hi.
      * unfold in_range in Hi; simpl in Hi.
        destruct (existsb (fun s => (fst s <=? i) && (i <? fst s + snd s))
                    (strip_spans dl base rest)) eqn:Ex.
        -- apply existsb_exists in Ex as (s & Hs & Hsi).
           apply andb_prop in Hsi as [E1 E2]. apply Z.leb_le in E1. apply Z.ltb_lt in E2.
           apply (Hz1 s i Hs). unfold in_range. lia.
        -- rewrite Hk1 by (try lia; intros s Hs Hsi;
                           assert (Hf : existsb (fun s => (fst s <=? i) && (i <? fst s + snd s))
                                          (strip_spans dl base rest) = true)
                             by (apply existsb_exists; exists s; split; [exact Hs |];
                                 unfold in_range in Hsi;
                                 apply andb_true_intro; split;
                                 [apply Z.leb_le | apply Z.ltb_lt]; lia);
                           congruence).
           rewrite Hz2 by lia.
           replace ((near_pointer dl base o0 <=? i) && (i <? near_pointer dl base o0 + len))
             with true by (symmetry; apply andb_true_intro; split;
                           [apply Z.leb_le | apply Z.ltb_lt]; lia).
           reflexivity.
      * exact (Hz1 s i Hs Hi).
    + intros i Hi Hn. rewrite Hk1 by (try exact Hi; intros s Hs; apply Hn; right; exact Hs).
      rewrite Hz2 by exact Hi.
      specialize (Hn _ (or_introl eq_refl)). unfold in_range in Hn; simpl in Hn.
      destruct ((near_pointer dl base o0 <=? i) && (i <? near_pointer dl base o0 + len))
        eqn:Ein; [| reflexivity].
      apply andb_prop in Ein as [E1 E2]. apply Z.leb_le in E1. apply Z.ltb_lt in E2.
      exfalso. apply Hn. lia.
Qed.

Lemma read_write_same (f : bytes) (pos : Z) (bs : bytes) :
  0 <= pos -> pos + Z.of_nat (length bs) <= Z.of_nat (length f) ->
  read_at (write_at f pos bs) pos (Z.of_nat (length bs)) = bs.
Proof.
  intros Hp Hle. rewrite read_at_eq by lia. rewrite write_at_eq by lia.
  rewrite skipn_app, length_firstn.
  replace (Z.to_nat pos - Init.Nat.min (Z.to_nat pos) (length f))%nat with 0%nat by lia.
  rewrite skipn_all2 by (rewrite length_firstn; lia).
  rewrite skipn_O, app_nil_l, Nat2Z.id.
  rewrite <- (Nat.add_0_r (length bs)) at 1. rewrite firstn_app_2. simpl.
  apply app_nil_r.
Qed.

Lemma read_header_bounds (f : bytes) (h : dialect * Z) :
  read_header f = Ok h ->
  (snd h = 4 \/ snd h = 8) /\ dl_ndpi (fst h) = false /\ d_size (fst h) = 4 + 4 * Z.b2z (dl_big (fst h)).
Proof.
  intros H. unfold read_header in H. cbv zeta in H. bind_inv H. bind_inv H.
  destruct (a0 =? 42); [injection H as <-; simpl; unfold d_size; simpl; lia |].
  destruct (a0 =? 43); [| discriminate H].
  bind_inv H. bind_inv H.
  destruct (_ && _); [injection H as <-; simpl; unfold d_size; simpl; lia | discriminate H].
Qed.

Lemma read_header_agree (f g : bytes) (h : dialect * Z) :
  read_header f = Ok h -> length f = length g ->
  (forall i, 0 <= i < snd h -> byte_at f i = byte_at g i) ->
  read_header g = Ok h.
Proof.
  intros H Hl Hag.
  destruct (read_header_bounds f h H) as [Hh _].
  unfold read_header in H |- *. cbv zeta in H |- *.
  rewrite <- (read_at_agree f g 0 2) by (try assumption; try lia; intros i Hi; apply Hag; lia).
  bind_inv H. cbn [bind].
  rewrite <- (read_uint_agree f g) by (try assumption; try lia; intros i Hi; apply Hag; lia).
  bind_inv H. cbn [bind].
  destruct (a0 =? 42); [exact H |].
  destruct (a0 =? 43); [| exact H].
  assert (H8 : snd h = 8).
  { clear - H. bind_inv H. bind_inv H.
    destruct (_ && _); [injection H as <-; reflexivity | discriminate H]. }
  rewrite <- (read_uint_agree f g _ 4 2) by (try assumption; try lia; intros i Hi; apply Hag; lia).
  rewrite <- (read_uint_agree f g _ 6 2) by (try assumption; try lia; intros i Hi; apply Hag; lia).
  exact H.
Qed.

Lemma delete_effect (f f' : bytes) (dl : dialect) (d : TiffDirectory) (pfx : bytes)
    (offs lens : pyvalue) (spans : list (Z * Z)) :
  is_bytes f ->
  strip_values f dl d = Ok (offs, lens) ->
  spans = strip_spans dl (out_pointer_offset d)
            (combine (iter_value offs) (iter_value lens)) ->
  Forall (fun s => fst s + snd s <= Z.of_nat (length f)) spans ->
  (forall s, In s spans -> ranges_disjoint s (out_pointer_offset d, d_size dl)) ->
  0 <= in_pointer_offset d -> 0 <= out_pointer_offset d ->
  in_pointer_offset d + d_size dl <= Z.of_nat (length f) ->
  delete f dl d pfx = (Ok tt, f') ->
  length f' = length f /\
  (forall s i, In s spans -> in_range s i ->
     ~ in_range (in_pointer_offset d, d_size dl) i -> byte_at f' i = 0) /\
  read_at f' (in_pointer_offset d) (d_size dl)
  = read_at f (out_pointer_offset d) (d_size dl) /\
  (forall i, 0 <= i -> (forall s, In s spans -> ~ in_range s i) ->
     ~ in_range (in_pointer_offset d, d_size dl) i -> byte_at f' i = byte_at f i).
Proof.
  intros Hf Hsv Hsp Hb Hdo Hi Ho Hib H. subst spans.
  pose proof (sizes_pos dl) as (_ & _ & HD & _).
  unfold delete in H. rewrite Hsv in H.
  destruct (wipe_strips f dl (out_pointer_offset d) pfx
              (combine (iter_value offs) (iter_value lens))) as [[[] | e] f1] eqn:Ew;
    [| discriminate H].
  destruct (wipe_strips_effect _ _ _ _ _ _ Ew Hb) as (Hl1 & Hp1 & Hz1 & Hk1).
  destruct (read_uint f1 dl (out_pointer_offset d) (d_size dl)) as [v | e] eqn:Er;
    [| discriminate H].
  assert (Hra : read_at f1 (out_pointer_offset d) (d_size dl)
                = read_at f (out_pointer_offset d) (d_size dl)).
  { apply read_at_agree; try lia. intros i Hi'. apply Hk1; [lia |].
    intros s Hs. apply (disjoint_not_in (out_pointer_offset d, d_size dl)).
    - pose proof (Hdo s Hs). unfold ranges_disjoint in *. lia.
    - unfold in_range; simpl; lia. }
  unfold read_uint in Er. rewrite Hra in Er.
  destruct (Z.of_nat (length (read_at f (out_pointer_offset d) (d_size dl))) =? d_size dl)
    eqn:Elen; [| discriminate Er]. apply Z.eqb_eq in Elen. injection Er as <-.
  unfold write_uint in H.
  rewrite pack_unpack in H by (try apply bytes_read_at; assumption).
  cbn [bind] in H. injection H as <-.
  set (bs := read_at f (out_pointer_offset d) (d_size dl)) in *.
  assert (Hwl : length (write_at f1 (in_pointer_offset d) bs) = length f1)
    by (apply write_at_length; lia).
  split; [congruence |]. split; [| split].
  - intros s i Hs Hsi Hns.
    rewrite Forall_forall in Hp1. pose proof (Hp1 s Hs). unfold in_range in Hsi, Hns.
    simpl in Hns.
    rewrite byte_at_write by lia.
    replace ((in_pointer_offset d <=? i) && (i <? in_pointer_offset d + Z.of_nat (length bs)))
      with false by (symmetry; rewrite Elen; apply Bool.not_true_iff_false; intros Hc;
                     apply andb_prop in Hc as [E1 E2]; apply Z.leb_le in E1;
                     apply Z.ltb_lt in E2; lia).
    apply (Hz1 s i Hs). unfold in_range. lia.
  - rewrite <- Elen. apply read_write_same; lia.
  - intros i Hi' Hns Hnslot. unfold in_range in Hnslot; simpl in Hnslot.
    rewrite byte_at_write by lia.
    replace ((in_pointer_offset d <=? i) && (i <? in_pointer_offset d + Z.of_nat (length bs)))
      with false by (symmetry; rewrite Elen; apply Bool.not_true_iff_false; intros Hc;
                     apply andb_prop in Hc as [E1 E2]; apply Z.leb_le in E1;
                     apply Z.ltb_lt in E2; lia).
    apply Hk1; assumption.
Qed.

Lemma chain_ranges_out_slot (pre : list TiffDirectory) :
  forall dl n p d post,
  In (out_pointer_offset d, d_size dl) (chain_ranges dl (S n) p (pre ++ d :: post)).
Proof.
  induction pre as [| d0 pre IH]; intros dl n p d post; simpl app;
    rewrite chain_ranges_cons_S; right; right; [apply chain_ranges_head | apply IH].
Qed.

Lemma chain_ranges_cons (dl : dialect) (n : nat) (p : Z) (d : TiffDirectory)
    (ds : list TiffDirectory) :
  chain_ranges dl n p (d :: ds) =
  (p, d_size dl) :: (directory_offset d, out_pointer_offset d - directory_offset d)
  :: chain_ranges (next_dialect dl n d) (S n) (out_pointer_offset d) ds.
Proof. reflexivity. Qed.

(** C1: for a TIFF file whose header, IFDs and next-IFD pointers do not
    overlap, and a directory [d] whose strips lie inside the file and outside
    those structures, a successful [delete] keeps the file length, zeroes every
    strip range, copies the next-IFD pointer of [d] into the slot at its
    [in_pointer_offset], leaves every other byte unchanged, and reopening the
    file yields the remaining directories (same offsets and entries) in the
    same dialect, provided one remains and, when [d] is IFD 0, the file is not
    NDPI and the new first IFD does not turn NDPI mode on. *)
Theorem delete_splices_directory (fuel : nat) (f f' : bytes) (h : dialect * Z)
    (tf : TiffFile) (pre post : list TiffDirectory) (d : TiffDirectory) (pfx : bytes)
    (offs lens : pyvalue) (spans : list (Z * Z)) :
  is_bytes f ->
  read_header f = Ok h ->
  open_tiff fuel f = Ok tf ->
  directories tf = pre ++ d :: post ->
  ForallOrdPairs ranges_disjoint (tiff_ranges h (directories tf)) ->
  strip_values f (tf_dialect tf) d = Ok (offs, lens) ->
  spans = strip_spans (tf_dialect tf) (out_pointer_offset d)
            (combine (iter_value offs) (iter_value lens)) ->
  Forall (fun s => fst s + snd s <= Z.of_nat (length f)
                   /\ Forall (ranges_disjoint s) (tiff_ranges h (directories tf))) spans ->
  (pre = [] -> dl_ndpi (tf_dialect tf) = false /\
     forall d1 post', post = d1 :: post' ->
       dl_big (tf_dialect tf) = true \/ has_tag NDPI_MAGIC d1 = false) ->
  pre ++ post <> [] ->
  delete f (tf_dialect tf) d pfx = (Ok tt, f') ->
  length f' = length f /\
  (forall s i, In s spans -> in_range s i -> byte_at f' i = 0) /\
  read_at f' (in_pointer_offset d) (d_size (tf_dialect tf))
    = read_at f (out_pointer_offset d) (d_size (tf_dialect tf)) /\
  (forall i, 0 <= i -> (forall s, In s spans -> ~ in_range s i) ->
     ~ in_range (in_pointer_offset d, d_size (tf_dialect tf)) i ->
     byte_at f' i = byte_at f i) /\
  exists tf', open_tiff fuel f' = Ok tf' /\ tf_dialect tf' = tf_dialect tf /\
              map dir_shape (directories tf') = map dir_shape (pre ++ post).
Proof.
  intros Hf Hh Ho Hds Hdis Hsv Hsp Hspb Hk0 Hne Hdel.
  destruct h as [dl0 hp].
  destruct (read_header_bounds f (dl0, hp) Hh) as (Hhp & Hn0 & _). simpl in Hhp, Hn0.
  unfold open_tiff in Ho. rewrite Hh in Ho. cbn [bind fst snd] in Ho.
  destruct (read_chain fuel f dl0 0 hp) as [[dlF ds] | e] eqn:Ec;
    cbn [bind] in Ho; [| discriminate Ho].
  cbn [fst snd] in Ho. destruct ds as [| d0' ds]; [discriminate Ho |].
  injection Ho as <-. cbn [tf_dialect directories] in *.
  rewrite Hds in Ec, Hdis, Hspb.
  unfold tiff_ranges in Hdis, Hspb. cbn [fst snd] in Hdis, Hspb.
  inversion Hdis as [| ? ? Hf0 Hdis1].
  assert (Hsp_b : Forall (fun s => fst s + snd s <= Z.of_nat (length f)) spans)
    by (eapply Forall_impl; [| exact Hspb]; intros s [Hs _]; exact Hs).
  assert (Hsp_d : forall s r, In s spans ->
            In r ((0, hp) :: chain_ranges dl0 0 hp (pre ++ d :: post)) ->
            ranges_disjoint s r)
    by (intros s r Hs Hr; rewrite Forall_forall in Hspb;
        destruct (Hspb s Hs) as [_ Hs2]; rewrite Forall_forall in Hs2; exact (Hs2 r Hr)).
  (* a byte of a read range, outside the strips and the rewritten slot, is kept *)
  assert (Hkeep_gen : forall (g : bytes) r i,
            (forall i, 0 <= i -> (forall s, In s spans -> ~ in_range s i) ->
               ~ in_range (in_pointer_offset d, d_size dlF) i -> byte_at g i = byte_at f i) ->
            In r ((0, hp) :: chain_ranges dl0 0 hp (pre ++ d :: post)) ->
            0 <= i -> in_range r i ->
            ~ in_range (in_pointer_offset d, d_size dlF) i -> byte_at g i = byte_at f i).
  { intros g r i Hk Hr Hi Hri Hns. apply Hk; [exact Hi | | exact Hns].
    intros s Hs. apply (disjoint_not_in r); [| exact Hri].
    pose proof (Hsp_d s r Hs Hr). unfold ranges_disjoint in *. lia. }
  destruct pre as [| d0 pre].
  - (* deleting the first directory *)
    destruct (Hk0 eq_refl) as [HnF Hsw]. simpl app in *.
    destruct (read_chain_first _ _ _ _ _ _ _ _ Ec)
      as (fuel0 & -> & E & Hnz & Edir & Hin & Etail).
    pose proof (read_chain_dialect_S _ _ _ _ _ _ _ Etail) as HdlF.
    assert (Hsame : next_dialect dl0 0 d = dl0).
    { unfold next_dialect in *.
      destruct (Nat.eqb 0 0 && negb (dl_big dl0) && has_tag NDPI_MAGIC d);
        [rewrite HdlF in HnF; discriminate HnF | reflexivity]. }
    rewrite Hsame in HdlF, Etail. subst dlF.
    rewrite chain_ranges_cons, Hsame in Hdis1, Hsp_d, Hkeep_gen.
    inversion Hdis1 as [| ? ? Hf1 Hdis2].
    pose proof (sizes_pos dl0) as (HY & _ & HD & _).
    pose proof (read_uint_nonneg _ _ _ _ _ Hf E) as Hd0.
    destruct (read_directory_out _ _ _ _ _ _ Hf Edir) as (Hout & _ & _).
    pose proof (read_uint_bounds f dl0 hp (d_size dl0) _ ltac:(lia) HD E) as Hinb.
    rewrite <- Hin in Hinb.
    destruct (delete_effect f f' dl0 d pfx offs lens spans Hf Hsv Hsp Hsp_b)
      as (Hl' & Hz' & Hslot' & Hk'); try lia.
    { intros s Hs. apply Hsp_d; [exact Hs |]. right; right; right.
      apply chain_ranges_head. }
    { exact Hdel. }
    assert (Hz : forall s i, In s spans -> in_range s i -> byte_at f' i = 0).
    { intros s i Hs Hsi. apply (Hz' s i Hs Hsi). rewrite Hin.
      apply (disjoint_not_in s); [| exact Hsi].
      apply Hsp_d; [exact Hs | right; left; reflexivity]. }
    split; [exact Hl' |]. split; [exact Hz |]. split; [exact Hslot' |].
    split; [exact Hk' |].
    (* reopening *)
    assert (Hh' : read_header f' = Ok (dl0, hp)).
    { apply (read_header_agree f f'); [exact Hh | lia |].
      intros i Hi. simpl in Hi. symmetry. apply (Hkeep_gen f' (0, hp) i Hk' (or_introl eq_refl));
        [lia | unfold in_range; simpl; lia |].
      rewrite Hin. unfold in_range; simpl. lia. }
    rewrite Forall_forall in Hf1.
    assert (Hframe : read_chain fuel0 f' dl0 1 (out_pointer_offset d) = Ok (dl0, post)).
    { apply (read_chain_frame fuel0 f f'); try assumption; try lia.
      intros r i Hr Hi Hri. apply (Hkeep_gen f' r i Hk'); [right; right; right; exact Hr
                                                         | exact Hi | exact Hri |].
      rewrite Hin. apply (disjoint_not_in r); [| exact Hri].
      pose proof (Hf1 r (or_intror Hr)). unfold ranges_disjoint in *. lia. }
    assert (Hq : read_uint f' dl0 hp (d_size dl0)
                 = read_uint f' dl0 (out_pointer_offset d) (d_size dl0)).
    { transitivity (read_uint f dl0 (out_pointer_offset d) (d_size dl0)).
      - unfold read_uint. rewrite <- Hin, Hslot'. reflexivity.
      - apply read_uint_agree; try lia. intros i Hi. symmetry.
        apply (Hkeep_gen f' (out_pointer_offset d, d_size dl0) i Hk');
          [right; right; right; apply chain_ranges_head | lia
          | unfold in_range; simpl; lia |].
        rewrite Hin.
        pose proof (Hf1 _ (or_intror (chain_ranges_head dl0 1 (out_pointer_offset d) post))).
        unfold ranges_disjoint, in_range in *; simpl in *. lia. }
    destruct (read_chain_shape fuel0 f' dl0 0 (out_pointer_offset d) dl0 post
                (S fuel0) 0 hp Hframe ltac:(lia) Hq) as (ds' & Hr1 & Hr2).
    { intros d1 ds1 Hp. destruct (Hsw d1 ds1 Hp) as [Hb | Hm];
        unfold next_dialect; [rewrite Hb | rewrite Hm]; rewrite ?andb_false_r; reflexivity. }
    destruct ds' as [| d1' ds'].
    + destruct post; [contradiction | discriminate Hr2].
    + exists {| tf_dialect := dl0; directories := d1' :: ds' |}.
      unfold open_tiff. rewrite Hh'. cbn [bind fst snd]. rewrite Hr1. cbn [bind fst snd].
      split; [reflexivity |]. split; [reflexivity | exact Hr2].
  - (* deleting a later directory *)
    simpl app in *.
    destruct (read_chain_first _ _ _ _ _ _ _ _ Ec)
      as (fuel0 & -> & E & Hnz & Edir & Hin0 & Etail).
    pose proof (read_chain_dialect_S _ _ _ _ _ _ _ Etail) as HdlF. subst dlF.
    set (dl1 := next_dialect dl0 0 d0) in *.
    rewrite chain_ranges_cons in Hdis1, Hsp_d, Hkeep_gen. fold dl1 in Hdis1, Hsp_d, Hkeep_gen.
    inversion Hdis1 as [| ? ? Hf1 Hdis2].
    inversion Hdis2 as [| ? ? Hf2 Hdis3].
    pose proof (sizes_pos dl0) as (HY & _ & HD & _).
    pose proof (sizes_pos dl1) as (_ & _ & HD1 & _).
    pose proof (read_uint_nonneg _ _ _ _ _ Hf E) as Hd0.
    destruct (read_directory_out _ _ _ _ _ _ Hf Edir) as (Hout & _ & _).
    destruct (chain_slot_in_ranges pre fuel0 f dl1 0 (out_pointer_offset d0) dl1 d post
                Hf ltac:(lia) Etail) as (Hsl & [v Ev] & Hin_nn & Hout_nn).
    pose proof (read_uint_bounds _ _ _ _ _ Hin_nn HD1 Ev) as Hinb.
    assert (Hos : In (out_pointer_offset d, d_size dl1)
                    (chain_ranges dl1 1 (out_pointer_offset d0) (pre ++ d :: post)))
      by apply chain_ranges_out_slot.
    destruct (delete_effect f f' dl1 d pfx offs lens spans Hf Hsv Hsp Hsp_b)
      as (Hl' & Hz' & Hslot' & Hk'); try lia.
    { intros s Hs. apply Hsp_d; [exact Hs |]. right; right; right. exact Hos. }
    { exact Hdel. }
    assert (Hz : forall s i, In s spans -> in_range s i -> byte_at f' i = 0).
    { intros s i Hs Hsi. apply (Hz' s i Hs Hsi).
      apply (disjoint_not_in s); [| exact Hsi].
      apply Hsp_d; [exact Hs | right; right; right; exact Hsl]. }
    split; [exact Hl' |]. split; [exact Hz |]. split; [exact Hslot' |].
    split; [exact Hk' |].
    rewrite chain_ranges_cons in Hf0. fold dl1 in Hf0.
    rewrite Forall_forall in Hf0, Hf1, Hf2.
    assert (Hh' : read_header f' = Ok (dl0, hp)).
    { apply (read_header_agree f f'); [exact Hh | lia |].
      intros i Hi. simpl in Hi. symmetry. apply (Hkeep_gen f' (0, hp) i Hk' (or_introl eq_refl));
        [lia | unfold in_range; simpl; lia |].
      apply (disjoint_not_in (0, hp)); [| unfold in_range; simpl; lia].
      apply Hf0. right; right; exact Hsl. }
    destruct (read_chain_splice pre fuel0 f f' dl1 0 (out_pointer_offset d0) d post Hf
                ltac:(lia) Hl' Etail Hdis3) as (ds' & Hr1 & Hr2).
    { intros r i Hr Hi Hri Hns. exact (Hkeep_gen f' r i Hk' (or_intror (or_intror (or_intror Hr)))
                                      Hi Hri Hns). }
    { exact Hslot'. }
    assert (Hc' : read_chain (S fuel0) f' dl0 0 hp = Ok (dl1, d0 :: ds')).
    { rewrite read_chain_eq.
      rewrite (read_uint_agree f' f) by
        first [lia | intros i Hi; apply (Hkeep_gen f' (hp, d_size dl0) i Hk');
          [right; left; reflexivity | lia | unfold in_range; simpl; lia |];
          apply (disjoint_not_in (hp, d_size dl0)); [| unfold in_range; simpl; lia];
          apply Hf1; right; exact Hsl].
      rewrite E. cbn [bind].
      replace (directory_offset d0 =? 0) with false by (symmetry; apply Z.eqb_neq; exact Hnz).
      rewrite (read_directory_agree f f' dl0 _ _ _ d0 Hf Edir) by
        first [lia | intros i Hi; symmetry;
          apply (Hkeep_gen f' (directory_offset d0,
                               out_pointer_offset d0 - directory_offset d0) i Hk');
          [right; right; left; reflexivity | lia | unfold in_range; simpl; lia |];
          apply (disjoint_not_in (directory_offset d0,
                                  out_pointer_offset d0 - directory_offset d0));
          [apply Hf2; exact Hsl | unfold in_range; simpl; lia]].
      cbn [bind]. change (next_dialect dl0 0 d0) with dl1. rewrite Hr1. reflexivity. }
    exists {| tf_dialect := dl1; directories := d0 :: ds' |}.
    unfold open_tiff. rewrite Hh'. cbn [bind fst snd]. rewrite Hc'. cbn [bind fst snd].
    split; [reflexivity |]. split; [reflexivity |]. simpl. rewrite Hr2. reflexivity.
Qed.

Lemma is_bytes_check (f : bytes) :
  forallb (fun b => (0 <=? b) && (b <? 256)) f = true -> is_bytes f.
Proof.
  intros H. unfold is_bytes. rewrite Forall_forall. intros b Hb.
  rewrite forallb_forall in H. specialize (H b Hb).
  apply andb_prop in H as [H1 H2]. apply Z.leb_le in H1. apply Z.ltb_lt in H2. lia.
Qed.

Lemma delete_splices_directory_witness :
  exists (h : dialect * Z) (tf : TiffFile) (d0 d d2 : TiffDirectory)
         (offs lens : pyvalue) (f' : bytes),
    read_header tiff_strip_in_ifd1 = Ok h /\
    open_tiff 10 tiff_strip_in_ifd1 = Ok tf /\
    directories tf = [d0] ++ d :: [d2] /\
    strip_values tiff_strip_in_ifd1 (tf_dialect tf) d = Ok (offs, lens) /\
    delete tiff_strip_in_ifd1 (tf_dialect tf) d [] = (Ok tt, f') /\
    length f' = length tiff_strip_in_ifd1 /\
    (exists tf', open_tiff 10 f' = Ok tf' /\ tf_dialect tf' = tf_dialect tf /\
                 map dir_shape (directories tf') = map dir_shape [d0; d2]).
Proof.
  destruct (read_header tiff_strip_in_ifd1) as [h |] eqn:Hh;
    [| vm_compute in Hh; discriminate Hh].
  destruct (open_tiff 10 tiff_strip_in_ifd1) as [[dl ds] |] eqn:Ho;
    [| vm_compute in Ho; discriminate Ho].
  assert (Hv := Ho). vm_compute in Hv. injection Hv as Edl Eds.
  assert (Hhv := Hh). vm_compute in Hhv. injection Hhv as Eh.
  destruct ds as [| d0 [| d1 [| d2 [| d3 ds]]]]; try discriminate Eds.
  injection Eds as E0 E1 E2.
  destruct (strip_values tiff_strip_in_ifd1 dl d1) as [[offs lens] |] eqn:Hsv;
    [| subst; vm_compute in Hsv; discriminate Hsv].
  destruct (delete tiff_strip_in_ifd1 dl d1 []) as [r f'] eqn:Hdel.
  assert (Hr : r = Ok tt)
    by (subst; vm_compute in Hdel; injection Hdel as Hr _; symmetry; exact Hr).
  subst r.
  assert (Hranges : tiff_ranges h [d0; d1; d2]
                    = [(0, 4); (4, 4); (8, 14); (22, 4); (26, 26); (52, 4); (56, 14); (70, 4)])
    by (subst; reflexivity).
  assert (Hspans : strip_spans dl (out_pointer_offset d1)
                     (combine (iter_value offs) (iter_value lens)) = [(74, 2)])
    by (subst; vm_compute in Hsv; injection Hsv as <- <-; reflexivity).
  destruct (delete_splices_directory 10 tiff_strip_in_ifd1 f' h
              {| tf_dialect := dl; directories := [d0; d1; d2] |} [d0] [d2] d1 []
              offs lens [(74, 2)])
    as (Hl & _ & _ & _ & Hre).
  - apply is_bytes_check. vm_compute. reflexivity.
  - exact Hh.
  - exact Ho.
  - reflexivity.
  - cbn [directories]. rewrite Hranges.
    repeat (apply FOP_cons || apply FOP_nil || apply Forall_cons || apply Forall_nil);
      unfold ranges_disjoint; simpl; lia.
  - exact Hsv.
  - exact (eq_sym Hspans).
  - cbn [directories]. rewrite Hranges.
    apply Forall_cons; [| apply Forall_nil]. split.
    + vm_compute. discriminate.
    + repeat (apply Forall_cons || apply Forall_nil); unfold ranges_disjoint; simpl; lia.
  - intros Hc. discriminate Hc.
  - simpl. discriminate.
  - exact Hdel.
  - exists h, {| tf_dialect := dl; directories := [d0; d1; d2] |}, d0, d1, d2,
      offs, lens, f'.
    repeat split; first [reflexivity | assumption | exact Hre].
Defined.

(** C1, counterexample: in [tiff_magic_in_ifd1], a classic TIFF whose IFD 1
    carries tag 65420, deleting IFD 0 succeeds, but the reopened file takes
    IFD 1 as its first directory, switches to NDPI mode and fails to parse,
    instead of listing IFDs 1 and 2. *)
Lemma delete_first_directory_switches_ndpi :
  match open_tiff 10 tiff_magic_in_ifd1 with
  | Err _ => False
  | Ok tf =>
      dl_ndpi (tf_dialect tf) = false /\
      match directories tf with
      | [] => False
      | d0 :: rest =>
          length rest = 2%nat /\
          fst (delete tiff_magic_in_ifd1 (tf_dialect tf) d0 []) = Ok tt /\
          open_tiff 10 (snd (delete tiff_magic_in_ifd1 (tf_dialect tf) d0 []))
          = Err StructError
      end
  end.
Proof. vm_compute. repeat split. Qed.

(** ** Opening a TIFF file *)

Lemma read_at_0_2 (f : bytes) : read_at f 0 2 = firstn 2 f.
Proof. rewrite read_at_eq by lia. reflexivity. Qed.

(** X1: [TiffFile.__init__] accepts a header only as "II" or "MM" followed
    by version 42 (classic, first IFD pointer at 4) or by 43, 8, 0
    (BigTIFF, first pointer at 8), never in NDPI mode; any other first two
    bytes make it raise UnrecognizedFile. *)
Theorem read_header_accepts (f : bytes) :
  (forall dl p, read_header f = Ok (dl, p) ->
     dl_ndpi dl = false /\
     firstn 2 f = (if dl_le dl then [73; 73] else [77; 77]) /\
     ((dl_big dl = false /\ p = 4 /\ read_uint f dl 2 2 = Ok 42) \/
      (dl_big dl = true /\ p = 8 /\ read_uint f dl 2 2 = Ok 43 /\
       read_uint f dl 4 2 = Ok 8 /\ read_uint f dl 6 2 = Ok 0))) /\
  (firstn 2 f <> [73; 73] -> firstn 2 f <> [77; 77] ->
     forall fuel, open_tiff fuel f = Err UnrecognizedFile).
Proof.
  split.
  - intros dl p H. unfold read_header in H. rewrite read_at_0_2 in H.
    assert (Hle : exists lb : bool, firstn 2 f = (if lb then [73; 73] else [77; 77]) /\
              (if bytes_eqb (firstn 2 f) [73; 73] then Ok true
               else if bytes_eqb (firstn 2 f) [77; 77] then Ok false
               else Err UnrecognizedFile) = Ok lb).
    { destruct (bytes_eqb (firstn 2 f) [73; 73]) eqn:E1.
      - exists true. apply bytes_eqb_eq in E1. split; [exact E1 | reflexivity].
      - destruct (bytes_eqb (firstn 2 f) [77; 77]) eqn:E2; [| discriminate H].
        exists false. apply bytes_eqb_eq in E2. split; [exact E2 | reflexivity]. }
    destruct Hle as (lb & Hf & Hm). rewrite Hm in H. cbn [bind] in H.
    bind_inv H. destruct (a =? 42) eqn:E42.
    + injection H as <- <-. apply Z.eqb_eq in E42. subst a.
      split; [reflexivity |]. split; [exact Hf |]. left. auto.
    + destruct (a =? 43) eqn:E43; [| discriminate H]. apply Z.eqb_eq in E43. subst a.
      bind_inv H. bind_inv H.
      destruct ((a =? 8) && (a0 =? 0)) eqn:Em; [| discriminate H].
      apply andb_prop in Em as [Ea Eb]. apply Z.eqb_eq in Ea, Eb. subst.
      injection H as <- <-. split; [reflexivity |]. split; [exact Hf |].
      right. auto.
  - intros H1 H2 fuel. unfold open_tiff, read_header. rewrite read_at_0_2.
    destruct (bytes_eqb (firstn 2 f) [73; 73]) eqn:E1;
      [apply bytes_eqb_eq in E1; contradiction |].
    destruct (bytes_eqb (firstn 2 f) [77; 77]) eqn:E2;
      [apply bytes_eqb_eq in E2; contradiction |].
    reflexivity.
Qed.

Lemma read_header_accepts_witness :
  (forall dl p, read_header tiff_strip_in_ifd1 = Ok (dl, p) ->
     dl_ndpi dl = false /\
     firstn 2 tiff_strip_in_ifd1 = (if dl_le dl then [73; 73] else [77; 77]) /\
     ((dl_big dl = false /\ p = 4 /\ read_uint tiff_strip_in_ifd1 dl 2 2 = Ok 42) \/
      (dl_big dl = true /\ p = 8 /\ read_uint tiff_strip_in_ifd1 dl 2 2 = Ok 43 /\
       read_uint tiff_strip_in_ifd1 dl 4 2 = Ok 8 /\
       read_uint tiff_strip_in_ifd1 dl 6 2 = Ok 0))) /\
  read_header tiff_strip_in_ifd1
    = Ok ({| dl_le := true; dl_big := false; dl_ndpi := false |}, 4) /\
  open_tiff 10 (skipn 1 tiff_strip_in_ifd1) = Err UnrecognizedFile.
Proof.
  destruct (read_header_accepts tiff_strip_in_ifd1) as [H1 _].
  destruct (read_header_accepts (skipn 1 tiff_strip_in_ifd1)) as [_ H2].
  split; [exact H1 |]. split; [vm_compute; reflexivity |].
  apply H2; vm_compute; discriminate.
Defined.

Lemma read_entries_set_ndpi (f : bytes) (dl : dialect) (n : nat) :
  forall pos acc, read_entries f (set_ndpi dl) n pos acc = read_entries f dl n pos acc.
Proof.
  induction n as [| n IH]; intros pos acc; cbn [read_entries]; [reflexivity |].
  change (read_entry f (set_ndpi dl) pos) with (read_entry f dl pos).
  change (entry_size (set_ndpi dl)) with (entry_size dl).
  destruct (read_entry f dl pos); cbn [bind]; [apply IH | reflexivity].
Qed.

Lemma read_directory_set_ndpi (f : bytes) (dl : dialect) (doff : Z) (num : nat) (ip : Z) :
  read_directory f (set_ndpi dl) doff num ip = read_directory f dl doff num ip.
Proof.
  unfold read_directory.
  change (read_uint f (set_ndpi dl) doff (y_size (set_ndpi dl)))
    with (read_uint f dl doff (y_size dl)).
  change (y_size (set_ndpi dl)) with (y_size dl).
  change (entry_size (set_ndpi dl)) with (entry_size dl).
  destruct (read_uint f dl doff (y_size dl)); cbn [bind]; [| reflexivity].
  rewrite read_entries_set_ndpi. reflexivity.
Qed.

Lemma read_directory_next_dialect (f : bytes) (dl : dialect) (m : nat) (d : TiffDirectory)
    (doff : Z) (num : nat) (ip : Z) :
  read_directory f (next_dialect dl m d) doff num ip = read_directory f dl doff num ip.
Proof.
  unfold next_dialect.
  destruct (Nat.eqb m 0 && negb (dl_big dl) && has_tag NDPI_MAGIC d);
    [apply read_directory_set_ndpi | reflexivity].
Qed.

Lemma read_chain_nil (fuel : nat) (f : bytes) (dl : dialect) (n : nat) (p : Z)
    (dl' : dialect) :
  read_chain fuel f dl n p = Ok (dl', []) ->
  dl' = dl /\ read_uint f dl p (d_size dl) = Ok 0.
Proof.
  intros H. rewrite read_chain_eq in H. bind_inv H.
  destruct (a =? 0) eqn:Ea.
  - apply Z.eqb_eq in Ea. subst a. injection H as <-. auto.
  - destruct fuel; [discriminate H |]. bind_inv H. bind_inv H.
    destruct a1. discriminate H.
Qed.

Lemma read_chain_nth (fuel : nat) :
  forall f dl n p dl' ds,
  read_chain fuel f dl n p = Ok (dl', ds) ->
  forall k d, nth_error ds k = Some d ->
    number d = (n + k)%nat /\ directory_offset d <> 0 /\
    read_directory f dl (directory_offset d) (n + k) (in_pointer_offset d) = Ok d /\
    read_uint f (if Nat.eqb k 0 then dl else dl') (in_pointer_offset d)
      (d_size (if Nat.eqb k 0 then dl else dl')) = Ok (directory_offset d) /\
    (k = 0%nat -> in_pointer_offset d = p) /\
    (forall d', nth_error ds (S k) = Some d' -> in_pointer_offset d' = out_pointer_offset d) /\
    (nth_error ds (S k) = None ->
       read_uint f dl' (out_pointer_offset d) (d_size dl') = Ok 0).
Proof.
  induction fuel as [| fuel IH]; intros f dl n p dl' ds H k d Hk;
    (destruct ds as [| d0 rest]; [destruct k; discriminate Hk |]);
    destruct (read_chain_first _ f dl n p dl' d0 rest H)
      as (fuel0 & Hf & Hp & Hnz & Hrd & Hip & Hr); try discriminate Hf.
  injection Hf as <-.
  pose proof (read_chain_dialect_S fuel f _ n _ _ _ Hr) as Hdl.
  destruct k as [| k].
  - injection Hk as <-. rewrite Nat.add_0_r.
    destruct (read_directory_fields f dl _ n p d0 Hrd) as (cnt & _ & _ & _ & _ & Hn & _).
    split; [exact Hn |]. split; [exact Hnz |]. split; [rewrite Hip; exact Hrd |].
    split; [rewrite Hip; exact Hp |]. split; [intros _; exact Hip |]. split.
    + intros d' Hd'. destruct rest as [| d1 rest']; [discriminate Hd' |].
      injection Hd' as <-.
      destruct (IH f _ _ _ _ _ Hr 0%nat d1 eq_refl) as (_ & _ & _ & _ & Hin & _).
      apply Hin. reflexivity.
    + intros Hnone. destruct rest as [| d1 rest']; [| discriminate Hnone].
      destruct (read_chain_nil fuel f _ _ _ _ Hr) as [Heq H0]. rewrite Heq. exact H0.
  - simpl in Hk. subst dl'.
    destruct (IH f _ _ _ _ _ Hr k d Hk) as (Hn & Hnz' & Hrd' & Hp' & Hip' & Hnext & Hlast).
    replace (n + S k)%nat with (S n + k)%nat by lia.
    split; [exact Hn |]. split; [exact Hnz' |]. split.
    + rewrite <- (read_directory_next_dialect f dl n d0). exact Hrd'.
    + split; [| split; [intros Hc; discriminate Hc | split; [exact Hnext |]]].
      * simpl. destruct (Nat.eqb k 0); exact Hp'.
      * exact Hlast.
Qed.

Lemma open_tiff_inv (fuel : nat) (f : bytes) (tf : TiffFile) :
  open_tiff fuel f = Ok tf ->
  exists dl0 p0, read_header f = Ok (dl0, p0) /\
    read_chain fuel f dl0 0 p0 = Ok (tf_dialect tf, directories tf) /\
    directories tf <> [].
Proof.
  unfold open_tiff. intros H. bind_inv H. bind_inv H. destruct a as [dl0 p0].
  destruct a0 as [dl ds]. simpl in H, E0.
  destruct ds as [| d ds]; [discriminate H |]. injection H as <-.
  exists dl0, p0. split; [reflexivity |]. split; [exact E0 | discriminate].
Qed.

(** X2: the directories [TiffFile.__init__] returns are the IFD chain as
    stored: directory [k] has number [k], a nonzero offset held by the
    pointer at its [in_pointer_offset] (the header's pointer for [k = 0],
    read in the header's dialect), it is the directory stored there, the
    next directory's [in_pointer_offset] is its [out_pointer_offset], and
    the last directory's next pointer holds 0. *)
Theorem open_tiff_chain (fuel : nat) (f : bytes) (tf : TiffFile) :
  open_tiff fuel f = Ok tf ->
  exists dl0 p0, read_header f = Ok (dl0, p0) /\ directories tf <> [] /\
  forall k d, nth_error (directories tf) k = Some d ->
    number d = k /\ directory_offset d <> 0 /\
    read_directory f (tf_dialect tf) (directory_offset d) k (in_pointer_offset d) = Ok d /\
    read_uint f (if Nat.eqb k 0 then dl0 else tf_dialect tf) (in_pointer_offset d)
      (d_size (if Nat.eqb k 0 then dl0 else tf_dialect tf)) = Ok (directory_offset d) /\
    (k = 0%nat -> in_pointer_offset d = p0) /\
    (forall d', nth_error (directories tf) (S k) = Some d' ->
       in_pointer_offset d' = out_pointer_offset d) /\
    (nth_error (directories tf) (S k) = None ->
       read_uint f (tf_dialect tf) (out_pointer_offset d) (d_size (tf_dialect tf)) = Ok 0).
Proof.
  intros H. destruct (open_tiff_inv fuel f tf H) as (dl0 & p0 & Hh & Hc & Hne).
  exists dl0, p0. split; [exact Hh |]. split; [exact Hne |].
  intros k d Hk.
  destruct (read_chain_nth fuel f dl0 0 p0 _ _ Hc k d Hk)
    as (Hn & Hnz & Hrd & Hp & Hip & Hnext & Hlast).
  rewrite Nat.add_0_l in Hn, Hrd.
  split; [exact Hn |]. split; [exact Hnz |]. split; [| auto].
  destruct (directories tf) as [| d0 rest] eqn:Eds; [contradiction |].
  destruct (read_chain_first _ _ _ _ _ _ _ _ Hc) as (fuel0 & _ & _ & _ & _ & _ & Hr).
  assert (Hdl : tf_dialect tf = next_dialect dl0 0 d0).
  { destruct rest as [| d1 rest'].
    - exact (proj1 (read_chain_nil _ _ _ _ _ _ Hr)).
    - exact (read_chain_dialect_S _ _ _ _ _ _ _ Hr). }
  rewrite Hdl, read_directory_next_dialect. exact Hrd.
Qed.

Lemma open_tiff_chain_witness :
  exists tf, open_tiff 10 tiff_strip_in_ifd1 = Ok tf /\
  exists dl0 p0, read_header tiff_strip_in_ifd1 = Ok (dl0, p0) /\ directories tf <> [] /\
  forall k d, nth_error (directories tf) k = Some d ->
    number d = k /\ directory_offset d <> 0 /\
    read_directory tiff_strip_in_ifd1 (tf_dialect tf) (directory_offset d) k
      (in_pointer_offset d) = Ok d /\
    read_uint tiff_strip_in_ifd1 (if Nat.eqb k 0 then dl0 else tf_dialect tf)
      (in_pointer_offset d) (d_size (if Nat.eqb k 0 then dl0 else tf_dialect tf))
      = Ok (directory_offset d) /\
    (k = 0%nat -> in_pointer_offset d = p0) /\
    (forall d', nth_error (directories tf) (S k) = Some d' ->
       in_pointer_offset d' = out_pointer_offset d) /\
    (nth_error (directories tf) (S k) = None ->
       read_uint tiff_strip_in_ifd1 (tf_dialect tf) (out_pointer_offset d)
         (d_size (tf_dialect tf)) = Ok 0).
Proof.
  destruct (open_tiff 10 tiff_strip_in_ifd1) as [tf |] eqn:H;
    [| vm_compute in H; discriminate H].
  exists tf. split; [reflexivity |]. exact (open_tiff_chain 10 tiff_strip_in_ifd1 tf H).
Defined.

(** X3: the dialect of an opened file: byte order and BigTIFF come from the
    header, and NDPI mode is on exactly when the file is classic and its
    first directory has tag 65420. *)
Theorem open_tiff_dialect (fuel : nat) (f : bytes) (tf : TiffFile) :
  open_tiff fuel f = Ok tf ->
  exists dl0 p0 d0 rest,
    read_header f = Ok (dl0, p0) /\ directories tf = d0 :: rest /\
    dl_ndpi dl0 = false /\
    tf_dialect tf = if negb (dl_big dl0) && has_tag NDPI_MAGIC d0 then set_ndpi dl0 else dl0.
Proof.
  intros H. destruct (open_tiff_inv fuel f tf H) as (dl0 & p0 & Hh & Hc & Hne).
  destruct (directories tf) as [| d0 rest] eqn:Eds; [contradiction |].
  exists dl0, p0, d0, rest. split; [exact Hh |]. split; [reflexivity |].
  split; [exact (proj1 (proj2 (read_header_bounds f (dl0, p0) Hh))) |].
  destruct (read_chain_first _ _ _ _ _ _ _ _ Hc) as (fuel0 & _ & _ & _ & _ & _ & Hr).
  destruct rest as [| d1 rest'].
  - destruct (read_chain_nil _ _ _ _ _ _ Hr) as [-> _]. reflexivity.
  - rewrite (read_chain_dialect_S _ _ _ _ _ _ _ Hr). reflexivity.
Qed.

Lemma open_tiff_dialect_witness :
  exists tf, open_tiff 10 ndpi_no_sourcelens = Ok tf /\ dl_ndpi (tf_dialect tf) = true /\
  exists dl0 p0 d0 rest,
    read_header ndpi_no_sourcelens = Ok (dl0, p0) /\ directories tf = d0 :: rest /\
    dl_ndpi dl0 = false /\
    tf_dialect tf = if negb (dl_big dl0) && has_tag NDPI_MAGIC d0 then set_ndpi dl0 else dl0.
Proof.
  destruct (open_tiff 10 ndpi_no_sourcelens) as [tf |] eqn:H;
    [| vm_compute in H; discriminate H].
  exists tf. split; [reflexivity |].
  split; [vm_compute in H; injection H as <-; reflexivity |].
  exact (open_tiff_dialect 10 ndpi_no_sourcelens tf H).
Defined.

(** X4: a file whose first IFD pointer is 0 has no directories:
    [TiffFile.__init__] raises IOError('No directories'). *)
Theorem open_tiff_no_directories (fuel : nat) (f : bytes) (dl0 : dialect) (p0 : Z) :
  read_header f = Ok (dl0, p0) -> read_uint f dl0 p0 (d_size dl0) = Ok 0 ->
  open_tiff fuel f = Err (IOError "No directories").
Proof.
  intros Hh Hp. unfold open_tiff. rewrite Hh. cbn [bind fst snd].
  rewrite read_chain_eq, Hp. reflexivity.
Qed.

Lemma open_tiff_no_directories_witness :
  open_tiff 10 tiff_no_ifd = Err (IOError "No directories").
Proof.
  apply (open_tiff_no_directories 10 tiff_no_ifd
           {| dl_le := true; dl_big := false; dl_ndpi := false |} 4);
    vm_compute; reflexivity.
Defined.

(** ** MRXS: the keys of a nonhier level *)

Lemma format_d_aux_app (fuel : nat) :
  forall n acc, format_d_aux fuel n acc = format_d_aux fuel n [] ++ acc.
Proof.
  induction fuel as [| k IH]; intros n acc; cbn [format_d_aux]; [reflexivity |].
  destruct (n <? 10)%nat; [reflexivity |].
  set (x := 48 + Z.of_nat (n mod 10)).
  rewrite (IH (n / 10)%nat (x :: acc)), (IH (n / 10)%nat [x]).
  rewrite <- app_assoc. reflexivity.
Qed.

Lemma format_d_aux_fuel (fuel : nat) :
  forall fuel' n acc, (n < fuel)%nat -> (n < fuel')%nat ->
  format_d_aux fuel n acc = format_d_aux fuel' n acc.
Proof.
  induction fuel as [| k IH]; intros fuel' n acc H H'; [lia |].
  destruct fuel' as [| k']; [lia |]. cbn [format_d_aux].
  destruct (n <? 10)%nat eqn:E; [reflexivity |].
  apply Nat.ltb_ge in E.
  assert (n / 10 < n)%nat by (apply Nat.div_lt; lia).
  apply IH; lia.
Qed.

Lemma format_d_last (n : nat) :
  format_d n = (if (n <? 10)%nat then [] else format_d (n / 10))
               ++ [48 + Z.of_nat (n mod 10)].
Proof.
  unfold format_d. cbn [format_d_aux].
  destruct (n <? 10)%nat eqn:E; [reflexivity |].
  apply Nat.ltb_ge in E.
  assert (n / 10 < n)%nat by (apply Nat.div_lt; lia).
  rewrite format_d_aux_app.
  rewrite (format_d_aux_fuel n (S (n / 10))) by lia. reflexivity.
Qed.

Lemma format_d_nonempty (n : nat) : format_d n <> [].
Proof.
  rewrite format_d_last. intros H. apply app_eq_nil in H as [_ H]. discriminate H.
Qed.

Lemma format_d_inj (a : nat) : forall b, format_d a = format_d b -> a = b.
Proof.
  induction a as [a IH] using (well_founded_induction lt_wf). intros b H.
  rewrite (format_d_last a), (format_d_last b) in H.
  apply app_inj_tail in H as [Hp Hl].
  assert (Hm : (a mod 10 = b mod 10)%nat) by lia.
  destruct (a <? 10)%nat eqn:Ea, (b <? 10)%nat eqn:Eb.
  - apply Nat.ltb_lt in Ea, Eb. rewrite !Nat.mod_small in Hm by lia. exact Hm.
  - exfalso. exact (format_d_nonempty _ (eq_sym Hp)).
  - exfalso. exact (format_d_nonempty _ Hp).
  - apply Nat.ltb_ge in Ea, Eb.
    assert (a / 10 < a)%nat by (apply Nat.div_lt; lia).
    apply IH in Hp; [| lia].
    rewrite (Nat.div_mod_eq a 10), (Nat.div_mod_eq b 10), Hp, Hm. reflexivity.
Qed.

Lemma format_d_aux_digits (fuel : nat) :
  forall n acc, all_digits acc -> all_digits (format_d_aux fuel n acc).
Proof.
  induction fuel as [| k IH]; intros n acc H; cbn [format_d_aux]; [exact H |].
  assert (Hx : all_digits ((48 + Z.of_nat (n mod 10)) :: acc)).
  { constructor; [| exact H].
    pose proof (Nat.mod_upper_bound n 10 ltac:(lia)). lia. }
  destruct (n <? 10)%nat; [exact Hx | apply IH, Hx].
Qed.

Lemma format_d_digits (n : nat) : all_digits (format_d n).
Proof. apply format_d_aux_digits. constructor. Qed.

Lemma digits_no_underscore (a a' r : bytes) :
  all_digits a -> a = a' ++ 95 :: r -> False.
Proof.
  intros Ha ->. unfold all_digits in Ha. rewrite Forall_forall in Ha.
  specialize (Ha 95 ltac:(apply in_or_app; right; left; reflexivity)). lia.
Qed.

Lemma digits_split (a : bytes) :
  forall a' r r', all_digits a -> all_digits a' ->
  a ++ 95 :: r = a' ++ 95 :: r' -> a = a' /\ r = r'.
Proof.
  induction a as [| x a IH]; intros [| y a'] r r' Ha Ha' H; simpl in H.
  - injection H as ->. split; reflexivity.
  - injection H as Hy _. inversion Ha'. lia.
  - injection H as Hx _. inversion Ha. lia.
  - injection H as -> H. inversion Ha. inversion Ha'.
    destruct (IH a' r r') as [-> ->]; [assumption .. |]. split; reflexivity.
Qed.

Lemma startswith_app (s p : bytes) :
  startswith s p = true -> s = p ++ skipn (length p) s.
Proof.
  unfold startswith. intros H. apply bytes_eqb_eq in H.
  rewrite <- H at 1. rewrite firstn_skipn. reflexivity.
Qed.

Lemma startswith_self (p r : bytes) : startswith (p ++ r) p = true.
Proof.
  unfold startswith. apply bytes_eqb_eq.
  rewrite firstn_app, Nat.sub_diag, firstn_O, app_nil_r, firstn_all. reflexivity.
Qed.

(** The test of [_hier_keys_for_level]:
    [k == key_prefix or k.startswith(key_prefix + '_')]. *)
Lemma level_key_match (k p : bytes) :
  bytes_eqb k p || startswith k (p ++ bstr "_") = true ->
  exists t, k = p ++ t /\ (t = [] \/ exists r, t = 95 :: r).
Proof.
  intros H. apply orb_prop in H as [H | H].
  - apply bytes_eqb_eq in H. subst. exists []. rewrite app_nil_r. auto.
  - apply startswith_app in H. rewrite <- app_assoc in H. simpl in H.
    eexists. split; [exact H | right; eexists; reflexivity].
Qed.

Lemma level_key_shape (l i : nat) (k : bytes) :
  bytes_eqb k (level_key_prefix l i)
  || startswith k (level_key_prefix l i ++ bstr "_") = true ->
  exists t, k = bstr "NONHIER_" ++ format_d l ++ 95 :: bstr "VAL_" ++ format_d i ++ t
            /\ (t = [] \/ exists r, t = 95 :: r).
Proof.
  intros H. destruct (level_key_match _ _ H) as (t & -> & Ht).
  exists t. split; [| exact Ht]. unfold level_key_prefix. rewrite <- !app_assoc.
  reflexivity.
Qed.

Lemma level_keys_disjoint (l i l' j : nat) (k : bytes) :
  bytes_eqb k (level_key_prefix l i)
  || startswith k (level_key_prefix l i ++ bstr "_") = true ->
  bytes_eqb k (level_key_prefix l' j)
  || startswith k (level_key_prefix l' j ++ bstr "_") = true ->
  l = l' /\ i = j.
Proof.
  intros H1 H2.
  destruct (level_key_shape l i k H1) as (t & E1 & Ht).
  destruct (level_key_shape l' j k H2) as (t' & E2 & Ht').
  rewrite E1 in E2. apply app_inv_head in E2.
  destruct (digits_split _ _ _ _ (format_d_digits l) (format_d_digits l') E2)
    as [Hl E3].
  apply app_inv_head in E3.
  pose proof (format_d_digits i) as Di. pose proof (format_d_digits j) as Dj.
  split; [exact (format_d_inj _ _ Hl) |]. apply format_d_inj.
  destruct Ht as [-> | (r & ->)], Ht' as [-> | (r' & ->)];
    rewrite ?app_nil_r in E3.
  - exact E3.
  - exfalso. exact (digits_no_underscore _ _ _ Di E3).
  - exfalso. exact (digits_no_underscore _ _ _ Dj (eq_sym E3)).
  - exact (proj1 (digits_split _ _ _ _ Di Dj E3)).
Qed.

Lemma hier_keys_match (dat : Ini) (p : bytes) (ks : list bytes) (k : bytes) :
  hier_keys_for_level dat p = Ok ks -> In k ks ->
  bytes_eqb k p || startswith k (p ++ bstr "_") = true.
Proof.
  unfold hier_keys_for_level. intros H Hk.
  destruct (ini_items dat MRXS_HIERARCHICAL) as [items |]; [| discriminate H].
  injection H as <-. apply in_map_iff in Hk as ([k' v] & <- & Hin).
  apply filter_In in Hin as [_ Hin]. exact Hin.
Qed.

(** X21: the keys [_hier_keys_for_level] collects for two different levels
    never overlap, so deleting or renaming the keys of one level never
    touches a key of another level (the [_] guard keeps
    NONHIER_0_VAL_1 from taking NONHIER_0_VAL_10). *)
Theorem hier_keys_disjoint (dat : Ini) (l i l' j : nat) (ks ks' : list bytes) :
  (l, i) <> (l', j) ->
  hier_keys_for_level dat (level_key_prefix l i) = Ok ks ->
  hier_keys_for_level dat (level_key_prefix l' j) = Ok ks' ->
  forall k, In k ks -> ~ In k ks'.
Proof.
  intros Hne H1 H2 k Hk Hk'.
  destruct (level_keys_disjoint l i l' j k (hier_keys_match _ _ _ _ H1 Hk)
              (hier_keys_match _ _ _ _ H2 Hk')) as [-> ->].
  apply Hne. reflexivity.
Qed.

Lemma hier_keys_disjoint_witness :
  exists ks ks',
    hier_keys_for_level slidedat_levels (level_key_prefix 0 1) = Ok ks /\
    hier_keys_for_level slidedat_levels (level_key_prefix 0 10) = Ok ks' /\
    ks = [bstr "NONHIER_0_VAL_1"; bstr "NONHIER_0_VAL_1_SECTION"] /\
    forall k, In k ks -> ~ In k ks'.
Proof.
  destruct (hier_keys_for_level slidedat_levels (level_key_prefix 0 1)) as [ks |] eqn:H1;
    [| vm_compute in H1; discriminate H1].
  destruct (hier_keys_for_level slidedat_levels (level_key_prefix 0 10)) as [ks' |] eqn:H2;
    [| vm_compute in H2; discriminate H2].
  exists ks, ks'. split; [reflexivity |]. split; [reflexivity |].
  split; [vm_compute in H1; injection H1 as <-; reflexivity |].
  apply (hier_keys_disjoint slidedat_levels 0 1 0 10 ks ks');
    [intros Hc; discriminate Hc | exact H1 | exact H2].
Defined.

(** X22: in the renaming loop of [delete_level], every key [k] collected for
    the next level is [cur_prefix] followed by a suffix that is empty or
    starts with [_]; [k.replace(cur_prefix, prev_prefix, 1)] puts
    [prev_prefix] in front of that same suffix, so the renamed key is one
    [_hier_keys_for_level] collects for the previous level. *)
Theorem rename_key_keeps_suffix (dat : Ini) (cur prev : bytes) (ks : list bytes)
    (k : bytes) :
  hier_keys_for_level dat cur = Ok ks -> In k ks ->
  exists suffix,
    k = cur ++ suffix /\ py_replace1 k cur prev = prev ++ suffix /\
    bytes_eqb (prev ++ suffix) prev || startswith (prev ++ suffix) (prev ++ bstr "_")
    = true.
Proof.
  intros H Hk. destruct (level_key_match k cur (hier_keys_match _ _ _ _ H Hk))
    as (t & -> & Ht).
  exists t. split; [reflexivity |]. split.
  - destruct (cur ++ t) eqn:E; unfold py_replace1; fold py_replace1;
      rewrite <- E, startswith_self, skipn_app, skipn_all, Nat.sub_diag; reflexivity.
  - destruct Ht as [-> | (r & ->)].
    + rewrite app_nil_r. replace (bytes_eqb prev prev) with true
        by (symmetry; apply bytes_eqb_eq; reflexivity). reflexivity.
    + apply orb_true_intro. right.
      change (95 :: r) with (bstr "_" ++ r). rewrite app_assoc. apply startswith_self.
Qed.

Lemma rename_key_keeps_suffix_witness :
  exists ks,
    hier_keys_for_level slidedat_levels (level_key_prefix 0 10) = Ok ks /\
    In (bstr "NONHIER_0_VAL_10_SECTION") ks /\
    exists suffix,
      bstr "NONHIER_0_VAL_10_SECTION" = level_key_prefix 0 10 ++ suffix /\
      py_replace1 (bstr "NONHIER_0_VAL_10_SECTION") (level_key_prefix 0 10)
        (level_key_prefix 0 1) = level_key_prefix 0 1 ++ suffix /\
      bytes_eqb (level_key_prefix 0 1 ++ suffix) (level_key_prefix 0 1)
      || startswith (level_key_prefix 0 1 ++ suffix) (level_key_prefix 0 1 ++ bstr "_")
      = true.
Proof.
  destruct (hier_keys_for_level slidedat_levels (level_key_prefix 0 10)) as [ks |] eqn:H;
    [| vm_compute in H; discriminate H].
  assert (Hin : In (bstr "NONHIER_0_VAL_10_SECTION") ks)
    by (vm_compute in H; injection H as <-; right; left; reflexivity).
  exists ks. split; [reflexivity |]. split; [exact Hin |].
  exact (rename_key_keeps_suffix slidedat_levels _ _ ks _ H Hin).
Defined.

(** ** TiffEntry.value and overwrite_entry *)

Lemma unpack_chars (le : bool) (bs : bytes) :
  unpack_items le Fc (length bs) bs = map IChar bs.
Proof.
  induction bs as [| b r IH]; [reflexivity |].
  cbn [length unpack_items]. change (Z.to_nat (item_size Fc)) with 1%nat.
  cbn [firstn skipn]. rewrite IH. unfold unpack_item, unpack_uint.
  destruct le; cbn [le_value rev app];
    (replace (b + 256 * 0) with b by lia); reflexivity.
Qed.

Lemma unpack_bytes_signed (le : bool) (bs : bytes) :
  unpack_items le Fb (length bs) bs = map (fun x => IInt (to_signed 1 x)) bs.
Proof.
  induction bs as [| b r IH]; [reflexivity |].
  cbn [length unpack_items]. change (Z.to_nat (item_size Fb)) with 1%nat.
  cbn [firstn skipn]. rewrite IH. unfold unpack_item, unpack_uint.
  destruct le; cbn [le_value rev app];
    (replace (b + 256 * 0) with b by lia); reflexivity.
Qed.

Lemma removelast_map {A B} (g : A -> B) (l : list A) :
  removelast (map g l) = map g (removelast l).
Proof.
  induction l as [| a r IH]; [reflexivity |].
  destruct r as [| a' r']; [reflexivity |].
  change (removelast (map g (a :: a' :: r'))) with (g a :: removelast (map g (a' :: r'))).
  rewrite IH. reflexivity.
Qed.

Lemma char_of_chars (l : bytes) : map char_of (map IChar l) = l.
Proof. rewrite map_map. apply map_id. Qed.

(** The ASCII branch of [TiffEntry.value]. *)
Lemma value_ascii_eq (f : bytes) (dl : dialect) (e : TiffEntry) :
  type e = ASCII ->
  value f dl e =
    if negb (Z.of_nat (length (read_at f (payload_pos dl e (count e)) (count e)))
             =? count e) then Err StructError
    else match rev (read_at f (payload_pos dl e (count e)) (count e)) with
         | [] => Err IndexError
         | b :: _ =>
             if b =? 0
             then Ok (VBytes (removelast (read_at f (payload_pos dl e (count e)) (count e))))
             else Err (ValueError "String not null-terminated")
         end.
Proof.
  intros Ht. unfold value. rewrite Ht.
  change (format_type ASCII) with (Ok Fc). cbn [bind].
  change (item_size Fc) with 1. rewrite Z.mul_1_r.
  set (raw := read_at f (payload_pos dl e (count e)) (count e)).
  destruct (Z.of_nat (length raw) =? count e) eqn:El; [| reflexivity].
  cbn [negb]. apply Z.eqb_eq in El.
  replace (Z.to_nat (count e)) with (length raw) by lia.
  rewrite unpack_chars, (Z.eqb_refl ASCII), <- map_rev.
  destruct (rev raw) as [| b r]; [reflexivity |]. cbn [map].
  change (char_of (IChar b)) with b.
  rewrite removelast_map, char_of_chars. reflexivity.
Qed.

Lemma old_value_length_ints (l : list Z) :
  old_value_length (VTuple (map IInt l)) =
  if forallb (fun x => (0 <=? x) && (x <=? 1114111)) l
  then Ok (Z.of_nat (length l))
  else Err (ValueError "chr() arg not in range(0x110000)").
Proof.
  unfold old_value_length. cbn [iter_value]. rewrite length_map.
  match goal with |- context [fold_right ?g (Ok tt) _] => set (G := g) end.
  assert (Hf : fold_right G (Ok tt) (map IInt l) =
               if forallb (fun x => (0 <=? x) && (x <=? 1114111)) l then Ok tt
               else Err (ValueError "chr() arg not in range(0x110000)")).
  { induction l as [| x r IH]; [reflexivity |].
    cbn [map fold_right forallb]. rewrite IH. unfold G at 1. cbn beta iota.
    destruct ((0 <=? x) && (x <=? 1114111)); cbn [bind andb]; reflexivity. }
  rewrite Hf. destruct (forallb _ l); reflexivity.
Qed.

Lemma old_value_length_bytes (s : bytes) :
  is_bytes s -> old_value_length (VBytes s) = Ok (Z.of_nat (length s)).
Proof.
  intros Hs. change (old_value_length (VBytes s))
    with (old_value_length (VTuple (map IInt s))).
  rewrite old_value_length_ints.
  replace (forallb (fun x => (0 <=? x) && (x <=? 1114111)) s) with true;
    [reflexivity |].
  symmetry. apply forallb_forall. intros x Hx.
  unfold is_bytes in Hs. rewrite Forall_forall in Hs. specialize (Hs x Hx).
  apply andb_true_intro; split; [apply Z.leb_le | apply Z.leb_le]; lia.
Qed.

Lemma is_bytes_removelast (l : bytes) : is_bytes l -> is_bytes (removelast l).
Proof.
  intros H. destruct l as [| a r]; [constructor |].
  unfold is_bytes in *.
  assert (E : a :: r = removelast (a :: r) ++ [last (a :: r) 0])
    by (apply app_removelast_last; discriminate).
  rewrite E in H.
  apply Forall_app in H. exact (proj1 H).
Qed.

Lemma payload_pos_far (dl : dialect) (e : TiffEntry) :
  z_size dl < count e ->
  payload_pos dl e (count e) = near_pointer dl (start e) (value_offset e).
Proof.
  intros H. unfold payload_pos.
  replace (count e <=? z_size dl) with false by (symmetry; apply Z.leb_gt; lia).
  reflexivity.
Qed.

(** What a successful ASCII [value()] tells about the stored bytes. *)
Lemma value_ascii_ok (f : bytes) (dl : dialect) (e : TiffEntry) (s : bytes) :
  type e = ASCII -> value f dl e = Ok (VBytes s) ->
  read_at f (payload_pos dl e (count e)) (count e) = s ++ [0] /\
  count e = Z.of_nat (length s) + 1.
Proof.
  intros Ht Hv. rewrite (value_ascii_eq f dl e Ht) in Hv.
  set (raw := read_at f (payload_pos dl e (count e)) (count e)) in *.
  destruct (Z.of_nat (length raw) =? count e) eqn:El; [| discriminate Hv].
  cbn [negb] in Hv. apply Z.eqb_eq in El.
  destruct (rev raw) as [| c r] eqn:Er; [discriminate Hv |].
  destruct (c =? 0) eqn:Ec; [| discriminate Hv]. apply Z.eqb_eq in Ec. subst c.
  injection Hv as Hs.
  assert (Hraw : raw = rev r ++ [0])
    by (rewrite <- (rev_involutive raw), Er; reflexivity).
  rewrite Hraw, removelast_last in Hs. subst s.
  split; [exact Hraw |]. rewrite <- El, Hraw, length_app. simpl. lia.
Qed.

Lemma firstn_pad (l : bytes) :
  firstn (length l + 1) (l ++ repeat 0 (length l + 1)) = l ++ [0].
Proof.
  rewrite firstn_app_2. rewrite Nat.add_1_r. reflexivity.
Qed.

(** [near_pointer] returns the offset itself outside NDPI mode, and in NDPI
    mode whenever the offset lies less than 4 GiB below the base. *)
Lemma near_pointer_id (dl : dialect) (base off : Z) :
  dl_ndpi dl = false \/ base - off < 2 ^ 32 -> near_pointer dl base off = off.
Proof.
  intros H. unfold near_pointer.
  destruct (dl_ndpi dl) eqn:Hn; [| reflexivity].
  destruct H as [H | H]; [discriminate H |].
  cbn [andb]. destruct (off <? base) eqn:Hlt; [| reflexivity].
  apply Z.ltb_lt in Hlt. change (Z.shiftl 1 32) with (2 ^ 32).
  rewrite Z.div_small by lia. lia.
Qed.

(** X9: overwriting an out-of-line ASCII entry (its payload at
    [value_offset]), in a file that is not NDPI or whose payload lies less
    than 4 GiB below the entry (so that [value()] reads where
    [overwrite_entry] writes), with a string no longer than its value: the
    string is
    written at [value_offset], padded with spaces to the old length and
    NUL-terminated; no other byte changes, the file keeps its length, and
    [value()] then returns the padded string. *)
Theorem overwrite_ascii_roundtrip (f : bytes) (dl : dialect) (e : TiffEntry) (s b : bytes) :
  is_bytes f -> type e = ASCII -> z_size dl < count e -> 0 <= value_offset e ->
  dl_ndpi dl = false \/ start e - value_offset e < 2 ^ 32 ->
  value f dl e = Ok (VBytes s) -> (length b <= length s)%nat ->
  fst (overwrite_entry f dl e b) = Ok tt /\
  snd (overwrite_entry f dl e b)
    = write_at f (value_offset e) (b ++ repeat 32 (length s - length b) ++ [0]) /\
  length (snd (overwrite_entry f dl e b)) = length f /\
  (forall i, 0 <= i -> ~ (value_offset e <= i < value_offset e + count e) ->
     byte_at (snd (overwrite_entry f dl e b)) i = byte_at f i) /\
  value (snd (overwrite_entry f dl e b)) dl e
    = Ok (VBytes (b ++ repeat 32 (length s - length b))).
Proof.
  intros Hf Ht Hz Hvo Hnp0 Hv Hlen.
  pose proof (near_pointer_id dl (start e) (value_offset e) Hnp0) as Hnp.
  destruct (value_ascii_ok f dl e s Ht Hv) as [Hraw Hcnt].
  rewrite payload_pos_far, Hnp in Hraw by exact Hz.
  assert (Hsb : is_bytes s).
  { assert (Hr := bytes_read_at f (value_offset e) (count e) Hf). rewrite Hraw in Hr.
    apply Forall_app in Hr. exact (proj1 Hr). }
  assert (Hend : value_offset e + count e <= Z.of_nat (length f)).
  { apply read_at_length_le; [exact Hvo | lia |].
    rewrite Hraw, length_app. simpl. lia. }
  set (new := b ++ repeat 32 (length s - length b)).
  assert (Hnew : length new = length s)
    by (unfold new; rewrite length_app, repeat_length; lia).
  assert (Hw : overwrite_entry f dl e b = (Ok tt, write_at f (value_offset e) (new ++ [0]))).
  { unfold overwrite_entry. rewrite Ht.
    change (format_type ASCII) with (Ok Fc). cbn [bind]. rewrite Hv. cbn [bind].
    rewrite (old_value_length_bytes s Hsb), Z.eqb_refl.
    replace (Z.to_nat (Z.of_nat (length s) - Z.of_nat (length b)))
      with (length s - length b)%nat by lia.
    replace (Z.to_nat (count e)) with (length new + 1)%nat by lia.
    fold new. rewrite firstn_pad. reflexivity. }
  rewrite Hw. cbn [fst snd].
  assert (Hl0 : Z.of_nat (length (new ++ [0])) = count e)
    by (rewrite length_app; simpl; lia).
  split; [reflexivity |]. split; [unfold new; rewrite <- app_assoc; reflexivity |].
  split; [apply write_at_length; lia |]. split.
  - intros i Hi Hout. rewrite byte_at_write by lia. rewrite Hl0.
    destruct (value_offset e <=? i) eqn:E1; [| reflexivity].
    destruct (i <? value_offset e + count e) eqn:E2; [| reflexivity].
    apply Z.leb_le in E1. apply Z.ltb_lt in E2. exfalso. apply Hout. lia.
  - rewrite (value_ascii_eq _ dl e Ht). rewrite payload_pos_far, Hnp by exact Hz.
    assert (Hrd : read_at (write_at f (value_offset e) (new ++ [0])) (value_offset e)
                    (count e) = new ++ [0])
      by (rewrite <- Hl0; apply read_write_same; lia).
    rewrite Hrd, Hl0, Z.eqb_refl. cbn [negb]. rewrite rev_app_distr. cbn [rev app].
    rewrite removelast_last. reflexivity.
Qed.

Lemma overwrite_ascii_roundtrip_witness :
  let dl := {| dl_le := true; dl_big := false; dl_ndpi := false |} in
  let e := {| start := 10; tag := 270; type := ASCII; count := 6;
              value_offset := 26 |} in
  let s := bstr "hello" in
  let b := bstr "abc" in
  fst (overwrite_entry tiff_far_ascii dl e b) = Ok tt /\
  snd (overwrite_entry tiff_far_ascii dl e b)
    = write_at tiff_far_ascii (value_offset e) (b ++ repeat 32 (length s - length b) ++ [0]) /\
  length (snd (overwrite_entry tiff_far_ascii dl e b)) = length tiff_far_ascii /\
  (forall i, 0 <= i -> ~ (value_offset e <= i < value_offset e + count e) ->
     byte_at (snd (overwrite_entry tiff_far_ascii dl e b)) i = byte_at tiff_far_ascii i) /\
  value (snd (overwrite_entry tiff_far_ascii dl e b)) dl e
    = Ok (VBytes (b ++ repeat 32 (length s - length b))).
Proof.
  intros dl e s b.
  apply overwrite_ascii_roundtrip;
    [apply is_bytes_check; vm_compute; reflexivity | reflexivity
    | vm_compute; reflexivity | vm_compute; discriminate | left; reflexivity
    | vm_compute; reflexivity | vm_compute; repeat constructor].
Defined.

Lemma firstn_S_nth (l : bytes) :
  forall n, (n < length l)%nat -> firstn (S n) l = firstn n l ++ [nth n l 0].
Proof.
  induction l as [| a r IH]; intros n Hn; [simpl in Hn; lia |].
  destruct n as [| n]; [reflexivity |].
  change (firstn (S (S n)) (a :: r)) with (a :: firstn (S n) r).
  rewrite IH by (simpl in Hn; lia). reflexivity.
Qed.

(** X10: overwriting an out-of-line ASCII entry, in a file that is not NDPI
    or whose payload lies less than 4 GiB below the entry, with a string
    longer than its value: only the first [count] bytes of the string are written, without
    padding or terminator, and [value()] afterwards returns the first
    [count - 1] of them if byte [count - 1] of the string is NUL, and raises
    ValueError('String not null-terminated') otherwise. *)
Theorem overwrite_ascii_too_long (f : bytes) (dl : dialect) (e : TiffEntry) (s b : bytes) :
  is_bytes f -> type e = ASCII -> z_size dl < count e -> 0 <= value_offset e ->
  dl_ndpi dl = false \/ start e - value_offset e < 2 ^ 32 ->
  value f dl e = Ok (VBytes s) -> (length s < length b)%nat ->
  fst (overwrite_entry f dl e b) = Ok tt /\
  snd (overwrite_entry f dl e b) = write_at f (value_offset e) (firstn (length s + 1) b) /\
  value (snd (overwrite_entry f dl e b)) dl e
    = if nth (length s) b 0 =? 0 then Ok (VBytes (firstn (length s) b))
      else Err (ValueError "String not null-terminated").
Proof.
  intros Hf Ht Hz Hvo Hnp0 Hv Hlen.
  pose proof (near_pointer_id dl (start e) (value_offset e) Hnp0) as Hnp.
  destruct (value_ascii_ok f dl e s Ht Hv) as [Hraw Hcnt].
  rewrite payload_pos_far, Hnp in Hraw by exact Hz.
  assert (Hsb : is_bytes s).
  { assert (Hr := bytes_read_at f (value_offset e) (count e) Hf). rewrite Hraw in Hr.
    apply Forall_app in Hr. exact (proj1 Hr). }
  assert (Hend : value_offset e + count e <= Z.of_nat (length f)).
  { apply read_at_length_le; [exact Hvo | lia |].
    rewrite Hraw, length_app. simpl. lia. }
  set (t := firstn (length s + 1) b).
  assert (Ht1 : t = firstn (length s) b ++ [nth (length s) b 0])
    by (unfold t; rewrite Nat.add_1_r; apply firstn_S_nth; exact Hlen).
  assert (Htl : Z.of_nat (length t) = count e)
    by (unfold t; rewrite length_firstn; lia).
  assert (Hw : overwrite_entry f dl e b = (Ok tt, write_at f (value_offset e) t)).
  { unfold overwrite_entry. rewrite Ht.
    change (format_type ASCII) with (Ok Fc). cbn [bind]. rewrite Hv. cbn [bind].
    rewrite (old_value_length_bytes s Hsb), Z.eqb_refl.
    replace (Z.to_nat (Z.of_nat (length s) - Z.of_nat (length b))) with 0%nat by lia.
    cbn [repeat]. rewrite app_nil_r.
    replace (Z.to_nat (count e)) with (length s + 1)%nat by lia.
    rewrite firstn_app.
    replace (length s + 1 - length b)%nat with 0%nat by lia.
    cbn [firstn]. rewrite app_nil_r. reflexivity. }
  rewrite Hw. cbn [fst snd].
  split; [reflexivity |]. split; [reflexivity |].
  rewrite (value_ascii_eq _ dl e Ht). rewrite payload_pos_far, Hnp by exact Hz.
  assert (Hrd : read_at (write_at f (value_offset e) t) (value_offset e) (count e) = t)
    by (rewrite <- Htl; apply read_write_same; lia).
  rewrite Hrd, Htl, Z.eqb_refl. cbn [negb].
  rewrite Ht1, rev_app_distr. cbn [rev app].
  rewrite removelast_last. reflexivity.
Qed.

Lemma overwrite_ascii_too_long_witness :
  let dl := {| dl_le := true; dl_big := false; dl_ndpi := false |} in
  let e := {| start := 10; tag := 270; type := ASCII; count := 6;
              value_offset := 26 |} in
  let s := bstr "hello" in
  let b := bstr "goodbye" in
  fst (overwrite_entry tiff_far_ascii dl e b) = Ok tt /\
  snd (overwrite_entry tiff_far_ascii dl e b)
    = write_at tiff_far_ascii (value_offset e) (firstn (length s + 1) b) /\
  value (snd (overwrite_entry tiff_far_ascii dl e b)) dl e
    = if nth (length s) b 0 =? 0 then Ok (VBytes (firstn (length s) b))
      else Err (ValueError "String not null-terminated").
Proof.
  intros dl e s b.
  apply overwrite_ascii_too_long;
    [apply is_bytes_check; vm_compute; reflexivity | reflexivity
    | vm_compute; reflexivity | vm_compute; discriminate | left; reflexivity
    | vm_compute; reflexivity | vm_compute; repeat constructor].
Defined.

Lemma to_signed_1_range (x : Z) :
  0 <= x < 256 ->
  (0 <=? to_signed 1 x) && (to_signed 1 x <=? 1114111) = negb (128 <=? x).
Proof.
  intros Hx. unfold to_signed.
  change (2 ^ (8 * 1 - 1)) with 128. change (2 ^ (8 * 1)) with 256.
  destruct (Z.geb_spec x 128); destruct (Z.leb_spec 128 x); try lia;
    cbn [negb]; apply Bool.eq_true_iff_eq; rewrite andb_true_iff, !Z.leb_le; lia.
Qed.

Lemma forallb_signed (l : bytes) :
  is_bytes l ->
  forallb (fun x => (0 <=? x) && (x <=? 1114111)) (map (to_signed 1) l)
  = negb (existsb (fun x => 128 <=? x) l).
Proof.
  induction l as [| x r IH]; intros H; [reflexivity |].
  inversion H as [| ? ? Hx Hr]; subst.
  cbn [map forallb existsb]. rewrite IH by exact Hr.
  rewrite (to_signed_1_range x Hx). destruct (128 <=? x); reflexivity.
Qed.

(** X11: overwriting a BYTE entry whose stored bytes can be read.  If any
    stored byte is 128 or more (a negative signed byte) [chr()] raises
    ValueError; otherwise a string of at most [count] bytes all at most
    127 is written at [value_offset], padded with zeros to [count], and
    any other string makes [struct.pack] raise struct.error.  On an error
    the file is unchanged. *)
Theorem overwrite_byte (f : bytes) (dl : dialect) (e : TiffEntry) (b : bytes) :
  is_bytes f -> type e = BYTE ->
  Z.of_nat (length (read_at f (payload_pos dl e (count e)) (count e))) = count e ->
  overwrite_entry f dl e b =
    if existsb (fun x => 128 <=? x) (read_at f (payload_pos dl e (count e)) (count e))
    then (Err (ValueError "chr() arg not in range(0x110000)"), f)
    else if (Z.of_nat (length b) <=? count e) && forallb (fun x => x <=? 127) b
    then (Ok tt, write_at f (value_offset e)
                   (b ++ repeat 0 (Z.to_nat (count e - Z.of_nat (length b)))))
    else (Err StructError, f).
Proof.
  intros Hf Ht Hl.
  set (raw := read_at f (payload_pos dl e (count e)) (count e)) in *.
  assert (Hv : value f dl e = Ok (VTuple (map IInt (map (to_signed 1) raw)))).
  { unfold value. rewrite Ht. change (format_type BYTE) with (Ok Fb). cbn [bind].
    change (item_size Fb) with 1. rewrite Z.mul_1_r. fold raw.
    rewrite Hl, Z.eqb_refl. cbn [negb].
    replace (Z.to_nat (count e)) with (length raw) by lia.
    rewrite unpack_bytes_signed, map_map. reflexivity. }
  unfold overwrite_entry. rewrite Ht. change (format_type BYTE) with (Ok Fb).
  cbn [bind]. rewrite Hv. cbn [bind].
  rewrite old_value_length_ints, forallb_signed by (apply bytes_read_at; exact Hf).
  destruct (existsb (fun x => 128 <=? x) raw); [reflexivity |]. cbn [negb].
  rewrite length_map, Hl.
  change (BYTE =? ASCII) with false. change (BYTE =? BYTE) with true. cbv iota.
  rewrite length_app, repeat_length, forallb_app.
  assert (Hz : forallb (fun x => x <=? 127) (repeat 0 (Z.to_nat (count e - Z.of_nat (length b))))
               = true)
    by (apply forallb_forall; intros x Hx; apply repeat_spec in Hx; subst x; reflexivity).
  rewrite Hz, andb_true_r.
  destruct (Z.leb_spec (Z.of_nat (length b)) (count e)) as [Hle | Hgt].
  - replace (Z.of_nat (length b + Z.to_nat (count e - Z.of_nat (length b))) =? count e)
      with true by (symmetry; apply Z.eqb_eq; lia).
    cbn [negb andb]. reflexivity.
  - replace (Z.of_nat (length b + Z.to_nat (count e - Z.of_nat (length b))) =? count e)
      with false by (symmetry; apply Z.eqb_neq; lia).
    cbn [negb andb]. reflexivity.
Qed.

(** A classic TIFF whose IFD 0 holds a BYTE entry of 6 bytes at 26:
    1, 2, 3, 200, 5, 6. *)
Lemma overwrite_byte_witness :
  let dl := {| dl_le := true; dl_big := false; dl_ndpi := false |} in
  let e := {| start := 10; tag := 700; type := BYTE; count := 6;
              value_offset := 26 |} in
  let f := [73; 73] ++ le16 42 ++ le32 8 ++ le16 1 ++ ent 700 1 6 26 ++ le32 0
           ++ [1; 2; 3; 200; 5; 6] in
  overwrite_entry f dl e [7] = (Err (ValueError "chr() arg not in range(0x110000)"), f) /\
  overwrite_entry f dl e [7] =
    if existsb (fun x => 128 <=? x) (read_at f (payload_pos dl e (count e)) (count e))
    then (Err (ValueError "chr() arg not in range(0x110000)"), f)
    else if (Z.of_nat (length [7]) <=? count e) && forallb (fun x => x <=? 127) [7]
    then (Ok tt, write_at f (value_offset e)
                   ([7] ++ repeat 0 (Z.to_nat (count e - Z.of_nat (length [7])))))
    else (Err StructError, f).
Proof.
  intros dl e f. split; [vm_compute; reflexivity |].
  apply overwrite_byte;
    [apply is_bytes_check; vm_compute; reflexivity | reflexivity | vm_compute; reflexivity].
Defined.

(** X12: [overwrite_entry] writes nothing when it fails, and it fails on every
    entry whose type is neither ASCII nor BYTE. *)
Theorem overwrite_entry_only_ascii_byte (f : bytes) (dl : dialect) (e : TiffEntry) (b : bytes) :
  (fst (overwrite_entry f dl e b) <> Ok tt -> snd (overwrite_entry f dl e b) = f) /\
  (type e <> ASCII -> type e <> BYTE -> exists x, overwrite_entry f dl e b = (Err x, f)).
Proof.
  unfold overwrite_entry.
  destruct (_ <- format_type (type e) ;; _) as [old_len | x]; [| split; eauto].
  destruct (type e =? ASCII) eqn:Ea.
  - split; [cbn [fst]; intros H; contradiction H; reflexivity |].
    intros Hn. apply Z.eqb_eq in Ea. contradiction.
  - destruct (type e =? BYTE) eqn:Eb.
    + split.
      * destruct (negb _); [reflexivity |]. destruct (forallb _ _); [| reflexivity].
        cbn [fst]. intros H; contradiction H; reflexivity.
      * intros _ Hn. apply Z.eqb_eq in Eb. contradiction.
    + split; [reflexivity | eauto].
Qed.

Lemma overwrite_entry_only_ascii_byte_witness :
  let dl := {| dl_le := true; dl_big := false; dl_ndpi := false |} in
  let e := {| start := 10; tag := 256; type := SHORT; count := 1;
              value_offset := 5 |} in
  (fst (overwrite_entry tiff_strip_in_ifd1 dl e [1]) <> Ok tt ->
   snd (overwrite_entry tiff_strip_in_ifd1 dl e [1]) = tiff_strip_in_ifd1) /\
  exists x, overwrite_entry tiff_strip_in_ifd1 dl e [1] = (Err x, tiff_strip_in_ifd1).
Proof.
  intros dl e.
  destruct (overwrite_entry_only_ascii_byte tiff_strip_in_ifd1 dl e [1]) as [H1 H2].
  split; [exact H1 |]. apply H2; vm_compute; discriminate.
Defined.

(** ** TiffDirectory.delete *)

Lemma value_never_keyerror (f : bytes) (dl : dialect) (e : TiffEntry) :
  value f dl e <> Err KeyError.
Proof.
  unfold value. destruct (format_type (type e)) as [it |] eqn:Ef.
  - cbn [bind]. destruct (negb _); [discriminate |].
    destruct (type e =? ASCII); [| discriminate].
    destruct (rev _); [discriminate |]. destruct (_ =? 0); discriminate.
  - unfold format_type in Ef.
    repeat match type of Ef with
           | (if ?c then _ else _) = _ => destruct c; [discriminate Ef |]
           end.
    injection Ef as <-. cbn [bind]. discriminate.
Qed.

(** X13: how [TiffDirectory.delete] treats a directory without usable strip
    tags: if STRIP_OFFSETS is missing, or its value can be read but
    STRIP_BYTE_COUNTS is missing, it raises IOError('Directory is not
    stripped'); if the value of STRIP_OFFSETS cannot be read, that error is
    raised.  In both cases nothing is written. *)
Theorem delete_not_stripped (f : bytes) (dl : dialect) (d : TiffDirectory) (pfx : bytes) :
  ((dict_get STRIP_OFFSETS (entries d) = None \/
    exists e1 v, dict_get STRIP_OFFSETS (entries d) = Some e1 /\ value f dl e1 = Ok v /\
                 dict_get STRIP_BYTE_COUNTS (entries d) = None) ->
   delete f dl d pfx = (Err (IOError "Directory is not stripped"), f)) /\
  (forall e1 x, dict_get STRIP_OFFSETS (entries d) = Some e1 -> value f dl e1 = Err x ->
   delete f dl d pfx = (Err x, f)).
Proof.
  split.
  - intros [H | (e1 & v & H1 & Hv & H2)]; unfold delete, strip_values, dict_index.
    + rewrite H. reflexivity.
    + rewrite H1. cbn [bind]. rewrite Hv. cbn [bind]. rewrite H2. reflexivity.
  - intros e1 x H1 Hv. unfold delete, strip_values, dict_index.
    rewrite H1. cbn [bind]. rewrite Hv. cbn [bind].
    destruct x; try reflexivity. exfalso. exact (value_never_keyerror f dl e1 Hv).
Qed.

Lemma delete_not_stripped_witness :
  let dl := {| dl_le := true; dl_big := false; dl_ndpi := false |} in
  let d := {| entries := [(256, {| start := 10; tag := 256; type := SHORT; count := 1;
                                   value_offset := 5 |})];
              in_pointer_offset := 4; out_pointer_offset := 22; number := 0;
              directory_offset := 8 |} in
  delete tiff_strip_in_ifd1 dl d [] = (Err (IOError "Directory is not stripped"), tiff_strip_in_ifd1)
  /\ (forall e1 x, dict_get STRIP_OFFSETS (entries d) = Some e1 ->
        value tiff_strip_in_ifd1 dl e1 = Err x ->
        delete tiff_strip_in_ifd1 dl d [] = (Err x, tiff_strip_in_ifd1)).
Proof.
  intros dl d.
  destruct (delete_not_stripped tiff_strip_in_ifd1 dl d []) as [H1 H2].
  split; [apply H1; left; reflexivity | exact H2].
Defined.

Lemma wipe_strips_app (pre : list (item * item)) :
  forall f dl base pfx post,
  wipe_strips f dl base pfx (pre ++ post) =
  match wipe_strips f dl base pfx pre with
  | (Ok _, f1) => wipe_strips f1 dl base pfx post
  | (Err x, f1) => (Err x, f1)
  end.
Proof.
  induction pre as [| [o l] pre IH]; intros f dl base pfx post; [reflexivity |].
  cbn [app wipe_strips].
  destruct o as [o0 | | |]; try reflexivity.
  destruct (near_pointer dl base o0 <? 0); [reflexivity |].
  destruct (match pfx with [] => false | _ => _ end); [reflexivity |].
  destruct l; try reflexivity. apply IH.
Qed.

(** X14: with an expected prefix, [TiffDirectory.delete] zeroes the strips in
    order and stops at the first strip whose bytes (after the earlier
    strips were zeroed) do not start with the prefix: it raises
    IOError('Unexpected data in image strip'), the earlier strips stay
    zeroed and the directory is not unlinked. *)
Theorem delete_stops_at_bad_strip (f : bytes) (dl : dialect) (d : TiffDirectory)
    (pfx : bytes) (offs lens : pyvalue) (pre rest : list (item * item)) (o : Z) (l : item)
    (f1 : bytes) :
  pfx <> [] ->
  strip_values f dl d = Ok (offs, lens) ->
  combine (iter_value offs) (iter_value lens) = pre ++ (IInt o, l) :: rest ->
  wipe_strips f dl (out_pointer_offset d) pfx pre = (Ok tt, f1) ->
  0 <= near_pointer dl (out_pointer_offset d) o ->
  read_at f1 (near_pointer dl (out_pointer_offset d) o) (Z.of_nat (length pfx)) <> pfx ->
  delete f dl d pfx = (Err (IOError "Unexpected data in image strip"), f1).
Proof.
  intros Hp Hs Hc Hw Ho Hr. unfold delete. rewrite Hs, Hc, wipe_strips_app, Hw.
  cbn [wipe_strips].
  replace (near_pointer dl (out_pointer_offset d) o <? 0) with false
    by (symmetry; apply Z.ltb_ge; exact Ho).
  destruct pfx as [| c cs]; [contradiction Hp; reflexivity |].
  destruct (bytes_eqb _ (c :: cs)) eqn:E; [apply bytes_eqb_eq in E; contradiction |].
  reflexivity.
Qed.

Lemma delete_stops_at_bad_strip_witness :
  let dl := {| dl_le := true; dl_big := false; dl_ndpi := false |} in
  let d := {| entries := [(273, {| start := 10; tag := 273; type := LONG; count := 2;
                                   value_offset := 38 |});
                          (279, {| start := 22; tag := 279; type := LONG; count := 2;
                                   value_offset := 46 |})];
              in_pointer_offset := 4; out_pointer_offset := 34; number := 0;
              directory_offset := 8 |} in
  open_tiff 10 tiff_two_strips = Ok {| tf_dialect := dl; directories := [d] |} /\
  delete tiff_two_strips dl d [255; 216]
  = (Err (IOError "Unexpected data in image strip"), write_at tiff_two_strips 54 [0; 0]).
Proof.
  intros dl d. split; [vm_compute; reflexivity |].
  apply (delete_stops_at_bad_strip tiff_two_strips dl d [255; 216]
           (VTuple [IInt 54; IInt 56]) (VTuple [IInt 2; IInt 2])
           [(IInt 54, IInt 2)] [] 56 (IInt 2));
    [discriminate | vm_compute; reflexivity | reflexivity | vm_compute; reflexivity
    | vm_compute; discriminate | vm_compute; discriminate].
Defined.

(** ** read_fmt and write_fmt *)

Lemma le_value_le_bytes (m : nat) :
  forall v, 0 <= v < 2 ^ (8 * Z.of_nat m) -> le_value (le_bytes m v) = v.
Proof.
  induction m as [| m IH]; intros v Hv.
  - simpl in Hv. cbn [le_bytes le_value]. lia.
  - cbn [le_bytes le_value].
    rewrite Nat2Z.inj_succ, Z.mul_succ_r, Z.pow_add_r in Hv by lia.
    change (2 ^ 8) with 256 in Hv.
    assert (H256 : 0 < 2 ^ (8 * Z.of_nat m)) by (apply Z.pow_pos_nonneg; lia).
    rewrite IH.
    + pose proof (Z.div_mod v 256 ltac:(lia)). lia.
    + split; [apply Z.div_pos; lia |]. apply Z.div_lt_upper_bound; lia.
Qed.

Lemma length_le_bytes (m : nat) (v : Z) : length (le_bytes m v) = m.
Proof.
  revert v. induction m as [| m IH]; intros v; [reflexivity |].
  cbn [le_bytes length]. rewrite IH. reflexivity.
Qed.

(** X6: [TiffFile.write_fmt] then [read_fmt] of one unsigned integer code of
    [n] bytes at a position inside the file: a value in range is read back
    as written, the file keeps its length and only those [n] bytes change;
    a value out of range makes [struct.pack] raise struct.error. *)
Theorem write_read_uint (f : bytes) (dl : dialect) (pos n v : Z) :
  0 <= pos -> 0 < n -> pos + n <= Z.of_nat (length f) ->
  (0 <= v < 2 ^ (8 * n) ->
   exists f', write_uint f dl pos n v = Ok f' /\ length f' = length f /\
     read_uint f' dl pos n = Ok v /\
     forall i, 0 <= i -> ~ (pos <= i < pos + n) -> byte_at f' i = byte_at f i) /\
  (~ (0 <= v < 2 ^ (8 * n)) -> write_uint f dl pos n v = Err StructError).
Proof.
  intros Hp Hn Hle. split.
  - intros Hv. unfold write_uint, pack_uint.
    replace ((0 <=? v) && (v <? 2 ^ (8 * n))) with true
      by (symmetry; apply andb_true_intro; split; [apply Z.leb_le | apply Z.ltb_lt]; lia).
    cbn [bind].
    set (bs := if dl_le dl then le_bytes (Z.to_nat n) v else rev (le_bytes (Z.to_nat n) v)).
    assert (Hbl : Z.of_nat (length bs) = n)
      by (unfold bs; destruct (dl_le dl); rewrite ?length_rev, length_le_bytes; lia).
    exists (write_at f pos bs). split; [reflexivity |].
    split; [apply write_at_length; lia |]. split.
    + assert (Hrd : read_at (write_at f pos bs) pos n = bs)
        by (rewrite <- Hbl; apply read_write_same; lia).
      unfold read_uint. cbv zeta. rewrite Hrd, Hbl, Z.eqb_refl. f_equal. unfold unpack_uint, bs.
      assert (Hv' : 0 <= v < 2 ^ (8 * Z.of_nat (Z.to_nat n))) by (rewrite Z2Nat.id; lia).
      destruct (dl_le dl); [| rewrite rev_involutive]; apply le_value_le_bytes; exact Hv'.
    + intros i Hi Hout. rewrite byte_at_write by lia. rewrite Hbl.
      destruct (pos <=? i) eqn:E1; [| reflexivity].
      destruct (i <? pos + n) eqn:E2; [| reflexivity].
      apply Z.leb_le in E1. apply Z.ltb_lt in E2. exfalso. apply Hout. lia.
  - intros Hv. unfold write_uint, pack_uint.
    replace ((0 <=? v) && (v <? 2 ^ (8 * n))) with false; [reflexivity |].
    symmetry. apply Bool.not_true_iff_false. intros H.
    apply andb_prop in H as [H1 H2]. apply Z.leb_le in H1. apply Z.ltb_lt in H2.
    apply Hv. lia.
Qed.

Lemma write_read_uint_witness :
  let dl := {| dl_le := false; dl_big := false; dl_ndpi := false |} in
  (0 <= 258 < 2 ^ (8 * 2) ->
   exists f', write_uint tiff_strip_in_ifd1 dl 4 2 258 = Ok f' /\
     length f' = length tiff_strip_in_ifd1 /\ read_uint f' dl 4 2 = Ok 258 /\
     forall i, 0 <= i -> ~ (4 <= i < 4 + 2) -> byte_at f' i = byte_at tiff_strip_in_ifd1 i) /\
  (~ (0 <= 258 < 2 ^ (8 * 2)) -> write_uint tiff_strip_in_ifd1 dl 4 2 258 = Err StructError).
Proof.
  intros dl. apply write_read_uint; [lia | lia | vm_compute; discriminate].
Defined.

(** ** do_hamamatsu_ndpi *)

Lemma value_errors (f : bytes) (dl : dialect) (e : TiffEntry) (x : exn) :
  value f dl e = Err x ->
  x = StructError \/ x = IndexError \/ exists msg, x = ValueError msg.
Proof.
  unfold value. destruct (format_type (type e)) as [it |] eqn:Ef.
  - cbn [bind]. destruct (negb _); [intros H; injection H as <-; auto |].
    destruct (type e =? ASCII); [| discriminate].
    destruct (rev _); [intros H; injection H as <-; auto |].
    destruct (_ =? 0); [discriminate | intros H; injection H as <-; eauto].
  - unfold format_type in Ef.
    repeat match type of Ef with
           | (if ?c then _ else _) = _ => destruct c; [discriminate Ef |]
           end.
    injection Ef as <-. cbn [bind]. intros H; injection H as <-. eauto.
Qed.

Lemma wipe_strips_errors (pairs : list (item * item)) :
  forall f dl base pfx x f1,
  wipe_strips f dl base pfx pairs = (Err x, f1) -> x <> UnrecognizedFile.
Proof.
  induction pairs as [| [o l] rest IH]; intros f dl base pfx x f1 H; cbn [wipe_strips] in H;
    [discriminate H |].
  destruct o; try (injection H as <- _; discriminate).
  destruct (_ <? 0); [injection H as <- _; discriminate |].
  destruct (match pfx with [] => false | _ => _ end); [injection H as <- _; discriminate |].
  destruct l; try (injection H as <- _; discriminate). eapply IH; exact H.
Qed.

Lemma delete_errors (f : bytes) (dl : dialect) (d : TiffDirectory) (pfx : bytes)
    (x : exn) (f1 : bytes) :
  delete f dl d pfx = (Err x, f1) -> x <> UnrecognizedFile.
Proof.
  unfold delete. destruct (strip_values f dl d) as [[offs lens] | y] eqn:Es.
  - destruct (wipe_strips _ _ _ _ _) as [[u | y] f2] eqn:Ew.
    + unfold read_uint, write_uint, pack_uint.
      destruct (_ =? _); cbn [bind]; [| intros H; injection H as <- _; discriminate].
      destruct (_ && _); cbn [bind]; intros H;
        first [discriminate H | injection H as <- _; discriminate].
    + intros H. injection H as <- _. eapply wipe_strips_errors; exact Ew.
  - unfold strip_values, dict_index in Es.
    destruct y; try (intros H; injection H as <- _; discriminate).
    intros _. unfold strip_values, dict_index in Es.
    destruct (dict_get STRIP_OFFSETS (entries d)); cbn [bind] in Es; [| discriminate Es].
    destruct (value f dl t) eqn:Ev; cbn [bind] in Es.
    + destruct (dict_get STRIP_BYTE_COUNTS (entries d)); cbn [bind] in Es; [| discriminate Es].
      destruct (value f dl t0) eqn:Ev'; cbn [bind] in Es; [discriminate Es |].
      injection Es as ->. destruct (value_errors _ _ _ _ Ev') as [H | [H | [m H]]];
        discriminate H.
    + injection Es as ->. destruct (value_errors _ _ _ _ Ev) as [H | [H | [m H]]];
        discriminate H.
Qed.

Lemma sourcelens_errors (f : bytes) (dl : dialect) (d : TiffDirectory) (x : exn) :
  sourcelens_is_minus_one f dl d = Err x -> x <> UnrecognizedFile.
Proof.
  unfold sourcelens_is_minus_one, dict_index.
  destruct (dict_get NDPI_SOURCELENS (entries d)) as [e |]; cbn [bind];
    [| intros H; injection H as <-; discriminate].
  destruct (value f dl e) as [v | y] eqn:Ev; cbn [bind].
  - destruct (iter_value v); [intros H; injection H as <-; discriminate | discriminate].
  - intros H; injection H as <-.
    destruct (value_errors _ _ _ _ Ev) as [H | [H | [m H]]]; rewrite H; discriminate.
Qed.

Lemma find_dir_errors (probe : TiffDirectory -> res bool) (P : exn -> Prop)
    (Hp : forall d x, probe d = Err x -> P x) (ds : list TiffDirectory) :
  forall x, find_dir probe ds = Err x -> P x.
Proof.
  induction ds as [| d r IH]; intros x H; cbn [find_dir] in H; [discriminate H |].
  destruct (probe d) as [b | y] eqn:Ep; cbn [bind] in H.
  - destruct b; [discriminate H | exact (IH x H)].
  - injection H as <-. exact (Hp d y Ep).
Qed.

(** X15: [do_hamamatsu_ndpi] raises UnrecognizedFile exactly when the file is
    not a TIFF the reader recognizes or its first directory lacks tag 65420,
    and it has then written nothing: once the file is taken as NDPI, every
    failure is another error. *)
Theorem ndpi_unrecognized_before_writing (fuel : nat) (f : bytes) :
  (fst (do_hamamatsu_ndpi fuel f) = Err UnrecognizedFile <->
   open_tiff fuel f = Err UnrecognizedFile \/
   exists tf d0 rest, open_tiff fuel f = Ok tf /\ directories tf = d0 :: rest /\
                      has_tag NDPI_MAGIC d0 = false) /\
  (fst (do_hamamatsu_ndpi fuel f) = Err UnrecognizedFile ->
   snd (do_hamamatsu_ndpi fuel f) = f).
Proof.
  unfold do_hamamatsu_ndpi.
  destruct (open_tiff fuel f) as [tf | x] eqn:Eo.
  - destruct (directories tf) as [| d0 rest] eqn:Eds.
    + cbn [fst snd]. split; [| intros _; reflexivity]. split; [discriminate |].
      intros [H | (tf' & d0 & rest & H & Hd & _)]; [discriminate H |].
      injection H as <-. rewrite Hd in Eds. discriminate Eds.
    + destruct (has_tag NDPI_MAGIC d0) eqn:Em; cbn [negb].
      * assert (Hr : ~ (Ok tf = Err UnrecognizedFile \/
                        exists tf' d0' rest', Ok tf = Ok tf' /\
                          directories tf' = d0' :: rest' /\ has_tag NDPI_MAGIC d0' = false)).
        { intros [H | (tf' & d0' & rest' & H & Hd & Hm)]; [discriminate H |].
          injection H as <-. rewrite Hd in Eds. injection Eds as <- _.
          rewrite Em in Hm. discriminate Hm. }
        destruct (find_dir _ _) as [[d |] | y] eqn:Ef.
        -- destruct (delete f (tf_dialect tf) d JPEG_SOI) as [r f2] eqn:Ed. cbn [fst snd].
           assert (Hne : r <> Err UnrecognizedFile).
           { intros ->. exact (delete_errors _ _ _ _ _ _ Ed eq_refl). }
           split; [split; [intros H; contradiction | intros H; contradiction] |].
           intros H; contradiction.
        -- cbn [fst snd]. split; [split; [discriminate | intros H; contradiction] |].
           intros _; reflexivity.
        -- cbn [fst snd]. split; [| intros _; reflexivity]. split; [| intros H; contradiction].
           intros H. injection H as ->.
           exfalso. exact (find_dir_errors _ (fun x => x <> UnrecognizedFile)
                             (sourcelens_errors f (tf_dialect tf)) _ _ Ef eq_refl).
      * cbn [fst snd]. split; [| intros _; reflexivity]. split; [intros _ | intros _; reflexivity].
        right. exists tf, d0, rest. auto.
  - cbn [fst snd]. split; [| intros _; reflexivity]. split.
    + intros H. injection H as ->. left. reflexivity.
    + intros [H | (tf & d0 & rest & H & _)]; [injection H as ->; reflexivity | discriminate H].
Qed.

Lemma ndpi_unrecognized_before_writing_witness :
  fst (do_hamamatsu_ndpi 10 tiff_strip_in_ifd1) = Err UnrecognizedFile /\
  snd (do_hamamatsu_ndpi 10 tiff_strip_in_ifd1) = tiff_strip_in_ifd1.
Proof.
  destruct (ndpi_unrecognized_before_writing 10 tiff_strip_in_ifd1) as [[_ H1] H2].
  assert (H : fst (do_hamamatsu_ndpi 10 tiff_strip_in_ifd1) = Err UnrecognizedFile).
  { apply H1. right.
    destruct (open_tiff 10 tiff_strip_in_ifd1) as [tf |] eqn:Eo;
      [| vm_compute in Eo; discriminate Eo].
    assert (Ev := Eo). vm_compute in Ev. injection Ev as <-.
    eexists; eexists; eexists. split; [reflexivity |]. split; reflexivity. }
  split; [exact H | exact (H2 H)].
Defined.

Lemma unpack_uint_items (le : bool) (it : item_fmt) (n : nat) :
  it = FH \/ it = FI \/ it = FQ ->
  forall bs, is_bytes bs -> Forall nonneg_int (unpack_items le it n bs).
Proof.
  intros Hit. induction n as [| n IH]; intros bs Hb; cbn [unpack_items]; constructor.
  - assert (Hc : is_bytes (firstn (Z.to_nat (item_size it)) bs)) by (apply bytes_firstn; exact Hb).
    assert (Hu : 0 <= unpack_uint le (firstn (Z.to_nat (item_size it)) bs)).
    { unfold unpack_uint. destruct le.
      - apply le_value_bounds, Hc.
      - apply le_value_bounds, Forall_rev, Hc. }
    destruct Hit as [-> | [-> | ->]]; eexists; split; [reflexivity | exact Hu
      | reflexivity | exact Hu | reflexivity | exact Hu].
  - apply IH. apply bytes_skipn. exact Hb.
Qed.

Lemma value_unsigned (f : bytes) (dl : dialect) (e : TiffEntry) (v : pyvalue) :
  is_bytes f -> value f dl e = Ok v ->
  type e <> BYTE -> type e <> FLOAT -> type e <> DOUBLE ->
  Forall nonneg_int (iter_value v).
Proof.
  intros Hf H Hb Hfl Hd. unfold value in H.
  destruct (format_type (type e)) as [it |] eqn:Ef; cbn [bind] in H; [| discriminate H].
  set (raw := read_at f _ _) in H.
  assert (Hraw : is_bytes raw) by (apply bytes_read_at; exact Hf).
  destruct (negb _) eqn:El; [discriminate H |].
  unfold format_type in Ef.
  destruct (Z.eqb_spec (type e) BYTE); [contradiction |].
  destruct (Z.eqb_spec (type e) ASCII) as [Ha | Ha].
  - injection Ef as <-. change (item_size Fc) with 1 in El, raw.
    rewrite Z.mul_1_r in El. apply negb_false_iff, Z.eqb_eq in El.
    fold raw in El. replace (Z.to_nat (count e)) with (length raw) in H by lia.
    rewrite unpack_chars, <- map_rev in H.
    destruct (rev raw) as [| c r] eqn:Er; cbn [map] in H; [discriminate H |].
    destruct (char_of (IChar c) =? 0); [| discriminate H].
    injection H as <-. rewrite removelast_map, char_of_chars. cbn [iter_value].
    apply Forall_map. apply is_bytes_removelast in Hraw.
    unfold is_bytes in Hraw. eapply Forall_impl; [| exact Hraw].
    intros z Hz. cbv beta in Hz. exists z. split; [reflexivity | lia].
  - assert (Hit : it = FH \/ it = FI \/ it = FQ).
    { destruct (Z.eqb_spec (type e) SHORT); [injection Ef as <-; auto |].
      destruct (Z.eqb_spec (type e) LONG); [injection Ef as <-; auto |].
      destruct (Z.eqb_spec (type e) LONG8); [injection Ef as <-; auto |].
      destruct (Z.eqb_spec (type e) FLOAT); [contradiction |].
      destruct (Z.eqb_spec (type e) DOUBLE); [contradiction | discriminate Ef]. }
    injection H as <-. cbn [iter_value].
    apply unpack_uint_items; assumption.
Qed.

(** X16: in [do_hamamatsu_ndpi] the label probe [value()[0] == -1] can hold
    only for a SourceLens entry of type BYTE (signed), FLOAT or DOUBLE: the
    unsigned and ASCII types never read as -1. *)
Theorem ndpi_probe_needs_signed_type (f : bytes) (dl : dialect) (d : TiffDirectory) :
  is_bytes f -> sourcelens_is_minus_one f dl d = Ok true ->
  exists e, dict_get NDPI_SOURCELENS (entries d) = Some e /\
    (type e = BYTE \/ type e = FLOAT \/ type e = DOUBLE).
Proof.
  intros Hf H. unfold sourcelens_is_minus_one, dict_index in H.
  destruct (dict_get NDPI_SOURCELENS (entries d)) as [e |]; cbn [bind] in H; [| discriminate H].
  exists e. split; [reflexivity |].
  destruct (value f dl e) as [v |] eqn:Ev; cbn [bind] in H; [| discriminate H].
  destruct (Z.eqb_spec (type e) BYTE); [auto |].
  destruct (Z.eqb_spec (type e) FLOAT); [auto |].
  destruct (Z.eqb_spec (type e) DOUBLE); [auto |].
  exfalso. pose proof (value_unsigned f dl e v Hf Ev ltac:(assumption) ltac:(assumption)
                         ltac:(assumption)) as Hn.
  destruct (iter_value v) as [| x r]; [discriminate H |].
  injection H as Hx. inversion Hn as [| ? ? (z & -> & Hz) _]; subst.
  cbn [is_minus_one] in Hx. apply Z.eqb_eq in Hx. lia.
Qed.

Lemma ndpi_probe_needs_signed_type_witness :
  let dl := {| dl_le := true; dl_big := false; dl_ndpi := false |} in
  let d := {| entries := [(65421, {| start := 10; tag := 65421; type := FLOAT; count := 1;
                                     value_offset := 3212836864 |})];
              in_pointer_offset := 4; out_pointer_offset := 22; number := 0;
              directory_offset := 8 |} in
  sourcelens_is_minus_one ndpi_float_sourcelens dl d = Ok true /\
  exists e, dict_get NDPI_SOURCELENS (entries d) = Some e /\
    (type e = BYTE \/ type e = FLOAT \/ type e = DOUBLE).
Proof.
  intros dl d.
  assert (H : sourcelens_is_minus_one ndpi_float_sourcelens dl d = Ok true)
    by (vm_compute; reflexivity).
  split; [exact H |].
  apply (ndpi_probe_needs_signed_type ndpi_float_sourcelens dl d); [| exact H].
  apply is_bytes_check. vm_compute. reflexivity.
Defined.

(** ** The older variant and MrxsFile._write *)

(** X8: the older [TiffEntry.value] is the newer one except that it has no
    BYTE type: a BYTE entry raises ValueError('Unsupported type'). *)
Theorem value_old_no_byte (f : bytes) (dl : dialect) (e : TiffEntry) :
  value_old f dl e =
  if type e =? BYTE then Err (ValueError "Unsupported type") else value f dl e.
Proof.
  unfold value_old, value.
  destruct (Z.eqb_spec (type e) BYTE) as [Hb | Hb].
  - rewrite Hb. reflexivity.
  - f_equal. unfold format_type_old, format_type.
    replace (type e =? BYTE) with false by (symmetry; apply Z.eqb_neq; exact Hb).
    reflexivity.
Qed.

Lemma svs_label_walk_old_no_write (f : bytes) (dl : dialect) (ds : list TiffDirectory) :
  snd (svs_label_walk_old f dl ds) = f /\ fst (svs_label_walk_old f dl ds) <> Ok tt.
Proof.
  induction ds as [| d r IH]; cbn [svs_label_walk_old]; [split; [reflexivity | discriminate] |].
  destruct (image_description_old f dl d) as [[s | t] | x];
    try (split; [reflexivity | discriminate]).
  destruct (splitlines s) as [| l0 [| l1 rest]]; try exact IH.
  cbn [bytes_with_encoding]. split; [reflexivity | discriminate].
Qed.

(** X17: the older do_aperio_svs never changes the file and never succeeds:
    under Python 3, [bytes(lines[1], 'utf-8')] on a bytes line raises
    TypeError at the first directory whose description has two lines, and
    every other path raises before any write. *)
Theorem do_aperio_svs_old_never_writes (fuel : nat) (f : bytes) :
  snd (do_aperio_svs_old fuel f) = f /\ fst (do_aperio_svs_old fuel f) <> Ok tt.
Proof.
  unfold do_aperio_svs_old. destruct (svs_check_old fuel f) as [tf | x].
  - apply svs_label_walk_old_no_write.
  - split; [reflexivity | discriminate].
Qed.

Lemma lf_to_crlf_lf (bs : bytes) :
  forall i, nth i (lf_to_crlf bs) 0 = 10 -> (0 < i)%nat /\ nth (i - 1) (lf_to_crlf bs) 0 = 13.
Proof.
  induction bs as [| b r IH]; intros i H; [destruct i; discriminate H |].
  unfold lf_to_crlf in *. cbn [flat_map] in *.
  destruct (Z.eqb_spec b 10) as [Hb | Hb].
  - destruct i as [| [| i]]; [discriminate H | split; [lia | reflexivity] |].
    cbn [app nth] in H. destruct (IH i H) as [Hi Hn].
    split; [lia |]. replace (S (S i) - 1)%nat with (S i) by lia.
    destruct i as [| i]; [lia |]. cbn [app nth]. replace (S i - 1)%nat with i in Hn by lia.
    exact Hn.
  - destruct i as [| i]; [cbn in H; contradiction |].
    cbn [app nth] in H. destruct (IH i H) as [Hi Hn].
    split; [lia |]. destruct i as [| i]; [lia |]. cbn [app nth].
    replace (S i - 1)%nat with i in Hn by lia. replace (S (S i) - 1)%nat with (S i) by lia.
    exact Hn.
Qed.

(** X23: [MrxsFile._write] writes Slidedat.ini with CRLF line ends: every LF
    byte of the file follows a CR. *)
Theorem slidedat_write_crlf (have_bom : bool) (d : Ini) (i : nat) :
  nth i (slidedat_write have_bom d) 0 = 10 ->
  (0 < i)%nat /\ nth (i - 1) (slidedat_write have_bom d) 0 = 13.
Proof.
  unfold slidedat_write. destruct have_bom.
  - intros H. destruct i as [| [| [| i]]]; try discriminate H.
    cbn [app nth UTF8_BOM] in H. destruct (lf_to_crlf_lf _ i H) as [Hi Hn].
    split; [lia |]. destruct i as [| i]; [lia |].
    replace (S (S (S (S i))) - 1)%nat with (S (S (S i))) by lia.
    cbn [app nth UTF8_BOM]. replace (S i - 1)%nat with i in Hn by lia. exact Hn.
  - cbn [app]. apply lf_to_crlf_lf.
Qed.

Lemma slidedat_write_crlf_witness :
  let d := {| ini_defaults := [];
              ini_sections := [(bstr "GENERAL", [(bstr "A", [49; 10; 50])])] |} in
  nth 13 (slidedat_write true d) 0 = 10 /\
  (0 < 13)%nat /\ nth (13 - 1) (slidedat_write true d) 0 = 13.
Proof.
  intros d. assert (H : nth 13 (slidedat_write true d) 0 = 10) by (vm_compute; reflexivity).
  split; [exact H |]. exact (slidedat_write_crlf true d 13%nat H).
Defined.

(** ** MrxsFile._zero_record *)

Lemma py_list_index_bounds (n i j : Z) : py_list_index n i = Ok j -> 0 <= j < n.
Proof.
  unfold py_list_index.
  destruct ((0 <=? i) && (i <? n)) eqn:E1.
  - intros H. injection H as <-. apply andb_prop in E1 as [E1 E2].
    apply Z.leb_le in E1. apply Z.ltb_lt in E2. lia.
  - destruct ((- n <=? i) && (i <? 0)) eqn:E2; [| discriminate].
    intros H. injection H as <-. apply andb_prop in E2 as [E2 E3].
    apply Z.leb_le in E2. apply Z.ltb_lt in E3. lia.
Qed.

Lemma get_data_location_bounds (index : bytes) (n record i pos size : Z) :
  get_data_location index n record = Ok (i, pos, size) -> 0 <= i < n.
Proof.
  unfold get_data_location. intros H.
  repeat (bind_inv H). injection H as <- _ _.
  eapply py_list_index_bounds. eassumption.
Qed.

(** X20: [MrxsFile._zero_record] never writes the index file, leaves every
    file as it was when it fails, and succeeds only by truncating: then the
    record's data file (selected by an index within the list of data files)
    ended exactly at [position + size] and is cut to [position], and no
    other data file changes. *)
Theorem zero_record_success_is_truncation (m : MrxsFiles) (record : Z) :
  (fst (zero_record m record) <> Ok tt -> snd (zero_record m record) = m) /\
  (fst (zero_record m record) = Ok tt ->
   exists i pos size,
     get_data_location (index_file m) (Z.of_nat (length (datafiles m))) record
       = Ok (i, pos, size) /\
     0 <= i < Z.of_nat (length (datafiles m)) /\
     Z.of_nat (length (nth (Z.to_nat i) (datafiles m) [])) = pos + size /\
     snd (zero_record m record)
       = {| index_file := index_file m;
            datafiles := list_set (datafiles m) (Z.to_nat i)
                           (truncate_at (nth (Z.to_nat i) (datafiles m) []) pos) |}).
Proof.
  unfold zero_record.
  destruct (get_data_location _ _ _) as [[[i pos] size] | x] eqn:Eg;
    [| split; [reflexivity | discriminate]].
  unfold zero_record_data.
  set (data := nth (Z.to_nat i) (datafiles m) []).
  assert (Hsame : {| index_file := index_file m;
                     datafiles := list_set (datafiles m) (Z.to_nat i) data |} = m)
    by (unfold data; rewrite list_set_nth_same; destruct m; reflexivity).
  destruct (pos <? 0); [cbn [fst snd]; split; [intros _; exact Hsame | discriminate] |].
  destruct (negb _); [cbn [fst snd]; split; [intros _; exact Hsame | discriminate] |].
  destruct (Z.of_nat (length data) =? pos + size) eqn:Et;
    [| cbn [fst snd]; split; [intros _; exact Hsame | discriminate]].
  cbn [fst snd]. split; [intros H; contradiction H; reflexivity |].
  intros _. exists i, pos, size. split; [reflexivity |].
  split; [exact (get_data_location_bounds _ _ _ _ _ _ Eg) |].
  split; [apply Z.eqb_eq; exact Et | reflexivity].
Qed.

Lemma zero_record_success_is_truncation_witness :
  let m := {| index_file := mrxs_index_one; datafiles := [[255; 216; 7; 7]] |} in
  fst (zero_record m 0) = Ok tt /\
  exists i pos size,
    get_data_location (index_file m) (Z.of_nat (length (datafiles m))) 0 = Ok (i, pos, size) /\
    0 <= i < Z.of_nat (length (datafiles m)) /\
    Z.of_nat (length (nth (Z.to_nat i) (datafiles m) [])) = pos + size /\
    snd (zero_record m 0)
      = {| index_file := index_file m;
           datafiles := list_set (datafiles m) (Z.to_nat i)
                          (truncate_at (nth (Z.to_nat i) (datafiles m) []) pos) |}.
Proof.
  intros m. assert (H : fst (zero_record m 0) = Ok tt) by (vm_compute; reflexivity).
  split; [exact H |]. exact (proj2 (zero_record_success_is_truncation m 0) H).
Defined.

(** ** Splitting and joining *)

Lemma split_aux_nonempty (fuel : nat) (sep s cur : bytes) : split_aux fuel sep s cur <> [].
Proof.
  revert s cur. induction fuel as [| n IH]; intros s cur; cbn [split_aux]; [discriminate |].
  destruct s as [| b r]; [discriminate |].
  destruct (startswith (b :: r) sep); [discriminate | apply IH].
Qed.

Lemma py_join_cons (sep p : bytes) (rest : list bytes) :
  rest <> [] -> py_join sep (p :: rest) = p ++ sep ++ py_join sep rest.
Proof. destruct rest; [contradiction | reflexivity]. Qed.

Lemma startswith_split (s p : bytes) : startswith s p = true -> s = p ++ skipn (length p) s.
Proof.
  unfold startswith. intros H. apply bytes_eqb_eq in H.
  rewrite <- H at 1. rewrite H. symmetry.
  rewrite <- H at 1. rewrite firstn_skipn. reflexivity.
Qed.

Lemma join_split_aux (sep : bytes) (Hsep : sep <> []) (fuel : nat) :
  forall s cur, (length s < fuel)%nat ->
  py_join sep (split_aux fuel sep s cur) = rev cur ++ s.
Proof.
  induction fuel as [| n IH]; intros s cur Hl; [lia |]. cbn [split_aux].
  destruct s as [| b r]; [cbn [py_join]; rewrite app_nil_r; reflexivity |].
  destruct (startswith (b :: r) sep) eqn:Es.
  - rewrite py_join_cons by apply split_aux_nonempty.
    pose proof (startswith_split _ _ Es) as Hs.
    assert (Hlen : (length (skipn (length sep) (b :: r)) < n)%nat).
    { rewrite length_skipn. destruct sep; [contradiction |]. simpl in *. lia. }
    rewrite IH by exact Hlen. cbn [rev app]. rewrite <- Hs. reflexivity.
  - rewrite IH by (simpl in Hl; lia). cbn [rev]. rewrite <- app_assoc. reflexivity.
Qed.

Lemma py_join_py_split (sep s : bytes) : sep <> [] -> py_join sep (py_split sep s) = s.
Proof.
  intros Hsep. unfold py_split. rewrite join_split_aux by (exact Hsep || lia). reflexivity.
Qed.

(** X18: [sep.join(s.split(sep))] gives back [s] for a non-empty separator:
    the "Remove filename" loop rebuilds a description from its '|'-fields
    without losing or adding bytes. *)
Theorem join_split (sep s : bytes) : sep <> [] -> py_join sep (py_split sep s) = s.
Proof.
  exact (py_join_py_split sep s).
Qed.

Lemma join_split_witness :
  py_join (bstr "|") (py_split (bstr "|") (bstr "Aperio|Filename = a|b")) = bstr "Aperio|Filename = a|b".
Proof. apply join_split. discriminate. Defined.

(** X19: when [cleanse_filename] succeeds (the block has exactly one
    " = "), it keeps the block up to " = " and replaces the rest by "X". *)
Theorem cleanse_filename_shape (block r : bytes) :
  cleanse_filename block = Ok r ->
  exists key val, block = key ++ bstr " = " ++ val /\ r = key ++ bstr " = " ++ bstr "X".
Proof.
  unfold cleanse_filename. intros H.
  destruct (py_split (bstr " = ") block) as [| key [| val [| x rest]]] eqn:Es;
    try discriminate H.
  injection H as <-. exists key, val. split; [| reflexivity].
  rewrite <- (py_join_py_split (bstr " = ") block) by discriminate. rewrite Es. reflexivity.
Qed.

Lemma cleanse_filename_shape_witness :
  cleanse_filename (bstr "Filename = slide1") = Ok (bstr "Filename = X") /\
  exists key val, bstr "Filename = slide1" = key ++ bstr " = " ++ val /\
                  bstr "Filename = X" = key ++ bstr " = " ++ bstr "X".
Proof.
  assert (H : cleanse_filename (bstr "Filename = slide1") = Ok (bstr "Filename = X"))
    by (vm_compute; reflexivity).
  split; [exact H | exact (cleanse_filename_shape _ _ H)].
Defined.

(** ** Reading a directory *)

Lemma dict_get_set {A} (k q : Z) (v : A) (d : list (Z * A)) :
  dict_get q (dict_set k v d) = if k =? q then Some v else dict_get q d.
Proof.
  induction d as [| [k1 v1] r IH]; cbn [dict_set dict_get]; [reflexivity |].
  destruct (Z.eqb_spec k1 k) as [-> | Hne]; cbn [dict_get].
  - destruct (k =? q); reflexivity.
  - rewrite IH. destruct (Z.eqb_spec k1 q) as [-> | Hq]; [| reflexivity].
    replace (k =? q) with false by (symmetry; apply Z.eqb_neq; auto). reflexivity.
Qed.

Lemma find_app {A} (p : A -> bool) (l1 l2 : list A) :
  find p (l1 ++ l2) = match find p l1 with Some x => Some x | None => find p l2 end.
Proof.
  induction l1 as [| a r IH]; [reflexivity |]. cbn [app find].
  destruct (p a); [reflexivity | exact IH].
Qed.

Lemma read_entries_last_wins (f : bytes) (dl : dialect) (n : nat) :
  forall pos acc ents, read_entries f dl n pos acc = Ok ents ->
  exists es, length es = n /\
    (forall k e, nth_error es k = Some e ->
       read_entry f dl (pos + Z.of_nat k * entry_size dl) = Ok e) /\
    forall t, dict_get t ents =
      match find (fun e => tag e =? t) (rev es) with
      | Some e => Some e
      | None => dict_get t acc
      end.
Proof.
  induction n as [| n IH]; intros pos acc ents H; cbn [read_entries] in H.
  - injection H as <-. exists []. split; [reflexivity |].
    split; [intros [| k] e He; discriminate He | reflexivity].
  - bind_inv H. destruct (IH _ _ _ H) as (es & Hl & Hr & Hg).
    exists (a :: es). split; [cbn [length]; rewrite Hl; reflexivity |]. split.
    + intros [| k] e He; cbn [nth_error] in He.
      * injection He as <-. rewrite Z.add_0_r. exact E.
      * replace (pos + Z.of_nat (S k) * entry_size dl)
          with (pos + entry_size dl + Z.of_nat k * entry_size dl) by lia.
        exact (Hr k e He).
    + intros t. rewrite Hg. cbn [rev]. rewrite find_app. cbn [find].
      destruct (find _ (rev es)); [reflexivity |].
      rewrite dict_get_set. destruct (tag a =? t); reflexivity.
Qed.

(** X5: [TiffDirectory.__init__] reads the directory's entries in order, and
    a tag that occurs in several entries maps to the last of them. *)
Theorem read_directory_last_entry_wins (f : bytes) (dl : dialect) (doff : Z) (num : nat)
    (ip : Z) (d : TiffDirectory) :
  read_directory f dl doff num ip = Ok d ->
  exists cnt es,
    read_uint f dl doff (y_size dl) = Ok cnt /\ length es = Z.to_nat cnt /\
    (forall k e, nth_error es k = Some e ->
       read_entry f dl (doff + y_size dl + Z.of_nat k * entry_size dl) = Ok e) /\
    forall t, dict_get t (entries d) = find (fun e => tag e =? t) (rev es).
Proof.
  intros H. destruct (read_directory_fields f dl doff num ip d H)
    as (cnt & Hc & He & _ & _ & _ & _).
  destruct (read_entries_last_wins f dl _ _ _ _ He) as (es & Hl & Hr & Hg).
  exists cnt, es. split; [exact Hc |]. split; [exact Hl |]. split; [exact Hr |].
  intros t. rewrite Hg. destruct (find _ _); reflexivity.
Qed.

Lemma read_directory_last_entry_wins_witness :
  let dl := {| dl_le := true; dl_big := false; dl_ndpi := false |} in
  exists d, read_directory tiff_duplicate_tag dl 8 0 4 = Ok d /\
  dict_get IMAGE_DESCRIPTION (entries d)
    = Some {| start := 22; tag := 270; type := ASCII; count := 2; value_offset := 98 |} /\
  exists cnt es,
    read_uint tiff_duplicate_tag dl 8 (y_size dl) = Ok cnt /\ length es = Z.to_nat cnt /\
    (forall k e, nth_error es k = Some e ->
       read_entry tiff_duplicate_tag dl (8 + y_size dl + Z.of_nat k * entry_size dl) = Ok e) /\
    forall t, dict_get t (entries d) = find (fun e => tag e =? t) (rev es).
Proof.
  intros dl.
  destruct (read_directory tiff_duplicate_tag dl 8 0 4) as [d |] eqn:H;
    [| vm_compute in H; discriminate H].
  exists d. split; [reflexivity |].
  split; [vm_compute in H; injection H as <-; reflexivity |].
  exact (read_directory_last_entry_wins tiff_duplicate_tag dl 8 0 4 d H).
Defined.
